(** * Menu digitization pipeline: OCR cascade, content hashing, persistence

    A shallow embedding of the end-to-end script of the repository
    (the OCR fallback chain, [structureOcrData], the two hash helpers, the
    two duplicate look-ups, [saveToSupabase] and [ensureUserExists])
    together with the
    properties of the written specification that can be settled on it.

    Conventions.
    - A JavaScript string is the list of its UTF-16 code units ([jsstring]).
      Identifiers, hashes, error codes and error messages, which the script
      only compares or concatenates, are kept as [string].
    - Console logging has no influence on control flow and is left out, and
      so is the debug file of [calculateContentHash], which is written
      inside a [try] of its own.  The result file of the OCR loop is
      written inside the [try] of the loop, so its fate is modelled.
    - Every [await] on the network or on the database is answered by the
      environment; the answer is an explicit argument of the model, and so
      are the identifiers drawn and the clock readings.
    - A computation on the store returns a value or an error together with
      the store it leaves and the list of the requests it has sent. *)

From Stdlib Require Import List String Ascii Bool Arith NArith Lia Permutation.
Import ListNotations.
Local Open Scope string_scope.
Local Open Scope list_scope.

(** ** JavaScript strings *)

Module JsStr.

Definition jsstring := list N.

(** Code units of an ASCII literal. *)
Definition js (s : string) : jsstring :=
  map N_of_ascii (list_ascii_of_string s).

(** ECMAScript WhiteSpace and LineTerminator code points: the set removed by
    [String.prototype.trim] and matched by [\s]. *)
Definition is_space (c : N) : bool :=
  ((9 <=? c) && (c <=? 13) || (c =? 32) || (c =? 160) || (c =? 5760)
   || ((8192 <=? c) && (c <=? 8202)) || (c =? 8232) || (c =? 8233)
   || (c =? 8239) || (c =? 8287) || (c =? 12288) || (c =? 65279))%N.

Fixpoint trimStart (s : jsstring) : jsstring :=
  match s with
  | [] => []
  | c :: r => if is_space c then trimStart r else s
  end.

Fixpoint trimEnd (s : jsstring) : jsstring :=
  match s with
  | [] => []
  | c :: r =>
      match trimEnd r with
      | [] => if is_space c then [] else [c]
      | r' => c :: r'
      end
  end.

(** [s.trim()] *)
Definition trim (s : jsstring) : jsstring := trimEnd (trimStart s).

(** [s.replace(/\s+/g, ' ')]: [in_run] tells that the previous code unit
    belonged to the whitespace run already replaced. *)
Fixpoint collapse_from (in_run : bool) (s : jsstring) : jsstring :=
  match s with
  | [] => []
  | c :: r =>
      if is_space c
      then if in_run then collapse_from true r else 32%N :: collapse_from true r
      else c :: collapse_from false r
  end.

Definition collapse (s : jsstring) : jsstring := collapse_from false s.

Definition eqb (a b : jsstring) : bool :=
  if list_eq_dec N.eq_dec a b then true else false.

(** Order of [Array.prototype.sort] without comparator on strings:
    lexicographic on code units. *)
Fixpoint ltb (a b : jsstring) : bool :=
  match a, b with
  | [], [] => false
  | [], _ :: _ => true
  | _ :: _, [] => false
  | x :: a', y :: b' =>
      if (x <? y)%N then true
      else if (y <? x)%N then false
      else ltb a' b'
  end.

(** A finite double, identified with its decimal rendering [String(x)];
    values read by [JSON.parse] are finite. *)
Definition JsNumber := jsstring.

End JsStr.
Import JsStr.

(** ** The OCR fallback chain *)

Module Ocr.

Record Model := { model_id : string; model_name : string }.

Definition OCR_MODEL_CHAIN : list Model :=
  [ {| model_id := "meta-llama/llama-3.2-11b-vision-instruct:free";
       model_name := "Llama 3.2 Vision (Free)" |};
    {| model_id := "qwen/qwen-2.5-vl-7b-instruct:free";
       model_name := "Qwen 2.5 VL (Free)" |};
    {| model_id := "google/gemini-flash-1.5"; model_name := "Gemini Flash 1.5" |};
    {| model_id := "openai/gpt-4o-mini"; model_name := "GPT-4o Mini" |};
    {| model_id := "anthropic/claude-3-haiku"; model_name := "Claude 3 Haiku" |};
    {| model_id := "anthropic/claude-3.5-sonnet";
       model_name := "Claude 3.5 Sonnet" |} ].

(** [result.choices?.[0]?.message?.content] of a parsed response body. *)
Inductive Content :=
| CUndefined
| CNotAString
| CString (text : jsstring).

(** What one pass through the [try] block of the loop meets.
    - [Aborted]: the 45 s timer fired and [fetch] rejected with AbortError;
    - [Rejected]: [fetch], [response.text()] or [response.json()] threw;
    - [NotOk]: a response with [response.ok] false;
    - [OkResponse]: a response with [response.ok] true and its parsed content;
      [saved] tells whether writing [ocr-result-<model>.txt] returned
      normally (the write sits inside the same [try]). *)
Inductive Attempt :=
| Aborted
| Rejected (message : string)
| NotOk (status : nat) (body : jsstring)
| OkResponse (content : Content) (responseTime extractedAt : string) (saved : bool).

Record Request := { req_model : string; req_image : string }.

Record Metadata :=
  { responseTime_ : string; extractedAt_ : string; textLength : nat }.

Record OcrResult :=
  { success : bool; text : jsstring; model : Model; metadata : Metadata }.

(** A thrown [Error]: the script builds it from a message only. *)
Record JsError := { error_message : string }.

Definition Outcome := (JsError + OcrResult)%type.

(** [!extractedText || typeof extractedText !== 'string'
     || extractedText.trim().length < 20] *)
Definition insufficient (c : Content) : bool :=
  match c with
  | CUndefined => true
  | CNotAString => true
  | CString t =>
      match t with [] => true | _ => false end || (List.length (trim t) <? 20)%nat
  end.

Definition all_failed_message : string :=
  "OCR failed – all models failed to extract valid text from the image".

Definition missing_key_message : string :=
  "OpenRouter API key is missing from environment variables".

Section Cascade.

(** The answer of the outside world to the [i]-th pass of the loop. *)
Variable world : nat -> Attempt.
Variable imageBase64 : string.

(** The [for] loop from index [i] on, [rest] being the models not yet
    tried.  The second component lists the requests sent, oldest first. *)
Fixpoint cascade (i : nat) (rest : list Model) : Outcome * list Request :=
  match rest with
  | [] => (inl {| error_message := all_failed_message |}, [])
  | m :: rest' =>
      let req := {| req_model := model_id m; req_image := imageBase64 |} in
      (* [continue]: the request was sent, the loop moves on *)
      let continue_ :=
        let next := cascade (S i) rest' in (fst next, req :: snd next) in
      match world i with
      | Aborted => continue_
      | Rejected _ => continue_
      | NotOk _ _ => continue_
      | OkResponse c rt at_ saved =>
          if insufficient c then continue_
          else
            match c with
            | CString t =>
                if saved then
                  (inr {| success := true; text := t;
                          model := {| model_id := model_id m;
                                      model_name := model_name m |};
                          metadata := {| responseTime_ := rt;
                                         extractedAt_ := at_;
                                         textLength := List.length t |} |},
                   [req])
                else continue_ (* the write threw: caught like any error *)
            | _ => continue_
            end
      end
  end.

End Cascade.

(** [process.env.OPENROUTER_API_KEY]: absent or empty is falsy. *)
Definition key_present (k : option string) : bool :=
  match k with
  | None => false
  | Some s => negb (String.eqb s "")
  end.

Definition runOcrWithFallbackChainOn (chain : list Model)
    (apiKey : option string) (world : nat -> Attempt) (imageBase64 : string)
  : Outcome * list Request :=
  if key_present apiKey
  then cascade world imageBase64 0 chain
  else (inl {| error_message := missing_key_message |}, []).

Definition runOcrWithFallbackChain :=
  runOcrWithFallbackChainOn OCR_MODEL_CHAIN.

(** The pass yields text that the loop accepts and returns. *)
Definition attempt_succeeds (a : Attempt) : option jsstring :=
  match a with
  | OkResponse (CString t) _ _ true => if insufficient (CString t) then None else Some t
  | _ => None
  end.

Definition attempt_fails (a : Attempt) : bool :=
  match attempt_succeeds a with Some _ => false | None => true end.

(** The three kinds of sub-failure that the specification distinguishes.
    An exception other than the abort (network, parsing, or the write of
    the result file) is logged by the same handler as a provider error. *)
Inductive SubFailure := Timeout | ProviderError | InsufficientOutput.

Definition sub_failure (a : Attempt) : option SubFailure :=
  match a with
  | Aborted => Some Timeout
  | Rejected _ => Some ProviderError
  | NotOk _ _ => Some ProviderError
  | OkResponse c _ _ saved =>
      if insufficient c then Some InsufficientOutput
      else if saved then None else Some ProviderError
  end.

Fixpoint sub_failures (world : nat -> Attempt) (i n : nat) : list SubFailure :=
  match n with
  | O => []
  | S n' =>
      match sub_failure (world i) with
      | Some f => f :: sub_failures world (S i) n'
      | None => sub_failures world (S i) n'
      end
  end.

Definition request_for (imageBase64 : string) (m : Model) : Request :=
  {| req_model := model_id m; req_image := imageBase64 |}.

End Ocr.

(** ** The relational store *)

Module Store.

Record UserProfileRow :=
  { up_id : string; up_email : string; up_created_at : N }.

Record CanonicalMenuRow :=
  { cm_id : string; cm_content_hash : string; cm_dish_count : nat;
    cm_created_at : N; cm_first_scan_id : option string }.

Record MenuScanRow :=
  { ms_id : string; ms_user_id : string; ms_menu_raw_text : jsstring;
    ms_scanned_at : N; ms_restaurant_name : jsstring; ms_location : jsstring;
    ms_ocr_method : string; ms_image_hash : string;
    ms_canonical_menu_id : string }.

Record MenuDishRow :=
  { md_id : string; md_canonical_menu_id : string; md_dish_name : jsstring;
    md_description : jsstring; md_price : option JsNumber;
    md_category : jsstring; md_tags : option (list jsstring) }.

Record Db :=
  { user_profile : list UserProfileRow;
    canonical_menus : list CanonicalMenuRow;
    menu_scan : list MenuScanRow;
    menu_dishes : list MenuDishRow }.

(** The error object of the client ([error.code], [error.message]). *)
Record PgError := { code : string; message : string }.

(** The awaited value [{ data, error }]. *)
Record Response (A : Type) := { data : option A; error : option PgError }.
Arguments data {A} _.
Arguments error {A} _.

Definition ok_response {A} (a : A) : Response A :=
  {| data := Some a; error := None |}.
Definition error_response {A} (e : PgError) : Response A :=
  {| data := None; error := Some e |}.

(** The answer of the store to an insert that breaks a uniqueness
    constraint. *)
Definition unique_violation : PgError :=
  {| code := "23505";
     message := "duplicate key value violates unique constraint" |}.

(** The answer of [.single()] when the rows are not exactly one; the script
    tests its code only. *)
Definition no_single_row : PgError :=
  {| code := "PGRST116";
     message := "JSON object requested, multiple (or no) rows returned" |}.

(** Columns read by the two duplicate look-ups. *)
Record ScanSummary :=
  { ss_id : string; ss_restaurant_name : jsstring; ss_scanned_at : N }.

Record CanonicalSummary :=
  { cs_id : string; cs_dish_count : nat; cs_created_at : N }.

(** [.order('scanned_at', { ascending: false }).limit(1)]: the row with the
    greatest [scanned_at], the earliest stored one among equals. *)
Fixpoint latest (rows : list MenuScanRow) : option MenuScanRow :=
  match rows with
  | [] => None
  | r :: rest =>
      match latest rest with
      | Some r' => if (ms_scanned_at r <? ms_scanned_at r')%N
                   then Some r' else Some r
      | None => Some r
      end
  end.

Definition scan_matches (userId imageHash : string) (r : MenuScanRow) : bool :=
  String.eqb (ms_user_id r) userId && String.eqb (ms_image_hash r) imageHash.

(** [.select('id, restaurant_name, scanned_at')] *)
Definition scan_summary (r : MenuScanRow) : ScanSummary :=
  {| ss_id := ms_id r;
     ss_restaurant_name := ms_restaurant_name r;
     ss_scanned_at := ms_scanned_at r |}.

Definition select_user_scan (userId imageHash : string) (db : Db)
  : Response (list ScanSummary) * Db :=
  (ok_response
     match latest (filter (scan_matches userId imageHash) (menu_scan db)) with
     | Some r => [scan_summary r]
     | None => []
     end, db).

(** [.select('id, dish_count, created_at')] *)
Definition canonical_summary (r : CanonicalMenuRow) : CanonicalSummary :=
  {| cs_id := cm_id r; cs_dish_count := cm_dish_count r;
     cs_created_at := cm_created_at r |}.

Definition has_content_hash (contentHash : string) (r : CanonicalMenuRow) : bool :=
  String.eqb (cm_content_hash r) contentHash.

Definition select_canonical (contentHash : string) (db : Db)
  : Response (list CanonicalSummary) * Db :=
  (ok_response
     (map canonical_summary
        (firstn 1 (filter (has_content_hash contentHash) (canonical_menus db)))),
   db).

Definition profiles_of (userId : string) (d : Db) : list UserProfileRow :=
  filter (fun r => String.eqb (up_id r) userId) (user_profile d).

(** [.select('id').eq('id', userId).single()] *)
Definition select_user (userId : string) (db : Db) : Response string * Db :=
  (match profiles_of userId db with
   | [r] => ok_response (up_id r)
   | _ => error_response no_single_row
   end, db).

(** Modelled from the spec: the table definitions are not part of the
    sources; the specification names a unique-constraint conflict on the
    profile id and declares [content_hash UNIQUE] on [canonical_menus].
    An insert that would break either is refused with error 23505 and
    leaves the table as it was. *)
Definition insert_user (row : UserProfileRow) (db : Db) : Response string * Db :=
  if existsb (fun r => String.eqb (up_id r) (up_id row)) (user_profile db)
  then (error_response unique_violation, db)
  else (ok_response (up_id row),
        {| user_profile := user_profile db ++ [row];
           canonical_menus := canonical_menus db;
           menu_scan := menu_scan db;
           menu_dishes := menu_dishes db |}).

(** Modelled from the spec: see [insert_user] for the constraint. *)
Definition insert_canonical (row : CanonicalMenuRow) (db : Db)
  : Response string * Db :=
  if existsb (has_content_hash (cm_content_hash row)) (canonical_menus db)
  then (error_response unique_violation, db)
  else (ok_response (cm_id row),
        {| user_profile := user_profile db;
           canonical_menus := canonical_menus db ++ [row];
           menu_scan := menu_scan db;
           menu_dishes := menu_dishes db |}).

Definition insert_scan (row : MenuScanRow) (db : Db) : Response string * Db :=
  (ok_response (ms_id row),
   {| user_profile := user_profile db;
      canonical_menus := canonical_menus db;
      menu_scan := menu_scan db ++ [row];
      menu_dishes := menu_dishes db |}).

(** [.update({ first_scan_id: scanId }).eq('id', canonicalId)] *)
Definition update_first_scan (canonicalId scanId : string) (db : Db)
  : Response unit * Db :=
  ({| data := None; error := None |},
   {| user_profile := user_profile db;
      canonical_menus :=
        map (fun r => if String.eqb (cm_id r) canonicalId
                      then {| cm_id := cm_id r;
                              cm_content_hash := cm_content_hash r;
                              cm_dish_count := cm_dish_count r;
                              cm_created_at := cm_created_at r;
                              cm_first_scan_id := Some scanId |}
                      else r)
          (canonical_menus db);
      menu_scan := menu_scan db;
      menu_dishes := menu_dishes db |}).

Definition insert_dishes (rows : list MenuDishRow) (db : Db)
  : Response (list string) * Db :=
  (ok_response (map md_id rows),
   {| user_profile := user_profile db;
      canonical_menus := canonical_menus db;
      menu_scan := menu_scan db;
      menu_dishes := menu_dishes db ++ rows |}).

(** Requests sent to the store, in the order of sending. *)
Inductive Call :=
| SelectUserScan (userId imageHash : string)
| SelectCanonical (contentHash : string)
| SelectUser (userId : string)
| InsertUser (userId : string)
| InsertCanonical (contentHash : string)
| InsertScan (scanId canonicalId : string)
| UpdateFirstScan (canonicalId scanId : string)
| InsertDishes (batch : nat) (rows : nat).

Definition is_write (c : Call) : bool :=
  match c with
  | SelectUserScan _ _ | SelectCanonical _ | SelectUser _ => false
  | _ => true
  end.

Definition is_dish_insert (c : Call) : bool :=
  match c with InsertDishes _ _ => true | _ => false end.

(** What can go wrong with a request independently of the stored data:
    the client reports an error, or the awaited promise rejects. *)
Inductive Fault :=
| Reports (e : PgError)
| Rejects (message : string).

Record World := { db : Db; calls : list Call }.

End Store.
Import Store.

(** ** The persistence step *)

Module Persist.

Import Ocr.

(** Computations of the script: they read and change the store, and either
    return or throw.  The store survives a throw. *)
Definition M (A : Type) := World -> (JsError + A) * World.

Definition ret {A} (a : A) : M A := fun w => (inr a, w).

Definition throw {A} (msg : string) : M A :=
  fun w => (inl {| error_message := msg |}, w).

Definition bind {A B} (c : M A) (k : A -> M B) : M B :=
  fun w =>
    match c w with
    | (inl e, w') => (inl e, w')
    | (inr a, w') => k a w'
    end.

(** [try { c } catch (error) { handler(error) }] *)
Definition try_catch {A} (c : M A) (handler : JsError -> M A) : M A :=
  fun w =>
    match c w with
    | (inl e, w') => handler e w'
    | (inr a, w') => (inr a, w')
    end.

Definition rethrow {A} (e : JsError) : M A := fun w => (inl e, w).

Notation "x <- c ;; k" := (bind c (fun x => k))
  (at level 61, c at next level, right associativity).

(** One awaited request: it is recorded, then either the injected fault
    decides the answer or the store executes it. *)
Definition request {A} (c : Call) (fault : option Fault)
    (exec : Db -> Response A * Db) : M (Response A) :=
  fun w =>
    let sent := calls w ++ [c] in
    match fault with
    | Some (Rejects msg) =>
        (inl {| error_message := msg |}, {| db := db w; calls := sent |})
    | Some (Reports e) =>
        (inr (error_response e), {| db := db w; calls := sent |})
    | None =>
        let (r, db') := exec (db w) in
        (inr r, {| db := db'; calls := sent |})
    end.

(** The world [w] with the store replaced by [db'] and the requests [sent]
    added. *)
Definition after (w : World) (db' : Db) (sent : list Call) : World :=
  {| db := db'; calls := calls w ++ sent |}.

(** Everything one call of the script takes from outside: the fate of each
    request, the identifiers drawn, and the clock readings. *)
Record Env :=
  { on_userScanSelect : option Fault;
    on_userSelect : option Fault;
    on_userInsert : option Fault;
    on_canonicalSelect : option Fault;
    on_canonicalInsert : option Fault;
    on_scanInsert : option Fault;
    on_firstScanUpdate : option Fault;
    on_dishInsert : nat -> option Fault;
    uuidv4 : string;
    canonical_uuid : string;
    dish_uuid : nat -> string;
    now_user : N;
    now_canonical : N;
    now_scan : N }.

(** The structured menu as [saveToSupabase] reads it. *)
Record Dish :=
  { dish_name : jsstring;
    dish_description : option jsstring;
    dish_price : option JsNumber;
    dish_dietary_tags : option (list jsstring) }.

Record Category := { cat_name : jsstring; cat_dishes : option (list Dish) }.

Record Restaurant := { rest_name : jsstring; rest_location : jsstring }.

Record StructuredMenu :=
  { restaurant : Restaurant; categories : list Category }.

Record StructuredResult :=
  { sr_text : jsstring;
    sr_model : Model;
    sr_imageHash : string;
    sr_contentHash : string;
    sr_structuredData : StructuredMenu }.

(** The object returned by [saveToSupabase]; a field that the returned
    literal does not have is [None]. *)
Record SaveResult :=
  { scanId : string;
    method : string;
    existingScan : option bool;
    canonicalId : option string;
    existingCanonicalMenuFirstScanId : option string;
    dishCount : option nat;
    newDishes : option bool }.

(** JavaScript truthiness of a string. *)
Definition truthy (s : string) : bool := negb (String.eqb s "").

Section WithEnv.

Variable env : Env.

Definition checkForExistingUserScan (userId imageHash : string)
  : M (option ScanSummary) :=
  if negb (truthy imageHash) then ret None
  else
    try_catch
      (r <- request (SelectUserScan userId imageHash)
              (on_userScanSelect env) (select_user_scan userId imageHash) ;;
       match error r with
       | Some _ => ret None
       | None =>
           ret match data r with
               | Some (row :: _) => Some row
               | _ => None
               end
       end)
      (fun _ => ret None).

Definition checkForExistingCanonicalMenu (contentHash : string)
  : M (option CanonicalSummary) :=
  if negb (truthy contentHash) then ret None
  else
    try_catch
      (r <- request (SelectCanonical contentHash)
              (on_canonicalSelect env) (select_canonical contentHash) ;;
       match error r with
       | Some e =>
           if String.eqb (code e) "PGRST204" then ret None else ret None
       | None =>
           ret match data r with
               | Some (row :: _) => Some row
               | _ => None
               end
       end)
      (fun _ => ret None).

(** First half of [ensureUserExists]: the look-up and its check. *)
Definition ensureUserExists_check (userId : string) : M (option string) :=
  r <- request (SelectUser userId) (on_userSelect env) (select_user userId) ;;
  match error r with
  | Some e =>
      if negb (String.eqb (code e) "PGRST116")
      then throw ("User check failed: " ++ message e)
      else ret (data r)
  | None => ret (data r)
  end.

(** Second half: create the profile when the look-up found none. *)
Definition ensureUserExists_create (userId : string)
    (userExists : option string) : M bool :=
  match userExists with
  | None =>
      r <- request (InsertUser userId) (on_userInsert env)
             (insert_user {| up_id := userId;
                             up_email := "test@example.com";
                             up_created_at := now_user env |}) ;;
      match error r with
      | Some e => throw ("User creation failed: " ++ message e)
      | None => ret true
      end
  | Some _ => ret true
  end.

Definition ensureUserExists (userId : string) : M bool :=
  try_catch
    (userExists <- ensureUserExists_check userId ;;
     ensureUserExists_create userId userExists)
    rethrow.

Definition BATCH_SIZE : nat := 10.

(** [allDishes.slice(i, i + BATCH_SIZE)] *)
Definition slice {A} (i j : nat) (l : list A) : list A :=
  firstn (j - i) (skipn i l).

Definition dish_row (canonicalId : string) (index : nat)
    (d : Dish * jsstring) : MenuDishRow :=
  {| md_id := dish_uuid env index;
     md_canonical_menu_id := canonicalId;
     md_dish_name := dish_name (fst d);
     md_description :=
       match dish_description (fst d) with
       | Some (c :: r) => c :: r
       | _ => []
       end;
     md_price := dish_price (fst d);
     md_category := snd d;
     md_tags :=
       match dish_dietary_tags (fst d) with
       | Some (t :: ts) => Some (t :: ts)
       | _ => None
       end |}.

Fixpoint number_from {A} (i : nat) (l : list A) : list (nat * A) :=
  match l with
  | [] => []
  | a :: r => (i, a) :: number_from (S i) r
  end.

(** The batch loop, [i] being its counter and [acc] the pair
    [(insertedDishCount, dishErrors)].  [fuel] bounds the number of
    iterations; [length allDishes] is always enough. *)
Fixpoint insertBatches (canonicalId : string) (allDishes : list (Dish * jsstring))
    (fuel i : nat) (acc : nat * list PgError) : M (nat * list PgError) :=
  if (i <? List.length allDishes)%nat then
    match fuel with
    | O => ret acc
    | S fuel' =>
        let batch :=
          map (fun d => dish_row canonicalId (fst d) (snd d))
            (number_from i (slice i (i + BATCH_SIZE) allDishes)) in
        r <- request (InsertDishes (i / BATCH_SIZE) (List.length batch))
               (on_dishInsert env (i / BATCH_SIZE)) (insert_dishes batch) ;;
        match error r, data r with
        | Some dishError, _ =>
            insertBatches canonicalId allDishes fuel' (i + BATCH_SIZE)
              (fst acc, snd acc ++ [dishError])
        | None, Some dishData =>
            insertBatches canonicalId allDishes fuel' (i + BATCH_SIZE)
              (fst acc + List.length dishData, snd acc)
        | None, None =>
            throw "Cannot read properties of null (reading 'length')"
        end
    end
  else ret acc.

(** [structuredData.categories.reduce(...)] *)
Definition countDishes (menu : StructuredMenu) : nat :=
  fold_left
    (fun sum category =>
       sum + match cat_dishes category with
             | Some dishes => List.length dishes
             | None => 0
             end)
    (categories menu) 0.

(** The nested [forEach] that fills [allDishes]. *)
Definition collectDishes (menu : StructuredMenu) : list (Dish * jsstring) :=
  flat_map
    (fun category =>
       match cat_dishes category with
       | Some dishes => map (fun dish => (dish, cat_name category)) dishes
       | None => []
       end)
    (categories menu).

Definition scan_row (structuredResult : StructuredResult)
    (userId scanId_ canonicalId_ : string) : MenuScanRow :=
  {| ms_id := scanId_;
     ms_user_id := userId;
     ms_menu_raw_text := sr_text structuredResult;
     ms_scanned_at := now_scan env;
     ms_restaurant_name :=
       rest_name (restaurant (sr_structuredData structuredResult));
     ms_location :=
       rest_location (restaurant (sr_structuredData structuredResult));
     ms_ocr_method := model_id (sr_model structuredResult);
     ms_image_hash := sr_imageHash structuredResult;
     ms_canonical_menu_id := canonicalId_ |}.

Definition saveToSupabase (structuredResult : StructuredResult)
    (userId : string) : M SaveResult :=
  let imageHash := sr_imageHash structuredResult in
  let contentHash := sr_contentHash structuredResult in
  let structuredData := sr_structuredData structuredResult in
  existing <- checkForExistingUserScan userId imageHash ;;
  match existing with
  | Some existingScan_ =>
      ret {| scanId := ss_id existingScan_;
             method := "duplicate_image_hash";
             existingScan := Some true;
             canonicalId := None;
             existingCanonicalMenuFirstScanId := None;
             dishCount := None;
             newDishes := None |}
  | None =>
      _ <- ensureUserExists userId ;;
      existingCanonicalMenu <- checkForExistingCanonicalMenu contentHash ;;
      let scanId_ := uuidv4 env in
      try_catch
        match existingCanonicalMenu with
        | Some ecm =>
            (* Scenario A: the canonical menu already exists *)
            r <- request (InsertScan scanId_ (cs_id ecm)) (on_scanInsert env)
                   (insert_scan
                      (scan_row structuredResult userId scanId_ (cs_id ecm))) ;;
            match error r with
            | Some scanError =>
                throw ("Scan insert failed: " ++ message scanError)
            | None =>
                ret {| scanId := scanId_;
                       method := "canonical_menu_reuse";
                       existingScan := None;
                       canonicalId := Some (cs_id ecm);
                       existingCanonicalMenuFirstScanId := None;
                       dishCount := Some (cs_dish_count ecm);
                       newDishes := Some false |}
            end
        | None =>
            (* Scenario B: create everything *)
            let dishCount_ := countDishes structuredData in
            rc <- request (InsertCanonical contentHash)
                    (on_canonicalInsert env)
                    (insert_canonical
                       {| cm_id := canonical_uuid env;
                          cm_content_hash := contentHash;
                          cm_dish_count := dishCount_;
                          cm_created_at := now_canonical env;
                          cm_first_scan_id := None |}) ;;
            match error rc, data rc with
            | Some canonicalError, _ =>
                throw ("Canonical menu insert failed: "
                       ++ message canonicalError)
            | None, None =>
                throw "Cannot read properties of null (reading 'id')"
            | None, Some canonicalId_ =>
                rs <- request (InsertScan scanId_ canonicalId_)
                        (on_scanInsert env)
                        (insert_scan
                           (scan_row structuredResult userId scanId_
                              canonicalId_)) ;;
                match error rs with
                | Some scanError =>
                    throw ("Scan insert failed: " ++ message scanError)
                | None =>
                    (* the answer to the update is only logged *)
                    _ <- request (UpdateFirstScan canonicalId_ scanId_)
                           (on_firstScanUpdate env)
                           (update_first_scan canonicalId_ scanId_) ;;
                    let allDishes := collectDishes structuredData in
                    acc <- insertBatches canonicalId_ allDishes
                             (List.length allDishes) 0 (0, []) ;;
                    ret {| scanId := scanId_;
                           method := "new_canonical_menu";
                           existingScan := None;
                           canonicalId := Some canonicalId_;
                           existingCanonicalMenuFirstScanId := None;
                           dishCount := Some (fst acc);
                           newDishes := Some true |}
                end
            end
        end
        rethrow
  end.

End WithEnv.

(** Number of iterations of the batch loop over [total] dishes, the size of
    batch [b], the dish inserts that the loop sends, and the rows that the
    store takes when the fate of batch [b] is [on_dishInsert env b]. *)
Definition batch_count (total : nat) : nat :=
  (total + (BATCH_SIZE - 1)) / BATCH_SIZE.

Definition batch_rows (total b : nat) : nat :=
  Nat.min BATCH_SIZE (total - b * BATCH_SIZE).

Definition batch_calls_from (total b n : nat) : list Call :=
  map (fun k => InsertDishes k (batch_rows total k)) (seq b n).

Definition committed_from (env : Env) (total b n : nat) : nat :=
  list_sum
    (map (fun k => match on_dishInsert env k with
                   | None => batch_rows total k
                   | Some _ => 0
                   end)
       (seq b n)).

Definition batch_calls (total : nat) : list Call :=
  batch_calls_from total 0 (batch_count total).

Definition committed_rows (env : Env) (total : nat) : nat :=
  committed_from env total 0 (batch_count total).

Arguments batch_count : simpl never.
Arguments batch_rows : simpl never.
Arguments batch_calls_from : simpl never.
Arguments committed_from : simpl never.
Arguments batch_calls : simpl never.
Arguments committed_rows : simpl never.

(** *** Two callers of [ensureUserExists] on one store

    Each [await] is a point where the other caller may run, so a call is
    two atomic steps: the look-up with its check, and the creation. *)

Inductive Caller := CallerA | CallerB.

Inductive Progress :=
| NotStarted
| Checked (userExists : option string)
| Finished (outcome : JsError + bool).

Definition step (env : Env) (userId : string) (p : Progress)
  : World -> Progress * World :=
  fun w =>
    match p with
    | NotStarted =>
        match ensureUserExists_check env userId w with
        | (inl e, w') => (Finished (inl e), w')
        | (inr userExists, w') => (Checked userExists, w')
        end
    | Checked userExists =>
        let (outcome, w') := ensureUserExists_create env userId userExists w in
        (Finished outcome, w')
    | Finished _ => (p, w)
    end.

Fixpoint run_schedule (envA envB : Env) (userId : string)
    (schedule : list Caller) (a b : Progress) (w : World)
  : Progress * Progress * World :=
  match schedule with
  | [] => (a, b, w)
  | CallerA :: rest =>
      let (a', w') := step envA userId a w in
      run_schedule envA envB userId rest a' b w'
  | CallerB :: rest =>
      let (b', w') := step envB userId b w in
      run_schedule envA envB userId rest a b' w'
  end.

Definition is_A (c : Caller) : bool :=
  match c with CallerA => true | CallerB => false end.

(** A schedule in which each caller takes both of its steps. *)
Definition complete (schedule : list Caller) : bool :=
  ((List.length (filter is_A schedule) =? 2)
   && (List.length (filter (fun c => negb (is_A c)) schedule) =? 2))%nat.

End Persist.

(** ** SHA-256

    The digest that [crypto.createHash('sha256')] computes, as FIPS 180-4
    defines it, on a message given as a list of bytes. *)

Module Sha256.

Local Open Scope N_scope.

Definition mask32 : N := 4294967295.

Definition add32 (a b : N) : N := N.land (a + b) mask32.

Definition rotr (n x : N) : N :=
  N.lor (N.shiftr x n) (N.land (N.shiftl x (32 - n)) mask32).

Definition not32 (x : N) : N := N.lxor x mask32.

Definition Ch (x y z : N) : N :=
  N.lxor (N.land x y) (N.land (not32 x) z).

Definition Maj (x y z : N) : N :=
  N.lxor (N.lxor (N.land x y) (N.land x z)) (N.land y z).

Definition Sigma0 (x : N) : N :=
  N.lxor (N.lxor (rotr 2 x) (rotr 13 x)) (rotr 22 x).

Definition Sigma1 (x : N) : N :=
  N.lxor (N.lxor (rotr 6 x) (rotr 11 x)) (rotr 25 x).

Definition sigma0 (x : N) : N :=
  N.lxor (N.lxor (rotr 7 x) (rotr 18 x)) (N.shiftr x 3).

Definition sigma1 (x : N) : N :=
  N.lxor (N.lxor (rotr 17 x) (rotr 19 x)) (N.shiftr x 10).

(** The round constants and the initial hash value are defined as the
    standard defines them: the first 32 bits of the fractional parts of the
    cube roots of the first 64 primes, and of the square roots of the
    first 8 primes. *)
Fixpoint iroot (e : N) (bits : nat) (n acc : N) : N :=
  match bits with
  | O => acc
  | S b =>
      let candidate := acc + N.shiftl 1 (N.of_nat b) in
      iroot e b n (if candidate ^ e <=? n then candidate else acc)
  end.

Definition is_prime (p : nat) : bool :=
  forallb (fun d => negb (Nat.eqb (Nat.modulo p d) 0)) (seq 2 (p - 2)).

Definition primes : list N :=
  Eval vm_compute in map N.of_nat (filter is_prime (seq 2 310)).

Definition fraction_bits (e : N) (p : N) : N :=
  N.land (iroot e 36 (N.shiftl p (32 * e)) 0) mask32.

Definition K : list N :=
  Eval vm_compute in map (fraction_bits 3) (firstn 64 primes).

(** Big-endian bytes of [x], [n] of them. *)
Fixpoint be_bytes (n : nat) (x : N) : list N :=
  match n with
  | O => []
  | S n' => N.land (N.shiftr x (8 * N.of_nat n')) 255 :: be_bytes n' x
  end.

Definition pad (msg : list N) : list N :=
  let len := N.of_nat (List.length msg) in
  let zeros := N.to_nat ((119 - (len mod 64)) mod 64) in
  msg ++ [128] ++ repeat 0 zeros ++ be_bytes 8 (8 * len).

(** The bytes read as big-endian 32-bit words. *)
Fixpoint words32 (fuel : nat) (bytes : list N) : list N :=
  match fuel, bytes with
  | S fuel', a :: b :: c :: d :: rest =>
      (N.shiftl a 24 + N.shiftl b 16 + N.shiftl c 8 + d) :: words32 fuel' rest
  | _, _ => []
  end.

(** The message schedule, most recent word first. *)
Fixpoint extend (n : nat) (w : list N) : list N :=
  match n with
  | O => w
  | S n' =>
      let x := add32 (add32 (sigma1 (nth 1 w 0)) (nth 6 w 0))
                 (add32 (sigma0 (nth 14 w 0)) (nth 15 w 0)) in
      extend n' (x :: w)
  end.

Definition schedule (block : list N) : list N :=
  rev (extend 48 (rev block)).

Record Regs := { ra : N; rb : N; rc : N; rd : N; re : N; rf : N; rg : N; rh : N }.

Definition H0 : Regs :=
  Eval vm_compute in
    let h := fun i => fraction_bits 2 (nth i primes 0) in
    {| ra := h 0%nat; rb := h 1%nat; rc := h 2%nat; rd := h 3%nat;
       re := h 4%nat; rf := h 5%nat; rg := h 6%nat; rh := h 7%nat |}.

Definition round (s : Regs) (kw : N * N) : Regs :=
  let t1 := add32 (add32 (add32 (rh s) (Sigma1 (re s)))
                     (add32 (Ch (re s) (rf s) (rg s)) (fst kw))) (snd kw) in
  let t2 := add32 (Sigma0 (ra s)) (Maj (ra s) (rb s) (rc s)) in
  {| ra := add32 t1 t2; rb := ra s; rc := rb s; rd := rc s;
     re := add32 (rd s) t1; rf := re s; rg := rf s; rh := rg s |}.

Definition compress (h : Regs) (block : list N) : Regs :=
  let s := fold_left round (combine K (schedule block)) h in
  {| ra := add32 (ra h) (ra s); rb := add32 (rb h) (rb s);
     rc := add32 (rc h) (rc s); rd := add32 (rd h) (rd s);
     re := add32 (re h) (re s); rf := add32 (rf h) (rf s);
     rg := add32 (rg h) (rg s); rh := add32 (rh h) (rh s) |}.

Fixpoint blocks (fuel : nat) (ws : list N) : list (list N) :=
  match fuel, ws with
  | S fuel', _ :: _ => firstn 16 ws :: blocks fuel' (skipn 16 ws)
  | _, _ => []
  end.

Definition digest (msg : list N) : Regs :=
  let bytes := pad msg in
  let ws := words32 (List.length bytes) bytes in
  fold_left compress (blocks (List.length ws) ws) H0.

Definition hex_digit (n : N) : ascii :=
  ascii_of_N (if n <? 10 then 48 + n else 87 + n).

Fixpoint hex_of (digits : nat) (x : N) : string :=
  match digits with
  | O => EmptyString
  | S d => String (hex_digit (N.land (N.shiftr x (4 * N.of_nat d)) 15)) (hex_of d x)
  end.

(** [crypto.createHash('sha256').update(buffer).digest('hex')] *)
Definition sha256_hex (msg : list N) : string :=
  let r := digest msg in
  (hex_of 8 (ra r) ++ hex_of 8 (rb r) ++ hex_of 8 (rc r) ++ hex_of 8 (rd r)
   ++ hex_of 8 (re r) ++ hex_of 8 (rf r) ++ hex_of 8 (rg r) ++ hex_of 8 (rh r))%string.

End Sha256.


(** ** JSON values and the content hash *)

Module ContentHash.

Import Persist.

(** A value as [JSON.parse] builds it.  The members of an object are listed
    in the enumeration order of its keys. *)
#[local] Unset Elimination Schemes.
Inductive json :=
| JNull
| JBool (b : bool)
| JNumber (n : JsNumber)
| JString (s : jsstring)
| JArray (items : list json)
| JObject (members : list (jsstring * json)).
#[local] Set Elimination Schemes.

(** Induction on a JSON value with the hypothesis for every element of an
    array and every member of an object. *)
Section JsonInduction.

Variable P : json -> Prop.
Hypothesis P_null : P JNull.
Hypothesis P_bool : forall b, P (JBool b).
Hypothesis P_number : forall n, P (JNumber n).
Hypothesis P_string : forall s, P (JString s).
Hypothesis P_array : forall items, Forall P items -> P (JArray items).
Hypothesis P_object :
  forall members, Forall (fun kv => P (snd kv)) members -> P (JObject members).

Fixpoint json_induction (v : json) : P v :=
  match v with
  | JNull => P_null
  | JBool b => P_bool b
  | JNumber n => P_number n
  | JString s => P_string s
  | JArray items =>
      P_array items
        ((fix all (l : list json) : Forall P l :=
            match l with
            | [] => Forall_nil P
            | x :: r => Forall_cons x (json_induction x) (all r)
            end) items)
  | JObject members =>
      P_object members
        ((fix all (l : list (jsstring * json))
            : Forall (fun kv => P (snd kv)) l :=
            match l with
            | [] => Forall_nil _
            | (k, x) :: r =>
                Forall_cons (P := fun kv => P (snd kv)) (k, x)
                  (json_induction x) (all r)
            end) members)
  end.

End JsonInduction.

(** Keys of an object are pairwise distinct. *)
Fixpoint distinct (keys : list jsstring) : bool :=
  match keys with
  | [] => true
  | k :: rest => negb (existsb (JsStr.eqb k) rest) && distinct rest
  end.

Fixpoint wf (v : json) : bool :=
  match v with
  | JArray items => forallb wf items
  | JObject members =>
      distinct (map fst members) && forallb (fun kv => wf (snd kv)) members
  | _ => true
  end.

(** The string branch of [normalizeTextValues] for the member [key]. *)
Definition normalizeString (key s : jsstring) : jsstring :=
  if JsStr.eqb key (js "name") || JsStr.eqb key (js "category") then trim s
  else if JsStr.eqb key (js "description") then collapse (trim s)
  else s.

(** [normalizeTextValues], returning the value that the script leaves in
    place.  An element of an array is visited with its index as key, which
    is none of the three names, so a string there is left as it is. *)
Fixpoint normalizeTextValues (obj : json) : json :=
  match obj with
  | JObject members =>
      JObject
        (map (fun kv : jsstring * json =>
                let (key, value) := kv in
                (key,
                 match value with
                 | JString text => JString (normalizeString key text)
                 | _ => normalizeTextValues value
                 end))
           members)
  | JArray items => JArray (map normalizeTextValues items)
  | _ => obj
  end.

Definition is_high_surrogate (c : N) : bool := ((55296 <=? c) && (c <=? 56319))%N.
Definition is_low_surrogate (c : N) : bool := ((56320 <=? c) && (c <=? 57343))%N.

Definition hex4 (c : N) : jsstring := js (Sha256.hex_of 4 c).

(** The escape of one code unit that is not part of a surrogate pair. *)
Definition escape (c : N) : jsstring :=
  let backslash := 92%N in
  if (c =? 34)%N then [backslash; 34%N]
  else if (c =? 92)%N then [backslash; backslash]
  else if (c =? 8)%N then backslash :: js "b"
  else if (c =? 12)%N then backslash :: js "f"
  else if (c =? 10)%N then backslash :: js "n"
  else if (c =? 13)%N then backslash :: js "r"
  else if (c =? 9)%N then backslash :: js "t"
  else if (c <? 32)%N || is_high_surrogate c || is_low_surrogate c
       then backslash :: js "u" ++ hex4 c
  else [c].

Fixpoint quote_body (s : jsstring) : jsstring :=
  match s with
  | [] => []
  | c :: r =>
      if is_high_surrogate c then
        match r with
        | d :: r' =>
            if is_low_surrogate d then c :: d :: quote_body r'
            else escape c ++ quote_body r
        | [] => escape c
        end
      else escape c ++ quote_body r
  end.

(** [JSON.stringify] of a string. *)
Definition quote (s : jsstring) : jsstring := [34%N] ++ quote_body s ++ [34%N].

Fixpoint join (sep : jsstring) (parts : list jsstring) : jsstring :=
  match parts with
  | [] => []
  | [p] => p
  | p :: rest => p ++ sep ++ join sep rest
  end.

(** Insertion of a rendered member into a list sorted by key. *)
Fixpoint insert (m : jsstring * jsstring) (l : list (jsstring * jsstring))
  : list (jsstring * jsstring) :=
  match l with
  | [] => [m]
  | e :: rest =>
      if JsStr.ltb (fst e) (fst m) then e :: insert m rest else m :: e :: rest
  end.

(** [Object.keys(node).sort()] carried out on the members. *)
Definition sortMembers (l : list (jsstring * jsstring))
  : list (jsstring * jsstring) :=
  fold_right insert [] l.

(** Modelled from the spec: [stableStringify] is the package
    [fast-json-stable-stringify], which is not part of the sources; the
    specification asks for a serialization that canonicalizes key order
    and leaves array order alone.  The model is the package's documented
    behaviour on a JSON value: numbers by [String(x)], other scalars by
    [JSON.stringify], arrays in index order, objects with their keys
    sorted by [Array.prototype.sort].  The package renders [node[key]]
    after sorting the keys; rendering has no effect, so the members are
    rendered first and the rendered members are sorted.  A JSON value
    never renders to [undefined], so no member is skipped and no element
    becomes [null]. *)
Fixpoint stableStringify (node : json) : jsstring :=
  match node with
  | JNull => js "null"
  | JBool b => js (if b then "true" else "false")
  | JNumber n => n
  | JString s => quote s
  | JArray items =>
      js "[" ++ join (js ",") (map stableStringify items) ++ js "]"
  | JObject members =>
      js "{"
      ++ join (js ",")
           (map (fun kv => quote (fst kv) ++ js ":" ++ snd kv)
              (sortMembers
                 (map (fun kv : jsstring * json =>
                         let (key, value) := kv in
                         (key, stableStringify value))
                    members)))
      ++ js "}"
  end.

(** One member after [normalizeTextValues] and rendering. *)
Definition rendered (kv : jsstring * json) : jsstring * jsstring :=
  (fst kv,
   stableStringify
     match snd kv with
     | JString text => JString (normalizeString (fst kv) text)
     | _ => normalizeTextValues (snd kv)
     end).

(** [Buffer.from(s, 'utf8')] *)
Fixpoint utf8 (s : jsstring) : list N :=
  match s with
  | [] => []
  | c :: r =>
      if (c <? 128)%N then c :: utf8 r
      else if (c <? 2048)%N then
        N.lor 192 (N.shiftr c 6) :: N.lor 128 (N.land c 63) :: utf8 r
      else if is_high_surrogate c then
        match r with
        | d :: r' =>
            if is_low_surrogate d then
              let cp := (65536 + N.shiftl (c - 55296) 10 + (d - 56320))%N in
              N.lor 240 (N.shiftr cp 18)
              :: N.lor 128 (N.land (N.shiftr cp 12) 63)
              :: N.lor 128 (N.land (N.shiftr cp 6) 63)
              :: N.lor 128 (N.land cp 63) :: utf8 r'
            else 239%N :: 191%N :: 189%N :: utf8 r
        | [] => [239%N; 191%N; 189%N]
        end
      else if is_low_surrogate c then 239%N :: 191%N :: 189%N :: utf8 r
      else
        N.lor 224 (N.shiftr c 12)
        :: N.lor 128 (N.land (N.shiftr c 6) 63)
        :: N.lor 128 (N.land c 63) :: utf8 r
  end.

Definition calculateSHA256 (buffer : list N) : string :=
  Sha256.sha256_hex buffer.

(** The string that is hashed. *)
Definition stableString (structuredData : json) : jsstring :=
  stableStringify (normalizeTextValues structuredData).

(** [JSON.parse(JSON.stringify(structuredData))] is [structuredData] for a
    JSON value; the file written for debugging does not enter the result. *)
Definition calculateContentHash (structuredData : json) : string :=
  calculateSHA256 (utf8 (stableString structuredData)).

(** The JSON value of a structured menu, keys in the order of the schema
    given to the structuring model; an absent field has no member. *)
Definition optional (key : string) (v : option json) : list (jsstring * json) :=
  match v with
  | Some x => [(js key, x)]
  | None => []
  end.

Definition dish_json (d : Dish) : json :=
  JObject
    ([(js "name", JString (dish_name d))]
     ++ optional "description" (option_map JString (dish_description d))
     ++ [(js "price",
          match dish_price d with Some p => JNumber p | None => JNull end)]
     ++ optional "dietary_tags"
          (option_map (fun tags => JArray (map JString tags))
             (dish_dietary_tags d))).

Definition category_json (c : Category) : json :=
  JObject
    ([(js "name", JString (cat_name c))]
     ++ optional "dishes"
          (option_map (fun ds => JArray (map dish_json ds)) (cat_dishes c))).

Definition menu_json (m : StructuredMenu) : json :=
  JObject
    [ (js "restaurant",
       JObject [ (js "name", JString (rest_name (restaurant m)));
                 (js "location", JString (rest_location (restaurant m))) ]);
      (js "categories", JArray (map category_json (categories m))) ].

(** *** Menus that the specification regards as the same

    These relations follow the wording of the specification, not the code:
    equality up to the order of the members of objects, up to whitespace
    around names and categories, and up to the whitespace of descriptions
    (around them, and between their words). *)

(** The text [core] with any whitespace before and after it. *)
Inductive same_but_padding : jsstring -> jsstring -> Prop :=
| padded core l1 r1 l2 r2 :
    forallb is_space l1 = true -> forallb is_space r1 = true ->
    forallb is_space l2 = true -> forallb is_space r2 = true ->
    same_but_padding (l1 ++ core ++ r1) (l2 ++ core ++ r2).

(** The maximal runs of code units that are not whitespace. *)
Fixpoint words (s : jsstring) : list jsstring :=
  match s with
  | [] => []
  | c :: r =>
      if is_space c then words r
      else
        match r with
        | [] => [[c]]
        | d :: _ =>
            if is_space d then [c] :: words r
            else
              match words r with
              | w :: ws => (c :: w) :: ws
              | [] => [[c]]
              end
        end
  end.

Inductive same_text (key : jsstring) : jsstring -> jsstring -> Prop :=
| text_equal s : same_text key s s
| text_name a b :
    key = js "name" \/ key = js "category" ->
    same_but_padding a b -> same_text key a b
| text_description a b :
    key = js "description" -> words a = words b -> same_text key a b.

#[local] Unset Elimination Schemes.
Inductive similar : json -> json -> Prop :=
| similar_null : similar JNull JNull
| similar_bool b : similar (JBool b) (JBool b)
| similar_number n : similar (JNumber n) (JNumber n)
| similar_string s : similar (JString s) (JString s)
| similar_array xs ys :
    Forall2 similar xs ys -> similar (JArray xs) (JArray ys)
| similar_object ms ns ns' :
    Permutation ns' ns ->
    Forall2
      (fun m n =>
         fst m = fst n
         /\ (similar (snd m) (snd n)
             \/ exists a b, snd m = JString a /\ snd n = JString b
                            /\ same_text (fst m) a b))
      ms ns' ->
    similar (JObject ms) (JObject ns).
#[local] Set Elimination Schemes.

(** Two typed menus that differ in the order of dishes inside categories
    only. *)
Definition same_dishes_reordered (m1 m2 : StructuredMenu) : Prop :=
  restaurant m1 = restaurant m2
  /\ Forall2
       (fun c1 c2 =>
          cat_name c1 = cat_name c2
          /\ match cat_dishes c1, cat_dishes c2 with
             | Some d1, Some d2 => Permutation d1 d2
             | None, None => True
             | _, _ => False
             end)
       (categories m1) (categories m2).

(** Two typed menus that differ in the order of their categories only. *)
Definition same_categories_reordered (m1 m2 : StructuredMenu) : Prop :=
  restaurant m1 = restaurant m2
  /\ Permutation (categories m1) (categories m2).

End ContentHash.

(** ** Concrete runs used as examples *)

Module Scenarios.

Import Ocr Persist ContentHash.

Definition c1_world (i : nat) : Attempt :=
  match i with
  | 0 => Aborted
  | 1 => NotOk 429 (js "rate limited")
  | 2 => OkResponse (CString (js "   MENU   ")) "0.81" "t2" true
  | _ => OkResponse (CString (js "STARTERS Soup 5.00 Bread 3.50"))
           "1.20" "t3" true
  end.

Definition transient : PgError :=
  {| code := "57014"; message := "canceling statement due to statement timeout" |}.

(** An environment with the given fate for each request. *)
Definition env_with (userScan userSel userIns canSel canIns scanIns upd : option Fault)
    (dish : nat -> option Fault) : Env :=
  {| on_userScanSelect := userScan;
     on_userSelect := userSel;
     on_userInsert := userIns;
     on_canonicalSelect := canSel;
     on_canonicalInsert := canIns;
     on_scanInsert := scanIns;
     on_firstScanUpdate := upd;
     on_dishInsert := dish;
     uuidv4 := "scan-2";
     canonical_uuid := "menu-2";
     dish_uuid := fun i => String (ascii_of_nat (48 + i)) "";
     now_user := 2000;
     now_canonical := 2001;
     now_scan := 2002 |}.

(** No request fails. *)
Definition quiet : Env :=
  env_with None None None None None None None (fun _ => None).

Definition a_dish : Dish :=
  {| dish_name := js "Soup";
     dish_description := Some (js "of the day");
     dish_price := Some (js "9.5");
     dish_dietary_tags := None |}.

(** Twenty-five dishes in three categories: three batches. *)
Definition menu25 : StructuredMenu :=
  {| restaurant := {| rest_name := js "Soho House Toronto";
                      rest_location := js "Toronto, Canada" |};
     categories :=
       [ {| cat_name := js "STARTERS"; cat_dishes := Some (repeat a_dish 10) |};
         {| cat_name := js "MAINS"; cat_dishes := Some (repeat a_dish 10) |};
         {| cat_name := js "DESSERTS"; cat_dishes := Some (repeat a_dish 5) |} ] |}.

Definition scanned : StructuredResult :=
  {| sr_text := js "STARTERS Soup 9.5";
     sr_model := {| model_id := "openai/gpt-4o-mini"; model_name := "GPT-4o Mini" |};
     sr_imageHash := "img-x";
     sr_contentHash := "hash-x";
     sr_structuredData := menu25 |}.

Definition empty_db : Db :=
  {| user_profile := []; canonical_menus := []; menu_scan := []; menu_dishes := [] |}.

Definition fresh : World := {| db := empty_db; calls := [] |}.

Definition first_scan : MenuScanRow :=
  {| ms_id := "scan-1"; ms_user_id := "user-a";
     ms_menu_raw_text := js "STARTERS Soup 9.5"; ms_scanned_at := 1000;
     ms_restaurant_name := js "Soho House Toronto";
     ms_location := js "Toronto, Canada";
     ms_ocr_method := "openai/gpt-4o-mini"; ms_image_hash := "img-x";
     ms_canonical_menu_id := "menu-1" |}.

(** The store after user A scanned image X once. *)
Definition after_first_scan : World :=
  {| db := {| user_profile :=
                [ {| up_id := "user-a"; up_email := "test@example.com";
                     up_created_at := 999 |} ];
              canonical_menus :=
                [ {| cm_id := "menu-1"; cm_content_hash := "hash-x";
                     cm_dish_count := 25; cm_created_at := 1000;
                     cm_first_scan_id := Some "scan-1" |} ];
              menu_scan := [first_scan];
              menu_dishes := [] |};
     calls := [] |}.

(** User B scans another photograph of the same menu. *)
Definition scanned_by_b : StructuredResult :=
  {| sr_text := js "STARTERS Soup 9.5";
     sr_model := {| model_id := "openai/gpt-4o-mini"; model_name := "GPT-4o Mini" |};
     sr_imageHash := "img-y";
     sr_contentHash := "hash-x";
     sr_structuredData := menu25 |}.

(** The insert into [canonical_menus] is refused: a concurrent scan of the
    same content created the row after this call had looked it up. *)
Definition lost_race : Env :=
  env_with None None None None (Some (Reports unique_violation)) None None
    (fun _ => None).

(** The look-up by image hash meets a transient error. *)
Definition scan_lookup_down : Env :=
  env_with (Some (Reports transient)) None None None None None None
    (fun _ => None).

(** The look-up by content hash meets a transient error. *)
Definition canonical_lookup_down : Env :=
  env_with None None None (Some (Reports transient)) None None None
    (fun _ => None).

(** The second of three dish batches meets a network error. *)
Definition second_batch_down : Env :=
  env_with None None None None None None None
    (fun b => match b with
              | 1 => Some (Reports {| code := ""; message := "fetch failed" |})
              | _ => None
              end).

Definition soup : Dish :=
  {| dish_name := js "Soup"; dish_description := Some (js "of the day");
     dish_price := Some (js "9.5"); dish_dietary_tags := Some [js "v"] |}.

Definition bread : Dish :=
  {| dish_name := js "Bread"; dish_description := None;
     dish_price := None; dish_dietary_tags := None |}.

Definition cake : Dish :=
  {| dish_name := js "Cake"; dish_description := Some (js "chocolate");
     dish_price := Some (js "7"); dish_dietary_tags := None |}.

Definition menu_of (cats : list Category) : StructuredMenu :=
  {| restaurant := {| rest_name := js "Soho House Toronto";
                      rest_location := js "Toronto, Canada" |};
     categories := cats |}.

Definition starters (dishes : list Dish) : Category :=
  {| cat_name := js "STARTERS"; cat_dishes := Some dishes |}.

Definition desserts : Category :=
  {| cat_name := js "DESSERTS"; cat_dishes := Some [cake] |}.

(** One menu as two structuring passes may return it: members in another
    order, whitespace around names, other whitespace in the description. *)
Definition menu_as_read_first : json :=
  JObject
    [ (js "restaurant",
       JObject [ (js "name", JString (js " Soho House Toronto"));
                 (js "location", JString (js "Toronto, Canada")) ]);
      (js "categories",
       JArray
         [ JObject
             [ (js "name", JString (js "STARTERS  "));
               (js "dishes",
                JArray
                  [ JObject
                      [ (js "name", JString (js " Soup "));
                        (js "description",
                         JString [111; 102; 32; 32; 116; 104; 101; 9;
                                  100; 97; 121]%N);
                        (js "price", JNumber (js "9.5"));
                        (js "dietary_tags", JArray [JString (js "v")]) ] ]) ] ]) ].

Definition menu_as_read_second : json :=
  JObject
    [ (js "categories",
       JArray
         [ JObject
             [ (js "dishes",
                JArray
                  [ JObject
                      [ (js "dietary_tags", JArray [JString (js "v")]);
                        (js "price", JNumber (js "9.5"));
                        (js "description", JString (js " of the day "));
                        (js "name", JString (js "Soup")) ] ]);
               (js "name", JString (js "STARTERS")) ] ]);
      (js "restaurant",
       JObject [ (js "location", JString (js "Toronto, Canada"));
                 (js "name", JString (js "Soho House Toronto")) ]) ].

(** A menu with every kind of field. *)
Definition burger_menu : StructuredMenu :=
  {| restaurant := {| rest_name := js " Soho House ";
                      rest_location := js "Toronto" |};
     categories :=
       [ {| cat_name := js "MAINS";
            cat_dishes :=
              Some [ {| dish_name := js "Burger ";
                        dish_description := Some (js "  with   fries ");
                        dish_price := Some (js "12.5");
                        dish_dietary_tags := Some [js "gf"] |};
                     {| dish_name := js "Salad";
                        dish_description := Some (js "green");
                        dish_price := Some (js "12.5");
                        dish_dietary_tags := Some [js "gf"] |} ] |} ] |}.

End Scenarios.

(** ** Structuring the OCR text *)

Module Structure.

Import Ocr ContentHash.

Definition STRUCTURING_MODEL : string := "openai/gpt-4o-mini".

(** [result.choices?.[0]?.message?.content]: falsy, or else the string that
    [JSON.parse] reads (the content itself when it is a string). *)
Inductive Content :=
| Falsy
| Truthy (asString : jsstring).

(** The answer to the one request of [structureOcrData].
    - [FetchRejected]: [fetch] or [response.json()] threw;
    - [NotOk]: [response.ok] is false; [status] and [statusText] are kept
      as they are rendered in the message, [body] is the fate of
      [response.text()];
    - [Ok]: the parsed body and its content. *)
Inductive Reply :=
| FetchRejected (e : JsError)
| NotOk (status statusText : string) (body : JsError + jsstring)
| Ok (content : Content).

(** The request: the model and the OCR text embedded in the prompt (the
    fixed parts of the prompt are not spelled out). *)
Record StructuringRequest := { sreq_model : string; sreq_text : jsstring }.

(** [{ ...ocrResult, structuredData }] *)
Record StructuredOcr := { ocr : OcrResult; structuredData : json }.

(** A value met while the summary of the parsed data is computed. *)
Inductive Got :=
| Undefined
| Value (v : json).

Fixpoint lookup (key : jsstring) (members : list (jsstring * json)) : Got :=
  match members with
  | [] => Undefined
  | (k, v) :: rest => if JsStr.eqb k key then Value v else lookup key rest
  end.

(** The TypeError of reading a property of [undefined] or [null], with the
    message of V8. *)
Definition unreadable (base : Got) (property : string) : option string :=
  match base with
  | Undefined =>
      Some ("Cannot read properties of undefined (reading '" ++ property
            ++ "')")%string
  | Value JNull =>
      Some ("Cannot read properties of null (reading '" ++ property
            ++ "')")%string
  | Value _ => None
  end.

(** [base.property] for a property that only an object parsed from JSON
    can have ([categories], [dishes]). *)
Definition member (base : Got) (property : string) : string + Got :=
  match unreadable base property with
  | Some message => inl message
  | None =>
      inr match base with
          | Value (JObject members) => lookup (js property) members
          | _ => Undefined
          end
  end.

(** [base[0]] *)
Definition first (base : Got) : Got :=
  match base with
  | Value (JArray (item :: _)) => Value item
  | Value (JString (c :: _)) => Value (JString [c])
  | Value (JObject members) => lookup (js "0") members
  | _ => Undefined
  end.

(** The first error that a list of evaluations meets. *)
Fixpoint first_error (steps : list (option string)) : option string :=
  match steps with
  | [] => None
  | Some message :: _ => Some message
  | None :: rest => first_error rest
  end.

(** The arguments of the success log, evaluated in order:
    [structuredData.categories.length],
    [structuredData.categories[0].name] and
    [structuredData.categories.reduce((sum, cat) =>
       sum + cat.dishes.length, 0)].
    The value is the message of the TypeError that the evaluation throws,
    if it throws. *)
Definition summary_error (structuredData_ : json) : option string :=
  match member (Value structuredData_) "categories" with
  | inl message => Some message
  | inr categories_ =>
      match unreadable categories_ "length" with
      | Some message => Some message
      | None =>
          match unreadable (first categories_) "name" with
          | Some message => Some message
          | None =>
              match categories_ with
              | Value (JArray items) =>
                  first_error
                    (map (fun cat =>
                            match member (Value cat) "dishes" with
                            | inl message => Some message
                            | inr dishes => unreadable dishes "length"
                            end)
                       items)
              | _ =>
                  Some "structuredData.categories.reduce is not a function"
              end
          end
      end
  end.

Definition missing_key_message : string := "OpenRouter API key is missing".

Definition parse_failure (message : string) : JsError :=
  {| error_message := "Failed to parse structured data: " ++ message |}.

Section WithParser.

(** [JSON.parse]: the value, or the message of the SyntaxError. *)
Variable JSON_parse : jsstring -> string + json.

(** [structureOcrData].  [write_error] is the message of the error that
    writing [structured-menu-data.json] throws, if it throws.  The outer
    [catch] logs and rethrows, so it does not show. *)
Definition structureOcrData (apiKey : option string) (reply : Reply)
    (write_error : option string) (ocrResult : OcrResult)
  : (JsError + StructuredOcr) * list StructuringRequest :=
  if key_present apiKey then
    let sent := [ {| sreq_model := STRUCTURING_MODEL;
                     sreq_text := text ocrResult |} ] in
    match reply with
    | FetchRejected e => (inl e, sent)
    | NotOk status statusText body =>
        match body with
        | inl e => (inl e, sent)
        | inr _ =>
            (inl {| error_message :=
                      "Failed to structure OCR data: " ++ status ++ " "
                      ++ statusText |}, sent)
        end
    | Ok Falsy =>
        (inl {| error_message :=
                  "Failed to structure OCR data: Empty response" |}, sent)
    | Ok (Truthy structuredText) =>
        match JSON_parse structuredText with
        | inl message => (inl (parse_failure message), sent)
        | inr structuredData_ =>
            match summary_error structuredData_ with
            | Some message => (inl (parse_failure message), sent)
            | None =>
                match write_error with
                | Some message => (inl (parse_failure message), sent)
                | None =>
                    (inr {| ocr := ocrResult;
                            structuredData := structuredData_ |}, sent)
                end
            end
        end
    end
  else (inl {| error_message := missing_key_message |}, []).

End WithParser.

(** The shape of a value that passes the summary: an object whose
    [categories] is a non-empty array of objects, each with a [dishes]
    member that is not [null]. *)
Definition has_dishes (cat : json) : Prop :=
  exists members dishes,
    cat = JObject members
    /\ lookup (js "dishes") members = Value dishes
    /\ dishes <> JNull.

Definition well_shaped (v : json) : Prop :=
  exists members cat cats,
    v = JObject members
    /\ lookup (js "categories") members = Value (JArray (cat :: cats))
    /\ Forall has_dishes (cat :: cats).

End Structure.

(** ** More concrete runs *)

Module MoreScenarios.

Import Ocr ContentHash.

Definition extracted : OcrResult :=
  {| success := true;
     text := js "STARTERS Soup 5.00 Bread 3.50";
     model := {| model_id := "openai/gpt-4o-mini"; model_name := "GPT-4o Mini" |};
     metadata := {| responseTime_ := "1.20"; extractedAt_ := "t3";
                    textLength := 29 |} |}.

Definition one_category : json :=
  JObject
    [ (js "restaurant", JObject [ (js "name", JString (js "Soho House")) ]);
      (js "categories",
       JArray [ JObject [ (js "name", JString (js "STARTERS"));
                          (js "dishes", JArray []) ] ]) ].

Definition no_categories : json :=
  JObject [ (js "restaurant", JObject []); (js "categories", JArray []) ].

(** A stand-in for [JSON.parse] that knows two texts. *)
Definition parse_two (t : jsstring) : string + json :=
  if JsStr.eqb t (js "one") then inr one_category
  else if JsStr.eqb t (js "none") then inr no_categories
  else inl "Unexpected token".

(** The first provider answers with a menu, but the result file cannot be
    written; the second provider answers with another text. *)
Definition unsaved_first (i : nat) : Attempt :=
  match i with
  | 0 => OkResponse (CString (js "STARTERS Soup 5.00 Bread 3.50"))
           "1.20" "t0" false
  | _ => OkResponse (CString (js "MAINS Burger 12.00 Fries 4.00"))
           "0.90" "t1" true
  end.

(** A scan whose image hash is missing, and the store after user A made
    such a scan. *)
Definition unhashed : Persist.StructuredResult :=
  {| Persist.sr_text := js "STARTERS Soup 9.5";
     Persist.sr_model := {| model_id := "openai/gpt-4o-mini";
                            model_name := "GPT-4o Mini" |};
     Persist.sr_imageHash := "";
     Persist.sr_contentHash := "hash-x";
     Persist.sr_structuredData := Scenarios.menu25 |}.

Definition after_unhashed_scan : World :=
  {| db := {| user_profile := user_profile (db Scenarios.after_first_scan);
              canonical_menus := canonical_menus (db Scenarios.after_first_scan);
              menu_scan :=
                [ {| ms_id := "scan-1"; ms_user_id := "user-a";
                     ms_menu_raw_text := js "STARTERS Soup 9.5";
                     ms_scanned_at := 1000;
                     ms_restaurant_name := js "Soho House Toronto";
                     ms_location := js "Toronto, Canada";
                     ms_ocr_method := "openai/gpt-4o-mini";
                     ms_image_hash := "";
                     ms_canonical_menu_id := "menu-1" |} ];
              menu_dishes := [] |};
     calls := [] |}.

(** A scan of a small menu: two starters and a dessert. *)
Definition scanned_small : Persist.StructuredResult :=
  {| Persist.sr_text := js "STARTERS Soup 9.5 Bread DESSERTS Cake 7";
     Persist.sr_model := {| model_id := "openai/gpt-4o-mini";
                            model_name := "GPT-4o Mini" |};
     Persist.sr_imageHash := "img-s";
     Persist.sr_contentHash := "hash-s";
     Persist.sr_structuredData :=
       Scenarios.menu_of
         [Scenarios.starters [Scenarios.soup; Scenarios.bread];
          Scenarios.desserts] |}.

(** What user C gets for it. *)
Definition created_small : Persist.SaveResult :=
  {| Persist.scanId := "scan-2";
     Persist.method := "new_canonical_menu";
     Persist.existingScan := None;
     Persist.canonicalId := Some "menu-2";
     Persist.existingCanonicalMenuFirstScanId := None;
     Persist.dishCount := Some 3;
     Persist.newDishes := Some true |}.

(** The scan insert meets a transient error. *)
Definition scan_insert_down : Persist.Env :=
  Scenarios.env_with None None None None None
    (Some (Reports Scenarios.transient)) None (fun _ => None).

(** What user B gets for the menu that user A scanned. *)
Definition reused_by_b : Persist.SaveResult :=
  {| Persist.scanId := "scan-2";
     Persist.method := "canonical_menu_reuse";
     Persist.existingScan := None;
     Persist.canonicalId := Some "menu-1";
     Persist.existingCanonicalMenuFirstScanId := None;
     Persist.dishCount := Some 25;
     Persist.newDishes := Some false |}.

(** What user C gets for a menu that nobody scanned before. *)
Definition created_by_c : Persist.SaveResult :=
  {| Persist.scanId := "scan-2";
     Persist.method := "new_canonical_menu";
     Persist.existingScan := None;
     Persist.canonicalId := Some "menu-2";
     Persist.existingCanonicalMenuFirstScanId := None;
     Persist.dishCount := Some 25;
     Persist.newDishes := Some true |}.

End MoreScenarios.

(** ** Predicates used to state further properties *)

Module Shapes.

(** A lowercase hexadecimal digit. *)
Definition is_hex (c : ascii) : bool :=
  let n := N_of_ascii c in
  ((48 <=? n) && (n <=? 57) || (97 <=? n) && (n <=? 102))%N.

(** A word: not empty, and free of whitespace. *)
Definition is_word (w : jsstring) : Prop :=
  w <> [] /\ forallb (fun c => negb (is_space c)) w = true.

(** Every scan and every dish of the store refers to a canonical menu of
    the store. *)
Definition linked (d : Db) : Prop :=
  (forall s, In s (menu_scan d) ->
             In (ms_canonical_menu_id s) (map cm_id (canonical_menus d)))
  /\ (forall r, In r (menu_dishes d) ->
                In (md_canonical_menu_id r) (map cm_id (canonical_menus d))).

(** The columns of a canonical menu that are set when it is created. *)
Definition created_as (r : CanonicalMenuRow) : string * string * nat * N :=
  (cm_id r, cm_content_hash r, cm_dish_count r, cm_created_at r).

(** The dishes of a menu in the order of the menu, each with the name of
    its category: the dishes of the first category in their order, then
    those of the second, and so on; a category without a dish list has
    none.  This is the reading of a menu by a person, written without the
    loops of the script. *)
Fixpoint labelled (category : jsstring) (dishes : list Persist.Dish)
  : list (Persist.Dish * jsstring) :=
  match dishes with
  | [] => []
  | dish :: rest => (dish, category) :: labelled category rest
  end.

Fixpoint menu_order (categories : list Persist.Category)
  : list (Persist.Dish * jsstring) :=
  match categories with
  | [] => []
  | category :: rest =>
      match Persist.cat_dishes category with
      | Some dishes => labelled (Persist.cat_name category) dishes
      | None => []
      end ++ menu_order rest
  end.

(** The row [row] of [menu_dishes] holds the dish [fst dish] of the
    category named [snd dish] for the canonical menu [canonicalId]: a
    missing description is stored as the empty string, missing or empty
    dietary tags as null. *)
Definition stored_as (canonicalId : string) (dish : Persist.Dish * jsstring)
    (row : MenuDishRow) : Prop :=
  md_canonical_menu_id row = canonicalId
  /\ md_dish_name row = Persist.dish_name (fst dish)
  /\ md_category row = snd dish
  /\ md_price row = Persist.dish_price (fst dish)
  /\ md_description row =
       match Persist.dish_description (fst dish) with
       | Some text => text
       | None => []
       end
  /\ md_tags row =
       match Persist.dish_dietary_tags (fst dish) with
       | Some [] => None
       | tags => tags
       end.

End Shapes.

(** ** The parts of [saveToSupabase], named

    The three [return] statements and the two branches of the [if] inside
    the [try] block of [saveToSupabase], as definitions of their own;
    [saveToSupabase] is their composition (lemma [saveToSupabase_paths]). *)

Module Paths.

Import Persist.

Section WithEnv.

Variable env : Env.
Variable structuredResult : StructuredResult.
Variable userId : string.

Definition duplicate_result (existingScan_ : ScanSummary) : SaveResult :=
  {| scanId := ss_id existingScan_;
     method := "duplicate_image_hash";
     existingScan := Some true;
     canonicalId := None;
     existingCanonicalMenuFirstScanId := None;
     dishCount := None;
     newDishes := None |}.

Definition reuse_result (ecm : CanonicalSummary) : SaveResult :=
  {| scanId := uuidv4 env;
     method := "canonical_menu_reuse";
     existingScan := None;
     canonicalId := Some (cs_id ecm);
     existingCanonicalMenuFirstScanId := None;
     dishCount := Some (cs_dish_count ecm);
     newDishes := Some false |}.

Definition new_result (canonicalId_ : string) (insertedDishCount : nat)
  : SaveResult :=
  {| scanId := uuidv4 env;
     method := "new_canonical_menu";
     existingScan := None;
     canonicalId := Some canonicalId_;
     existingCanonicalMenuFirstScanId := None;
     dishCount := Some insertedDishCount;
     newDishes := Some true |}.

(** The row that Scenario B inserts into [canonical_menus]. *)
Definition new_canonical_row : CanonicalMenuRow :=
  {| cm_id := canonical_uuid env;
     cm_content_hash := sr_contentHash structuredResult;
     cm_dish_count := countDishes (sr_structuredData structuredResult);
     cm_created_at := now_canonical env;
     cm_first_scan_id := None |}.

(** The profile that [ensureUserExists] creates. *)
Definition new_profile : UserProfileRow :=
  {| up_id := userId; up_email := "test@example.com";
     up_created_at := now_user env |}.

(** Scenario A: the canonical menu already exists. *)
Definition scenarioA (ecm : CanonicalSummary) : M SaveResult :=
  r <- request (InsertScan (uuidv4 env) (cs_id ecm)) (on_scanInsert env)
         (insert_scan
            (scan_row env structuredResult userId (uuidv4 env) (cs_id ecm))) ;;
  match error r with
  | Some scanError => throw ("Scan insert failed: " ++ message scanError)
  | None => ret (reuse_result ecm)
  end.

(** Scenario B: create everything. *)
Definition scenarioB : M SaveResult :=
  rc <- request (InsertCanonical (sr_contentHash structuredResult))
          (on_canonicalInsert env) (insert_canonical new_canonical_row) ;;
  match error rc, data rc with
  | Some canonicalError, _ =>
      throw ("Canonical menu insert failed: " ++ message canonicalError)
  | None, None => throw "Cannot read properties of null (reading 'id')"
  | None, Some canonicalId_ =>
      rs <- request (InsertScan (uuidv4 env) canonicalId_) (on_scanInsert env)
              (insert_scan
                 (scan_row env structuredResult userId (uuidv4 env)
                    canonicalId_)) ;;
      match error rs with
      | Some scanError => throw ("Scan insert failed: " ++ message scanError)
      | None =>
          _ <- request (UpdateFirstScan canonicalId_ (uuidv4 env))
                 (on_firstScanUpdate env)
                 (update_first_scan canonicalId_ (uuidv4 env)) ;;
          acc <- insertBatches env canonicalId_
                   (collectDishes (sr_structuredData structuredResult))
                   (List.length
                      (collectDishes (sr_structuredData structuredResult)))
                   0 (0, []) ;;
          ret (new_result canonicalId_ (fst acc))
      end
  end.

End WithEnv.

(** The rows of all dishes of a menu for the canonical menu [canonicalId],
    numbered in the order of the menu. *)
Definition all_dish_rows (env : Env) (canonicalId : string)
    (menu : StructuredMenu) : list MenuDishRow :=
  map (fun d => dish_row env canonicalId (fst d) (snd d))
    (number_from 0 (collectDishes menu)).

(** The store [d] with other contents of its tables. *)
Definition with_tables (users : list UserProfileRow)
    (cans : list CanonicalMenuRow) (scans : list MenuScanRow)
    (dishes : list MenuDishRow) : Db :=
  {| user_profile := users; canonical_menus := cans;
     menu_scan := scans; menu_dishes := dishes |}.

(** The world [w] after a run that added the rows [users], [scans] and
    [dishes] to their tables, left [cans] as the canonical menus and sent
    the requests [sent]. *)
Definition grown (w : World) (users : list UserProfileRow)
    (cans : list CanonicalMenuRow) (scans : list MenuScanRow)
    (dishes : list MenuDishRow) (sent : list Call) : World :=
  {| db := with_tables (user_profile (db w) ++ users) cans
             (menu_scan (db w) ++ scans) (menu_dishes (db w) ++ dishes);
     calls := calls w ++ sent |}.

End Paths.

(** * Properties *)

(** ** The OCR fallback chain *)

Section OcrFacts.

Import Ocr.

Variable world : nat -> Attempt.
Variable imageBase64 : string.

Lemma cascade_skips_failure i m rest :
  attempt_fails (world i) = true ->
  cascade world imageBase64 i (m :: rest) =
    (fst (cascade world imageBase64 (S i) rest),
     request_for imageBase64 m :: snd (cascade world imageBase64 (S i) rest)).
Proof.
  unfold attempt_fails, attempt_succeeds. cbn [cascade].
  destruct (world i) as [| msg | st body | c rt at_ saved]; try reflexivity.
  destruct (insufficient c) eqn:E; [reflexivity |].
  destruct c as [| | t]; try reflexivity.
  rewrite E. destruct saved; [discriminate | reflexivity].
Qed.

Lemma cascade_returns_success i m rest t rt at_ :
  world i = OkResponse (CString t) rt at_ true ->
  insufficient (CString t) = false ->
  cascade world imageBase64 i (m :: rest) =
    (inr {| success := true; text := t; model := m;
            metadata := {| responseTime_ := rt; extractedAt_ := at_;
                           textLength := List.length t |} |},
     [request_for imageBase64 m]).
Proof.
  intros Hw E. cbn [cascade]. rewrite Hw, E. destruct m; reflexivity.
Qed.

Lemma cascade_first_success rest :
  forall i k m t rt at_,
    nth_error rest k = Some m ->
    (forall j, j < k -> attempt_fails (world (i + j)) = true) ->
    world (i + k) = OkResponse (CString t) rt at_ true ->
    insufficient (CString t) = false ->
    cascade world imageBase64 i rest =
      (inr {| success := true; text := t; model := m;
              metadata := {| responseTime_ := rt; extractedAt_ := at_;
                             textLength := List.length t |} |},
       map (request_for imageBase64) (firstn (S k) rest)).
Proof.
  induction rest as [| m0 rest IH]; intros i k m t rt at_ Hnth Hfail Hok E.
  - destruct k; discriminate.
  - destruct k as [| k].
    + injection Hnth as <-. rewrite Nat.add_0_r in Hok.
      rewrite (cascade_returns_success i m0 rest t rt at_ Hok E).
      reflexivity.
    + simpl in Hnth.
      rewrite cascade_skips_failure.
      * rewrite (IH (S i) k m t rt at_ Hnth); [reflexivity | | | exact E].
        -- intros j Hj. replace (S i + j) with (i + S j) by lia.
           apply Hfail. lia.
        -- replace (S i + k) with (i + S k) by lia. exact Hok.
      * specialize (Hfail 0). rewrite Nat.add_0_r in Hfail.
        apply Hfail. lia.
Qed.

Lemma cascade_all_fail rest :
  forall i,
    (forall j, j < List.length rest -> attempt_fails (world (i + j)) = true) ->
    cascade world imageBase64 i rest =
      (inl {| error_message := all_failed_message |},
       map (request_for imageBase64) rest).
Proof.
  induction rest as [| m rest IH]; intros i Hfail.
  - reflexivity.
  - rewrite cascade_skips_failure.
    + rewrite IH; [reflexivity |].
      intros j Hj. replace (S i + j) with (i + S j) by lia.
      apply Hfail. simpl. lia.
    + specialize (Hfail 0). rewrite Nat.add_0_r in Hfail.
      apply Hfail. simpl. lia.
Qed.

End OcrFacts.

Lemma long_text_is_sufficient (t : jsstring) :
  20 <= List.length (trim t) -> Ocr.insufficient (Ocr.CString t) = false.
Proof.
  intros H. unfold Ocr.insufficient.
  destruct t as [| c r]; [simpl in H; lia |].
  simpl orb. apply Nat.ltb_ge. exact H.
Qed.

(** X20. With the API key set, in a cascade where the passes before
    position [k] fail and the pass at position [k] yields text of at least
    20 code units after trimming and the write of its result file
    succeeds, the call returns that text tagged with the model at position
    [k], and the requests sent are exactly those for positions [0..k]: no
    later provider is asked. *)
Theorem first_saved_success_wins
    (chain : list Ocr.Model) (apiKey : option string)
    (world : nat -> Ocr.Attempt) (imageBase64 : string)
    (k : nat) (m : Ocr.Model) (t : jsstring) (rt at_ : string) :
  Ocr.key_present apiKey = true ->
  nth_error chain k = Some m ->
  (forall j, j < k -> Ocr.attempt_fails (world j) = true) ->
  world k = Ocr.OkResponse (Ocr.CString t) rt at_ true ->
  20 <= List.length (trim t) ->
  Ocr.runOcrWithFallbackChainOn chain apiKey world imageBase64 =
    (inr {| Ocr.success := true; Ocr.text := t; Ocr.model := m;
            Ocr.metadata := {| Ocr.responseTime_ := rt;
                               Ocr.extractedAt_ := at_;
                               Ocr.textLength := List.length t |} |},
     map (Ocr.request_for imageBase64) (firstn (S k) chain)).
Proof.
  intros Hkey Hnth Hfail Hok Hlen.
  unfold Ocr.runOcrWithFallbackChainOn. rewrite Hkey.
  apply cascade_first_success; auto using long_text_is_sufficient.
Qed.

(** X20, at a concrete cascade: a timeout, an HTTP error and a too short
    answer, then the fourth model of the chain answers. *)
Lemma first_saved_success_wins_witness :
  Ocr.runOcrWithFallbackChain (Some "sk-or-1") Scenarios.c1_world "aGVsbG8=" =
    (inr {| Ocr.success := true;
            Ocr.text := js "STARTERS Soup 5.00 Bread 3.50";
            Ocr.model := {| Ocr.model_id := "openai/gpt-4o-mini";
                            Ocr.model_name := "GPT-4o Mini" |};
            Ocr.metadata := {| Ocr.responseTime_ := "1.20";
                               Ocr.extractedAt_ := "t3";
                               Ocr.textLength := 29 |} |},
     map (Ocr.request_for "aGVsbG8=") (firstn 4 Ocr.OCR_MODEL_CHAIN)).
Proof.
  apply (first_saved_success_wins Ocr.OCR_MODEL_CHAIN (Some "sk-or-1")
           Scenarios.c1_world
           "aGVsbG8=" 3 _ (js "STARTERS Soup 5.00 Bread 3.50") "1.20" "t3").
  - reflexivity.
  - reflexivity.
  - intros j Hj. do 3 (destruct j as [| j]; [reflexivity |]). lia.
  - reflexivity.
  - vm_compute. lia.
Defined.

(** C1 fails at a concrete cascade.  The first provider answers with 29
    code units of text, which the function accepts and logs as a success;
    then the write of the result file throws.  The write sits inside the
    [try] of the pass, so the handler of the pass takes the exception for
    a failure of the provider: the text is dropped, the second provider is
    asked, and the call returns the answer of the second provider. *)
Lemma C1_unsaved_text_is_dropped :
  nth_error Ocr.OCR_MODEL_CHAIN 0 =
    Some {| Ocr.model_id := "meta-llama/llama-3.2-11b-vision-instruct:free";
            Ocr.model_name := "Llama 3.2 Vision (Free)" |}
  /\ MoreScenarios.unsaved_first 0 =
       Ocr.OkResponse (Ocr.CString (js "STARTERS Soup 5.00 Bread 3.50"))
         "1.20" "t0" false
  /\ 20 <= List.length (trim (js "STARTERS Soup 5.00 Bread 3.50"))
  /\ Ocr.runOcrWithFallbackChain (Some "sk-or-1") MoreScenarios.unsaved_first
       "aGVsbG8=" =
       (inr {| Ocr.success := true;
               Ocr.text := js "MAINS Burger 12.00 Fries 4.00";
               Ocr.model := {| Ocr.model_id := "qwen/qwen-2.5-vl-7b-instruct:free";
                               Ocr.model_name := "Qwen 2.5 VL (Free)" |};
               Ocr.metadata := {| Ocr.responseTime_ := "0.90";
                                  Ocr.extractedAt_ := "t1";
                                  Ocr.textLength := 29 |} |},
        map (Ocr.request_for "aGVsbG8=") (firstn 2 Ocr.OCR_MODEL_CHAIN)).
Proof.
  split; [reflexivity |]. split; [reflexivity |].
  split; [vm_compute; lia | reflexivity].
Qed.

(** C8 (as amended). When every pass of the cascade fails, the call throws
    an error whose only content is one fixed message, after having asked
    every provider of the chain in order; the failures of the single
    passes are not part of the error. *)
Theorem C8_exhausted_error_is_fixed_message
    (chain : list Ocr.Model) (apiKey : option string)
    (world : nat -> Ocr.Attempt) (imageBase64 : string) :
  Ocr.key_present apiKey = true ->
  (forall j, j < List.length chain -> Ocr.attempt_fails (world j) = true) ->
  Ocr.runOcrWithFallbackChainOn chain apiKey world imageBase64 =
    (inl {| Ocr.error_message := Ocr.all_failed_message |},
     map (Ocr.request_for imageBase64) chain).
Proof.
  intros Hkey Hfail. unfold Ocr.runOcrWithFallbackChainOn. rewrite Hkey.
  apply cascade_all_fail. exact Hfail.
Qed.

(** C8 (as amended), at a concrete cascade: every request times out. *)
Lemma C8_exhausted_error_is_fixed_message_witness :
  Ocr.runOcrWithFallbackChain (Some "sk-or-1") (fun _ => Ocr.Aborted) "aGVsbG8=" =
    (inl {| Ocr.error_message := Ocr.all_failed_message |},
     map (Ocr.request_for "aGVsbG8=") Ocr.OCR_MODEL_CHAIN).
Proof.
  apply (C8_exhausted_error_is_fixed_message Ocr.OCR_MODEL_CHAIN
           (Some "sk-or-1") (fun _ => Ocr.Aborted) "aGVsbG8=").
  - reflexivity.
  - intros j Hj. reflexivity.
Defined.

(** C8 (as stated) fails: no reading of the thrown error yields the ordered
    list of sub-failures, since a cascade of six timeouts and a cascade of
    six provider errors throw the same error. *)
Lemma C8_error_carries_no_sub_failures :
  ~ exists carried : Ocr.JsError -> list Ocr.SubFailure,
      forall world : nat -> Ocr.Attempt,
        (forall j, Ocr.attempt_fails (world j) = true) ->
        exists e,
          fst (Ocr.runOcrWithFallbackChain (Some "sk-or-1") world "aGVsbG8=")
            = inl e
          /\ carried e
             = Ocr.sub_failures world 0 (List.length Ocr.OCR_MODEL_CHAIN).
Proof.
  intros [carried H].
  destruct (H (fun _ => Ocr.Aborted) (fun _ => eq_refl)) as [e1 [E1 C1]].
  destruct (H (fun _ => Ocr.NotOk 500 []) (fun _ => eq_refl)) as [e2 [E2 C2]].
  vm_compute in E1, E2, C1, C2.
  injection E1 as <-. injection E2 as <-.
  rewrite C1 in C2. discriminate.
Qed.

(** ** The persistence step *)

Section PersistFacts.

Import Persist.

Variable env : Env.

Lemma after_nothing w : after w (db w) [] = w.
Proof. unfold after. rewrite app_nil_r. destruct w; reflexivity. Qed.

Lemma latest_some rows r :
  latest rows = Some r ->
  In r rows /\ forall x, In x rows -> (ms_scanned_at x <= ms_scanned_at r)%N.
Proof.
  revert r. induction rows as [| a rows IH]; intros r H; [discriminate |].
  simpl in H. destruct (latest rows) as [r' |] eqn:E.
  - destruct (IH r' eq_refl) as [Hin Hmax].
    destruct (N.ltb_spec (ms_scanned_at a) (ms_scanned_at r')) as [Hlt | Hge];
      injection H as <-.
    + split; [right; exact Hin |].
      intros x [<- | Hx]; [lia | auto].
    + split; [left; reflexivity |].
      intros x [<- | Hx]; [lia |]. specialize (Hmax x Hx). lia.
  - injection H as <-. destruct rows as [| b rows'].
    + split; [left; reflexivity |]. intros x [<- | []]. lia.
    + simpl in E. destruct (latest rows'); [destruct (_ <? _)%N |]; discriminate.
Qed.

Lemma latest_nonempty rows : rows <> [] -> exists r, latest rows = Some r.
Proof.
  destruct rows as [| a rows]; [congruence | intros _].
  simpl. destruct (latest rows) as [r' |]; [destruct (_ <? _)%N |]; eauto.
Qed.

(** The look-up by image hash never throws and never changes the store. *)
Lemma checkForExistingUserScan_frame userId imageHash w :
  exists v,
    checkForExistingUserScan env userId imageHash w =
      (inr v, after w (db w)
                (if truthy imageHash then [SelectUserScan userId imageHash]
                 else [])).
Proof.
  unfold checkForExistingUserScan.
  destruct (truthy imageHash); simpl.
  - unfold try_catch, bind, request, ret, select_user_scan, after.
    destruct (on_userScanSelect env) as [[e | msg] |]; simpl; eauto.
  - unfold ret. rewrite after_nothing. eauto.
Qed.

Lemma checkForExistingCanonicalMenu_frame contentHash w :
  exists v,
    checkForExistingCanonicalMenu env contentHash w =
      (inr v, after w (db w)
                (if truthy contentHash then [SelectCanonical contentHash]
                 else [])).
Proof.
  unfold checkForExistingCanonicalMenu.
  destruct (truthy contentHash); simpl.
  - unfold try_catch, bind, request, ret, select_canonical, after.
    destruct (on_canonicalSelect env) as [[e | msg] |]; simpl; eauto.
    destruct (String.eqb (code e) "PGRST204"); eauto.
  - unfold ret. rewrite after_nothing. eauto.
Qed.

(** The value of the canonical look-up depends on the table
    [canonical_menus] only. *)
Lemma checkForExistingCanonicalMenu_value contentHash w w' :
  canonical_menus (db w) = canonical_menus (db w') ->
  fst (checkForExistingCanonicalMenu env contentHash w) =
  fst (checkForExistingCanonicalMenu env contentHash w').
Proof.
  intros H. unfold checkForExistingCanonicalMenu.
  destruct (truthy contentHash); simpl; [| reflexivity].
  unfold try_catch, bind, request, ret, select_canonical.
  destruct (on_canonicalSelect env) as [[e | msg] |]; simpl; try reflexivity.
  - destruct (String.eqb (code e) "PGRST204"); reflexivity.
  - rewrite H. reflexivity.
Qed.

(** What [ensureUserExists] can do to the store: nothing, or add the
    profile of [userId]. *)
Lemma ensureUserExists_frame userId w :
  exists outcome db' sent,
    ensureUserExists env userId w = (outcome, after w db' sent)
    /\ canonical_menus db' = canonical_menus (db w)
    /\ menu_scan db' = menu_scan (db w)
    /\ menu_dishes db' = menu_dishes (db w)
    /\ (sent = [SelectUser userId]
        \/ sent = [SelectUser userId; InsertUser userId]).
Proof.
  unfold ensureUserExists, ensureUserExists_check, ensureUserExists_create,
    try_catch, bind, request, rethrow, throw, ret, select_user, insert_user,
    after.
  destruct (on_userSelect env) as [[e | msg] |]; simpl;
    [ destruct (String.eqb (code e) "PGRST116"); simpl | |
      destruct (profiles_of userId (db w)) as [| r [| r' l]]; simpl ];
    try (destruct (on_userInsert env) as [[e' | msg'] |]; simpl);
    try match goal with
        | |- context [existsb ?f ?l] => destruct (existsb f l); simpl
        end;
    rewrite <- ?app_assoc; simpl;
    do 3 eexists; (split; [reflexivity |]); repeat split; auto.
Qed.

Lemma checkForExistingUserScan_answered userId imageHash w :
  truthy imageHash = true ->
  on_userScanSelect env = None ->
  checkForExistingUserScan env userId imageHash w =
    (inr (option_map scan_summary
            (latest (filter (scan_matches userId imageHash) (menu_scan (db w))))),
     after w (db w) [SelectUserScan userId imageHash]).
Proof.
  intros Ht Hq. unfold checkForExistingUserScan. rewrite Ht. simpl.
  unfold try_catch, bind, request, ret, select_user_scan, after.
  rewrite Hq. simpl.
  destruct (latest _); reflexivity.
Qed.

Lemma checkForExistingUserScan_failed userId imageHash fault w :
  on_userScanSelect env = Some fault ->
  fst (checkForExistingUserScan env userId imageHash w) = inr None
  /\ db (snd (checkForExistingUserScan env userId imageHash w)) = db w.
Proof.
  intros Hq. unfold checkForExistingUserScan.
  destruct (truthy imageHash); simpl; [| split; reflexivity].
  unfold try_catch, bind, request, ret. rewrite Hq.
  destruct fault; simpl; split; reflexivity.
Qed.

Lemma checkForExistingCanonicalMenu_failed contentHash fault w :
  on_canonicalSelect env = Some fault ->
  fst (checkForExistingCanonicalMenu env contentHash w) = inr None
  /\ db (snd (checkForExistingCanonicalMenu env contentHash w)) = db w.
Proof.
  intros Hq. unfold checkForExistingCanonicalMenu.
  destruct (truthy contentHash); simpl; [| split; reflexivity].
  unfold try_catch, bind, request, ret. rewrite Hq.
  destruct fault as [e | msg]; simpl; [| split; reflexivity].
  destruct (String.eqb (code e) "PGRST204"); split; reflexivity.
Qed.

Lemma scan_matches_spec userId imageHash r :
  scan_matches userId imageHash r = true <->
  ms_user_id r = userId /\ ms_image_hash r = imageHash.
Proof.
  unfold scan_matches. rewrite andb_true_iff, !String.eqb_eq. reflexivity.
Qed.

(** C2 (as amended). When the store holds a scan of the same user with
    the same image hash, the image hash is not empty and the look-up by
    image hash is answered without error, [saveToSupabase]
    returns the id of the most recent such scan with method
    [duplicate_image_hash]; the store is left as it was and the only request
    sent is that look-up, so no row of any table is inserted or updated. *)
Theorem C2_user_duplicate_returns_prior_scan_without_writes
    (structuredResult : StructuredResult) (userId : string) (w : World) :
  truthy (sr_imageHash structuredResult) = true ->
  on_userScanSelect env = None ->
  (exists row, In row (menu_scan (db w))
               /\ ms_user_id row = userId
               /\ ms_image_hash row = sr_imageHash structuredResult) ->
  exists prior,
    In prior (menu_scan (db w))
    /\ ms_user_id prior = userId
    /\ ms_image_hash prior = sr_imageHash structuredResult
    /\ (forall r, In r (menu_scan (db w)) -> ms_user_id r = userId ->
                  ms_image_hash r = sr_imageHash structuredResult ->
                  (ms_scanned_at r <= ms_scanned_at prior)%N)
    /\ saveToSupabase env structuredResult userId w =
         (inr {| scanId := ms_id prior;
                 method := "duplicate_image_hash";
                 existingScan := Some true;
                 canonicalId := None;
                 existingCanonicalMenuFirstScanId := None;
                 dishCount := None;
                 newDishes := None |},
          {| db := db w;
             calls := calls w
                      ++ [SelectUserScan userId (sr_imageHash structuredResult)] |}).
Proof.
  intros Ht Hq [row [Hin [Hu Hh]]].
  set (h := sr_imageHash structuredResult) in *.
  destruct (latest_nonempty (filter (scan_matches userId h) (menu_scan (db w))))
    as [prior Hl].
  { intros E. assert (In row (filter (scan_matches userId h) (menu_scan (db w)))) as H.
    { apply filter_In. split; [exact Hin |]. apply scan_matches_spec. auto. }
    rewrite E in H. exact H. }
  destruct (latest_some _ _ Hl) as [Hp Hmax].
  apply filter_In in Hp. destruct Hp as [Hp1 Hp2].
  apply scan_matches_spec in Hp2. destruct Hp2 as [Hpu Hph].
  exists prior. repeat split; auto.
  - intros r Hr Hru Hrh. apply Hmax. apply filter_In. split; [exact Hr |].
    apply scan_matches_spec. auto.
  - unfold saveToSupabase, bind. fold h.
    rewrite (checkForExistingUserScan_answered userId h w Ht Hq), Hl.
    reflexivity.
Qed.

(** The outcome of [ensureUserExists] depends on the stored data only, not
    on the requests sent before. *)
Lemma ensureUserExists_value userId w w' :
  db w = db w' ->
  fst (ensureUserExists env userId w) = fst (ensureUserExists env userId w').
Proof.
  intros H.
  unfold ensureUserExists, ensureUserExists_check, ensureUserExists_create,
    try_catch, bind, request, rethrow, throw, ret, select_user, insert_user.
  rewrite <- H.
  destruct (on_userSelect env) as [[e | msg] |]; simpl;
    [ destruct (String.eqb (code e) "PGRST116"); simpl | |
      destruct (profiles_of userId (db w)) as [| r [| r' l]]; simpl ];
    try (destruct (on_userInsert env) as [[e' | msg'] |]; simpl);
    try match goal with
        | |- context [existsb ?f ?l] => destruct (existsb f l); simpl
        end;
    reflexivity.
Qed.

Lemma checkForExistingCanonicalMenu_found contentHash w ecm :
  fst (checkForExistingCanonicalMenu env contentHash w) = inr (Some ecm) ->
  exists row,
    In row (canonical_menus (db w))
    /\ cm_content_hash row = contentHash
    /\ canonical_summary row = ecm.
Proof.
  unfold checkForExistingCanonicalMenu.
  destruct (truthy contentHash); simpl; [| discriminate].
  unfold try_catch, bind, request, ret, select_canonical.
  destruct (on_canonicalSelect env) as [[e | msg] |]; simpl; try discriminate.
  - destruct (String.eqb (code e) "PGRST204"); discriminate.
  - destruct (filter (has_content_hash contentHash) (canonical_menus (db w)))
      as [| row rest] eqn:E; simpl; [discriminate |].
    intros [= <-]. exists row.
    assert (In row (filter (has_content_hash contentHash) (canonical_menus (db w))))
      as Hin by (rewrite E; left; reflexivity).
    apply filter_In in Hin. destruct Hin as [Hin Hh].
    apply String.eqb_eq in Hh. auto.
Qed.

Lemma filter_dish_insert_lookup (c : bool) (x : Call) :
  is_dish_insert x = false ->
  filter is_dish_insert (if c then [x] else []) = [].
Proof. intros H. destruct c; simpl; [rewrite H |]; reflexivity. Qed.

Lemma filter_dish_insert_ensure userId sent :
  sent = [SelectUser userId] \/ sent = [SelectUser userId; InsertUser userId] ->
  filter is_dish_insert sent = [].
Proof. intros [-> | ->]; reflexivity. Qed.

(** C4 (as amended). A call classified as a canonical match (the look-up
    by image hash finds nothing, the look-up by content hash finds the
    canonical menu [ecm], a stored menu with the content hash of the call)
    never touches [menu_dishes] or [canonical_menus] and sends no dish
    insert.  When the user profile is ensured and the scan insert is
    carried out, it has added exactly one row to [menu_scan]: the scan of
    this user, text and image hash, under the new scan id, whose
    [canonical_menu_id] is the id of the existing canonical menu; and it
    returns method [canonical_menu_reuse] with that id as [canonicalId] and
    [newDishes] false.  Otherwise it throws and [menu_scan] is
    unchanged. *)
Theorem C4_canonical_match_adds_one_scan_and_no_dishes
    (structuredResult : StructuredResult) (userId : string) (w : World)
    (ecm : CanonicalSummary) :
  fst (checkForExistingUserScan env userId (sr_imageHash structuredResult) w)
    = inr None ->
  fst (checkForExistingCanonicalMenu env (sr_contentHash structuredResult) w)
    = inr (Some ecm) ->
  let run := saveToSupabase env structuredResult userId w in
  menu_dishes (db (snd run)) = menu_dishes (db w)
  /\ canonical_menus (db (snd run)) = canonical_menus (db w)
  /\ filter is_dish_insert (calls (snd run)) = filter is_dish_insert (calls w)
  /\ (exists row, In row (canonical_menus (db w))
                  /\ cm_id row = cs_id ecm
                  /\ cm_content_hash row = sr_contentHash structuredResult)
  /\ match fst (ensureUserExists env userId w), on_scanInsert env with
     | inr _, None =>
         fst run = inr {| scanId := uuidv4 env;
                          method := "canonical_menu_reuse";
                          existingScan := None;
                          canonicalId := Some (cs_id ecm);
                          existingCanonicalMenuFirstScanId := None;
                          dishCount := Some (cs_dish_count ecm);
                          newDishes := Some false |}
         /\ exists s,
              menu_scan (db (snd run)) = menu_scan (db w) ++ [s]
              /\ ms_id s = uuidv4 env
              /\ ms_user_id s = userId
              /\ ms_image_hash s = sr_imageHash structuredResult
              /\ ms_canonical_menu_id s = cs_id ecm
              /\ ms_menu_raw_text s = sr_text structuredResult
              /\ ms_scanned_at s = now_scan env
              /\ ms_restaurant_name s =
                   rest_name (restaurant (sr_structuredData structuredResult))
              /\ ms_location s =
                   rest_location
                     (restaurant (sr_structuredData structuredResult))
              /\ ms_ocr_method s = Ocr.model_id (sr_model structuredResult)
     | _, _ =>
         (exists e, fst run = inl e)
         /\ menu_scan (db (snd run)) = menu_scan (db w)
     end.
Proof.
  intros Hdup Hcan run.
  destruct (checkForExistingCanonicalMenu_found _ _ _ Hcan)
    as [row [Hrow [Hhash Hsum]]].
  assert (exists r, In r (canonical_menus (db w)) /\ cm_id r = cs_id ecm
                    /\ cm_content_hash r = sr_contentHash structuredResult)
    as Hlinked.
  { exists row. subst ecm. auto. }
  subst run. unfold saveToSupabase, bind.
  set (h := sr_imageHash structuredResult) in *.
  set (ch := sr_contentHash structuredResult) in *.
  destruct (checkForExistingUserScan_frame userId h w) as [v E1].
  rewrite E1 in Hdup |- *. simpl in Hdup. injection Hdup as ->.
  set (w1 := after w (db w) _).
  destruct (ensureUserExists_frame userId w1)
    as (outcome & db' & sent & E2 & Hc & Hs & Hd & Hsent).
  rewrite E2.
  rewrite (ensureUserExists_value userId w w1 eq_refl), E2. simpl fst.
  simpl in Hc, Hs, Hd.
  pose proof (filter_dish_insert_ensure _ _ Hsent) as Fsent.
  assert (filter is_dish_insert
            (if truthy h then [SelectUserScan userId h] else []) = []) as F1
    by (apply filter_dish_insert_lookup; reflexivity).
  destruct outcome as [e | b].
  - simpl. rewrite !filter_app, F1, Fsent, !app_nil_r. repeat split; eauto.
  - set (w2 := after w1 db' sent).
    destruct (checkForExistingCanonicalMenu_frame ch w2) as [v2 E3].
    assert (v2 = Some ecm) as ->.
    { assert (fst (checkForExistingCanonicalMenu env ch w2) = inr (Some ecm)) as H.
      { rewrite <- Hcan. apply checkForExistingCanonicalMenu_value.
        simpl. exact Hc. }
      rewrite E3 in H. simpl in H. congruence. }
    rewrite E3.
    assert (filter is_dish_insert
              (if truthy ch then [SelectCanonical ch] else []) = []) as F3
      by (apply filter_dish_insert_lookup; reflexivity).
    unfold try_catch, bind, request, rethrow, throw, ret, insert_scan.
    destruct (on_scanInsert env) as [[e | msg] |]; simpl;
      rewrite !filter_app, F1, Fsent, F3; simpl; rewrite ?app_nil_r;
      repeat split; eauto; try congruence.
    eexists. split; [rewrite Hs; reflexivity |]. repeat split.
Qed.

(** C9 (as amended). A returned result has one of three shapes: on the
    [duplicate_image_hash] path it has [scanId], [method] and
    [existingScan] only; on the two other paths it has a canonical id, a
    dish count and the [newDishes] flag. *)
Theorem C9_result_shape_by_method
    (structuredResult : StructuredResult) (userId : string) (w : World)
    (r : SaveResult) :
  fst (saveToSupabase env structuredResult userId w) = inr r ->
  (method r = "duplicate_image_hash"
   /\ existingScan r = Some true
   /\ canonicalId r = None /\ dishCount r = None /\ newDishes r = None)
  \/ (method r = "canonical_menu_reuse"
      /\ existingScan r = None
      /\ (exists c, canonicalId r = Some c)
      /\ (exists n, dishCount r = Some n)
      /\ newDishes r = Some false)
  \/ (method r = "new_canonical_menu"
      /\ existingScan r = None
      /\ (exists c, canonicalId r = Some c)
      /\ (exists n, dishCount r = Some n)
      /\ newDishes r = Some true).
Proof.
  unfold saveToSupabase, bind.
  destruct (checkForExistingUserScan_frame userId
              (sr_imageHash structuredResult) w) as [v E1].
  rewrite E1. destruct v as [es |].
  - unfold ret. simpl. intros [= <-]. left. simpl. auto.
  - set (w1 := after w (db w) _).
    destruct (ensureUserExists_frame userId w1)
      as (outcome & db' & sent & E2 & _).
    rewrite E2. destruct outcome as [e | b]; [discriminate |].
    set (w2 := after w1 db' sent).
    destruct (checkForExistingCanonicalMenu_frame
                (sr_contentHash structuredResult) w2) as [v2 E3].
    rewrite E3. destruct v2 as [ecm |].
    + unfold try_catch, bind, request, rethrow, throw, ret, insert_scan.
      destruct (on_scanInsert env) as [[e | msg] |]; simpl; try discriminate.
      intros [= <-]. right. left. simpl. eauto 10.
    + unfold try_catch, bind, request, rethrow, throw, ret, insert_canonical,
        insert_scan, update_first_scan.
      destruct (on_canonicalInsert env) as [[e | msg] |]; cbn -[insertBatches];
        try discriminate.
      match goal with
      | |- context [existsb ?f ?l] => destruct (existsb f l)
      end; cbn -[insertBatches]; try discriminate.
      destruct (on_scanInsert env) as [[e | msg] |]; cbn -[insertBatches];
        try discriminate.
      destruct (on_firstScanUpdate env) as [[e | msg] |]; cbn -[insertBatches];
        try discriminate;
        match goal with
        | |- context [insertBatches ?a ?b ?c ?d ?e ?f ?g] =>
            destruct (insertBatches a b c d e f g) as [[err | acc] w3]
        end; try discriminate;
        intros [= <-]; right; right; simpl; eauto 10.
Qed.

(** C6 (as amended). On the path that creates a canonical menu, an error
    answer to the insert into [canonical_menus] (a uniqueness conflict on
    [content_hash] included, whether reported to this call only or caused
    by a row already stored) makes [saveToSupabase] throw
    "Canonical menu insert failed: ..."; the insert is the last request
    sent, so nothing is read again, and the three tables are unchanged. *)
Theorem C6_canonical_insert_conflict_is_raised
    (structuredResult : StructuredResult) (userId : string) (w : World)
    (e : PgError) :
  fst (checkForExistingUserScan env userId (sr_imageHash structuredResult) w)
    = inr None ->
  fst (ensureUserExists env userId w) = inr true ->
  fst (checkForExistingCanonicalMenu env (sr_contentHash structuredResult) w)
    = inr None ->
  (on_canonicalInsert env = Some (Reports e)
   \/ (on_canonicalInsert env = None
       /\ e = unique_violation
       /\ exists row, In row (canonical_menus (db w))
                      /\ cm_content_hash row = sr_contentHash structuredResult)) ->
  let run := saveToSupabase env structuredResult userId w in
  fst run = inl {| Ocr.error_message :=
                     "Canonical menu insert failed: " ++ message e |}
  /\ canonical_menus (db (snd run)) = canonical_menus (db w)
  /\ menu_scan (db (snd run)) = menu_scan (db w)
  /\ menu_dishes (db (snd run)) = menu_dishes (db w)
  /\ exists before,
       calls (snd run) =
         before ++ [InsertCanonical (sr_contentHash structuredResult)].
Proof.
  intros Hdup Hens Hcan Hconf run. subst run.
  unfold saveToSupabase, bind.
  set (h := sr_imageHash structuredResult) in *.
  set (ch := sr_contentHash structuredResult) in *.
  destruct (checkForExistingUserScan_frame userId h w) as [v E1].
  rewrite E1 in Hdup |- *. simpl in Hdup. injection Hdup as ->.
  set (w1 := after w (db w) _).
  destruct (ensureUserExists_frame userId w1)
    as (outcome & db' & sent & E2 & Hc & Hs & Hd & Hsent).
  rewrite (ensureUserExists_value userId w w1 eq_refl), E2 in Hens.
  simpl in Hens. subst outcome. rewrite E2.
  simpl in Hc, Hs, Hd.
  set (w2 := after w1 db' sent).
  destruct (checkForExistingCanonicalMenu_frame ch w2) as [v2 E3].
  assert (v2 = None) as ->.
  { assert (fst (checkForExistingCanonicalMenu env ch w2) = inr None) as H.
    { rewrite <- Hcan. apply checkForExistingCanonicalMenu_value.
      simpl. exact Hc. }
    rewrite E3 in H. simpl in H. congruence. }
  rewrite E3.
  unfold try_catch, bind, request, rethrow, throw, ret, insert_canonical.
  destruct Hconf as [Hf | [Hf [-> [row [Hrow Hhash]]]]]; rewrite Hf.
  - simpl. repeat split; auto. eexists. reflexivity.
  - cbn -[insertBatches existsb].
    assert (existsb (has_content_hash ch) (canonical_menus db') = true) as Hex.
    { apply existsb_exists. exists row. split; [rewrite Hc; exact Hrow |].
      apply String.eqb_eq. exact Hhash. }
    rewrite Hex. simpl. repeat split; auto. eexists. reflexivity.
Qed.

Lemma number_from_length {A} (l : list A) : forall i,
  List.length (number_from i l) = List.length l.
Proof. induction l as [| a l IH]; intros i; simpl; [| rewrite IH]; reflexivity. Qed.

Lemma batch_count_step total b :
  b * BATCH_SIZE < total ->
  batch_count total - b = S (batch_count total - S b).
Proof.
  unfold batch_count, BATCH_SIZE. intros H.
  pose proof (Nat.div_mod_eq (total + (10 - 1)) 10) as D.
  pose proof (Nat.mod_upper_bound (total + (10 - 1)) 10) as U.
  lia.
Qed.

Lemma batch_count_done total b :
  total <= b * BATCH_SIZE -> batch_count total - b = 0.
Proof.
  unfold batch_count, BATCH_SIZE. intros H.
  pose proof (Nat.div_mod_eq (total + (10 - 1)) 10) as D.
  pose proof (Nat.mod_upper_bound (total + (10 - 1)) 10) as U.
  lia.
Qed.

Lemma committed_from_S total b n :
  committed_from env total b (S n) =
    match on_dishInsert env b with
    | None => batch_rows total b
    | Some _ => 0
    end + committed_from env total (S b) n.
Proof. reflexivity. Qed.

Lemma batch_calls_from_S total b n :
  batch_calls_from total b (S n) =
    InsertDishes b (batch_rows total b) :: batch_calls_from total (S b) n.
Proof. reflexivity. Qed.

(** The batch loop, started at batch [b] with enough fuel, in a world where
    each dish insert is either carried out or answered by an error: it
    returns, every remaining batch is sent, and the count grows by the rows
    of the batches that were carried out. *)
Lemma insertBatches_run canonicalId allDishes :
  (forall k msg, on_dishInsert env k <> Some (Rejects msg)) ->
  forall fuel b acc w,
    List.length allDishes <= fuel + b ->
    let total := List.length allDishes in
    let n := batch_count total - b in
    exists errs db',
      insertBatches env canonicalId allDishes fuel (b * BATCH_SIZE) acc w =
        (inr (fst acc + committed_from env total b n, errs),
         after w db' (batch_calls_from total b n))
      /\ List.length (menu_dishes db') =
           List.length (menu_dishes (db w)) + committed_from env total b n
      /\ user_profile db' = user_profile (db w)
      /\ canonical_menus db' = canonical_menus (db w)
      /\ menu_scan db' = menu_scan (db w).
Proof.
  intros Hrej fuel.
  induction fuel as [| fuel IH]; intros b acc w Hfuel total n; subst total n.
  - assert (List.length allDishes <= b * BATCH_SIZE) as Hdone
      by (unfold BATCH_SIZE; lia).
    rewrite (batch_count_done _ _ Hdone).
    apply Nat.ltb_ge in Hdone. cbn [insertBatches]. rewrite Hdone.
    exists (snd acc), (db w). unfold ret, committed_from, batch_calls_from.
    simpl. rewrite Nat.add_0_r, after_nothing. destruct acc; auto.
  - cbn [insertBatches].
    destruct (Nat.ltb_spec (b * BATCH_SIZE) (List.length allDishes)) as [Hlt | Hge].
    + rewrite (batch_count_step _ _ Hlt).
      rewrite committed_from_S, batch_calls_from_S.
      assert (b * BATCH_SIZE / BATCH_SIZE = b) as Hdiv
        by (apply Nat.div_mul; unfold BATCH_SIZE; lia).
      rewrite Hdiv.
      assert (b * BATCH_SIZE + BATCH_SIZE = S b * BATCH_SIZE) as Hnext
        by (unfold BATCH_SIZE; lia).
      rewrite Hnext.
      set (batch := map (fun d => dish_row env canonicalId (fst d) (snd d))
                      (number_from (b * BATCH_SIZE)
                         (slice (b * BATCH_SIZE) (S b * BATCH_SIZE) allDishes))).
      assert (List.length batch = batch_rows (List.length allDishes) b) as Hlen.
      { subst batch. rewrite length_map, number_from_length.
        unfold slice. rewrite length_firstn, length_skipn.
        unfold batch_rows, BATCH_SIZE. lia. }
      rewrite Hlen.
      unfold bind, request.
      destruct (on_dishInsert env b) as [[e | msg] |] eqn:Hb.
      * cbn [error error_response fst snd].
        destruct (IH (S b) (fst acc, snd acc ++ [e])
                    {| db := db w;
                       calls := calls w
                                ++ [InsertDishes b
                                      (batch_rows (List.length allDishes) b)] |})
          as (errs & db' & E & Hd & Hu & Hc & Hs); [lia |].
        cbn [fst snd db] in *.
        exists errs, db'. rewrite E. unfold after. cbn [calls db].
        rewrite <- app_assoc. simpl. repeat split; auto.
      * exfalso. exact (Hrej b msg Hb).
      * unfold insert_dishes.
        cbn [error ok_response data fst snd].
        rewrite length_map, Hlen.
        destruct (IH (S b)
                    (fst acc + batch_rows (List.length allDishes) b, snd acc)
                    {| db := {| user_profile := user_profile (db w);
                                canonical_menus := canonical_menus (db w);
                                menu_scan := menu_scan (db w);
                                menu_dishes := menu_dishes (db w) ++ batch |};
                       calls := calls w
                                ++ [InsertDishes b
                                      (batch_rows (List.length allDishes) b)] |})
          as (errs & db' & E & Hd & Hu & Hc & Hs); [lia |].
        cbn [fst snd db menu_dishes user_profile canonical_menus menu_scan] in *.
        exists errs, db'. rewrite E. unfold after. cbn [calls db].
        rewrite <- app_assoc, Nat.add_assoc. simpl.
        repeat split; auto.
        rewrite Hd, length_app, Hlen. lia.
    + rewrite (batch_count_done _ _ Hge).
      exists (snd acc), (db w). unfold ret, committed_from, batch_calls_from.
      simpl. rewrite Nat.add_0_r, after_nothing. destruct acc; auto.
Qed.

Lemma countDishes_from (cats : list Category) : forall start,
  fold_left
    (fun sum category =>
       sum + match cat_dishes category with
             | Some dishes => List.length dishes
             | None => 0
             end)
    cats start =
  start + List.length
            (flat_map
               (fun category =>
                  match cat_dishes category with
                  | Some dishes => map (fun dish => (dish, cat_name category)) dishes
                  | None => []
                  end)
               cats).
Proof.
  induction cats as [| c cats IH]; intros start; simpl; [lia |].
  rewrite IH, length_app.
  destruct (cat_dishes c); simpl; [rewrite length_map |]; lia.
Qed.

Lemma collectDishes_length menu :
  List.length (collectDishes menu) = countDishes menu.
Proof. unfold countDishes, collectDishes. rewrite countDishes_from. reflexivity. Qed.

Lemma committed_from_le total : forall n b,
  committed_from env total b n + b * BATCH_SIZE <= Nat.max total (b * BATCH_SIZE).
Proof.
  induction n as [| n IH]; intros b.
  - unfold committed_from. simpl. lia.
  - rewrite committed_from_S. specialize (IH (S b)).
    unfold batch_rows, BATCH_SIZE in *.
    destruct (on_dishInsert env b); lia.
Qed.

(** The path that creates a canonical menu, in a world where the required
    writes are carried out and every dish insert is either carried out or
    answered by an error. *)
Lemma novel_path_run
    (structuredResult : StructuredResult) (userId : string) (w : World) :
  fst (checkForExistingUserScan env userId (sr_imageHash structuredResult) w)
    = inr None ->
  fst (ensureUserExists env userId w) = inr true ->
  fst (checkForExistingCanonicalMenu env (sr_contentHash structuredResult) w)
    = inr None ->
  on_canonicalInsert env = None ->
  existsb (has_content_hash (sr_contentHash structuredResult))
    (canonical_menus (db w)) = false ->
  on_scanInsert env = None ->
  (forall msg, on_firstScanUpdate env <> Some (Rejects msg)) ->
  (forall b msg, on_dishInsert env b <> Some (Rejects msg)) ->
  let total := countDishes (sr_structuredData structuredResult) in
  let run := saveToSupabase env structuredResult userId w in
  fst run = inr {| scanId := uuidv4 env;
                   method := "new_canonical_menu";
                   existingScan := None;
                   canonicalId := Some (canonical_uuid env);
                   existingCanonicalMenuFirstScanId := None;
                   dishCount := Some (committed_rows env total);
                   newDishes := Some true |}
  /\ List.length (menu_dishes (db (snd run))) =
       List.length (menu_dishes (db w)) + committed_rows env total
  /\ filter is_dish_insert (calls (snd run)) =
       filter is_dish_insert (calls w) ++ batch_calls total
  /\ (exists row, In row (canonical_menus (db (snd run)))
                  /\ cm_id row = canonical_uuid env
                  /\ cm_dish_count row = total)
  /\ committed_rows env total <= total.
Proof.
  intros Hdup Hens Hcan Hci Hfree Hsi Hup Hrej total run. subst run.
  assert (committed_rows env total <= total) as Hbound.
  { unfold committed_rows.
    pose proof (committed_from_le total (batch_count total) 0). simpl in H. lia. }
  unfold saveToSupabase, bind.
  set (h := sr_imageHash structuredResult) in *.
  set (ch := sr_contentHash structuredResult) in *.
  destruct (checkForExistingUserScan_frame userId h w) as [v E1].
  rewrite E1 in Hdup |- *. simpl in Hdup. injection Hdup as ->.
  set (w1 := after w (db w) _).
  destruct (ensureUserExists_frame userId w1)
    as (outcome & db' & sent & E2 & Hc & Hs & Hd & Hsent).
  rewrite (ensureUserExists_value userId w w1 eq_refl), E2 in Hens.
  simpl in Hens. subst outcome. rewrite E2.
  simpl in Hc, Hs, Hd.
  pose proof (filter_dish_insert_ensure _ _ Hsent) as Fsent.
  assert (filter is_dish_insert
            (if truthy h then [SelectUserScan userId h] else []) = []) as F1
    by (apply filter_dish_insert_lookup; reflexivity).
  set (w2 := after w1 db' sent).
  destruct (checkForExistingCanonicalMenu_frame ch w2) as [v2 E3].
  assert (v2 = None) as ->.
  { assert (fst (checkForExistingCanonicalMenu env ch w2) = inr None) as H.
    { rewrite <- Hcan. apply checkForExistingCanonicalMenu_value.
      simpl. exact Hc. }
    rewrite E3 in H. simpl in H. congruence. }
  rewrite E3.
  assert (filter is_dish_insert
            (if truthy ch then [SelectCanonical ch] else []) = []) as F3
    by (apply filter_dish_insert_lookup; reflexivity).
  unfold try_catch, bind, request, rethrow, throw, ret, insert_canonical,
    insert_scan, update_first_scan.
  rewrite Hci, Hsi. cbn -[insertBatches existsb filter].
  rewrite Hc, Hfree. cbn -[insertBatches existsb filter].
  set (allDishes := collectDishes (sr_structuredData structuredResult)).
  assert (List.length allDishes = total) as Hall
    by apply collectDishes_length.
  set (row0 := {| cm_id := canonical_uuid env; cm_content_hash := ch;
                  cm_dish_count := total; cm_created_at := now_canonical env;
                  cm_first_scan_id := None |}).
  destruct (on_firstScanUpdate env) as [[e | msg] |] eqn:Hu;
    [ | exfalso; exact (Hup msg eq_refl) | ];
    cbn -[insertBatches existsb filter]; rewrite Hall;
    match goal with
    | |- context [insertBatches env ?c ?a ?f 0 ?acc ?w0] =>
        destruct (insertBatches_run c a Hrej f 0 acc w0)
          as (errs & db3 & E4 & H4d & H4u & H4c & H4s);
          [lia |]
    end;
    rewrite Nat.sub_0_r, Hall in E4, H4d; simpl in E4, H4d, H4c;
    fold (committed_rows env total) in E4, H4d;
    fold (batch_calls total) in E4;
    rewrite E4; cbn -[filter existsb];
    rewrite !filter_app, F1, Fsent, F3, H4c; cbn [filter is_dish_insert app];
    rewrite H4d, Hd;
    (assert (filter is_dish_insert (batch_calls total) = batch_calls total) as ->;
     [ unfold batch_calls, batch_calls_from;
       induction (seq 0 (batch_count total)) as [| k l IHl];
       cbn [map filter is_dish_insert];
       [reflexivity | rewrite IHl; reflexivity] | ]);
    rewrite ?app_nil_r; repeat split; auto.
  - exists row0. split; [apply in_or_app; right; left; reflexivity | auto].
  - exists {| cm_id := canonical_uuid env; cm_content_hash := ch;
              cm_dish_count := total; cm_created_at := now_canonical env;
              cm_first_scan_id := Some (uuidv4 env) |}.
    split; [| auto].
    rewrite map_app. apply in_or_app. right. simpl.
    rewrite String.eqb_refl. left. reflexivity.
Qed.

End PersistFacts.

(** C2, at a concrete run: user A scans image X a second time. *)
Lemma C2_user_duplicate_returns_prior_scan_without_writes_witness :
  exists prior,
    In prior (menu_scan (db Scenarios.after_first_scan))
    /\ ms_user_id prior = "user-a"
    /\ ms_image_hash prior = "img-x"
    /\ (forall r, In r (menu_scan (db Scenarios.after_first_scan)) ->
                  ms_user_id r = "user-a" -> ms_image_hash r = "img-x" ->
                  (ms_scanned_at r <= ms_scanned_at prior)%N)
    /\ Persist.saveToSupabase Scenarios.quiet Scenarios.scanned "user-a"
         Scenarios.after_first_scan =
         (inr {| Persist.scanId := ms_id prior;
                 Persist.method := "duplicate_image_hash";
                 Persist.existingScan := Some true;
                 Persist.canonicalId := None;
                 Persist.existingCanonicalMenuFirstScanId := None;
                 Persist.dishCount := None;
                 Persist.newDishes := None |},
          {| db := db Scenarios.after_first_scan;
             calls := [SelectUserScan "user-a" "img-x"] |}).
Proof.
  apply (C2_user_duplicate_returns_prior_scan_without_writes Scenarios.quiet
           Scenarios.scanned "user-a" Scenarios.after_first_scan).
  - reflexivity.
  - reflexivity.
  - exists Scenarios.first_scan. simpl. auto.
Defined.

(** C2 (as stated) fails, in two ways.  User A has scanned image X; the
    look-up by image hash meets a transient error, which the look-up reads
    as no scan found: the call goes on, stores a second scan of user A and
    image X and returns [canonical_menu_reuse].  And a stored scan without
    an image hash is never looked up: a second call without an image hash
    stores a second scan too. *)
Lemma C2_prior_scan_missed_adds_a_second_scan :
  let failed := Persist.saveToSupabase Scenarios.scan_lookup_down
                  Scenarios.scanned "user-a" Scenarios.after_first_scan in
  let skipped := Persist.saveToSupabase Scenarios.quiet MoreScenarios.unhashed
                   "user-a" MoreScenarios.after_unhashed_scan in
  (exists prior,
      menu_scan (db Scenarios.after_first_scan) = [prior]
      /\ ms_user_id prior = "user-a"
      /\ ms_image_hash prior = Persist.sr_imageHash Scenarios.scanned
      /\ exists r second,
           fst failed = inr r
           /\ Persist.method r = "canonical_menu_reuse"
           /\ Persist.scanId r <> ms_id prior
           /\ menu_scan (db (snd failed)) = [prior; second]
           /\ ms_user_id second = "user-a"
           /\ ms_image_hash second = Persist.sr_imageHash Scenarios.scanned)
  /\ (exists prior,
        menu_scan (db MoreScenarios.after_unhashed_scan) = [prior]
        /\ ms_user_id prior = "user-a"
        /\ ms_image_hash prior = Persist.sr_imageHash MoreScenarios.unhashed
        /\ exists r second,
             fst skipped = inr r
             /\ Persist.method r = "canonical_menu_reuse"
             /\ Persist.scanId r <> ms_id prior
             /\ menu_scan (db (snd skipped)) = [prior; second]
             /\ ms_user_id second = "user-a"
             /\ ms_image_hash second
                = Persist.sr_imageHash MoreScenarios.unhashed).
Proof.
  split; eexists; (split; [reflexivity |]); (split; [reflexivity |]);
    (split; [reflexivity |]); eexists; eexists;
    (split; [vm_compute; reflexivity |]); (split; [reflexivity |]);
    (split; [discriminate |]); (split; [vm_compute; reflexivity |]);
    split; reflexivity.
Qed.

(** C4 (as amended), at a concrete run: user B scans another photograph of
    the menu that user A scanned. *)
Lemma C4_canonical_match_adds_one_scan_and_no_dishes_witness :
  let run := Persist.saveToSupabase Scenarios.quiet Scenarios.scanned_by_b
               "user-b" Scenarios.after_first_scan in
  menu_dishes (db (snd run)) = []
  /\ fst run = inr {| Persist.scanId := "scan-2";
                      Persist.method := "canonical_menu_reuse";
                      Persist.existingScan := None;
                      Persist.canonicalId := Some "menu-1";
                      Persist.existingCanonicalMenuFirstScanId := None;
                      Persist.dishCount := Some 25;
                      Persist.newDishes := Some false |}
  /\ exists s,
       menu_scan (db (snd run)) = [Scenarios.first_scan; s]
       /\ ms_id s = "scan-2"
       /\ ms_user_id s = "user-b"
       /\ ms_image_hash s = "img-y"
       /\ ms_canonical_menu_id s = "menu-1".
Proof.
  destruct (C4_canonical_match_adds_one_scan_and_no_dishes Scenarios.quiet
              Scenarios.scanned_by_b "user-b" Scenarios.after_first_scan
              {| cs_id := "menu-1"; cs_dish_count := 25; cs_created_at := 1000 |}
              eq_refl eq_refl)
    as (Hd & _ & _ & _ & Hr & s & Hs & Hid & Hu & Hh & Hc & _).
  split; [exact Hd |]. split; [exact Hr |].
  exists s. split; [exact Hs |]. repeat split; assumption.
Defined.

(** C4 (as stated) fails: user B scans the menu that user A scanned, the
    call is classified as a canonical match, and the insert of the scan
    meets a transient error.  The call throws; no scan is stored and no
    result is returned. *)
Lemma C4_failed_scan_insert_adds_no_scan :
  let w := Scenarios.after_first_scan in
  let run := Persist.saveToSupabase MoreScenarios.scan_insert_down
               Scenarios.scanned_by_b "user-b" w in
  fst (Persist.checkForExistingUserScan MoreScenarios.scan_insert_down
         "user-b" (Persist.sr_imageHash Scenarios.scanned_by_b) w) = inr None
  /\ fst (Persist.checkForExistingCanonicalMenu MoreScenarios.scan_insert_down
            (Persist.sr_contentHash Scenarios.scanned_by_b) w) =
       inr (Some {| cs_id := "menu-1"; cs_dish_count := 25;
                    cs_created_at := 1000 |})
  /\ (exists row, In row (canonical_menus (db w))
                  /\ cm_id row = "menu-1"
                  /\ cm_content_hash row
                     = Persist.sr_contentHash Scenarios.scanned_by_b)
  /\ fst run =
       inl {| Ocr.error_message :=
                "Scan insert failed: canceling statement due to statement timeout" |}
  /\ menu_scan (db (snd run)) = menu_scan (db w).
Proof.
  split; [reflexivity |]. split; [reflexivity |]. split.
  - eexists. split; [left; reflexivity |]. split; reflexivity.
  - split; reflexivity.
Qed.

(** C6 (as amended), at a concrete run: the insert is refused with a
    uniqueness conflict. *)
Lemma C6_canonical_insert_conflict_is_raised_witness :
  fst (Persist.saveToSupabase Scenarios.lost_race Scenarios.scanned "user-b"
         Scenarios.fresh) =
    inl {| Ocr.error_message :=
             "Canonical menu insert failed: duplicate key value violates unique constraint" |}.
Proof.
  apply (C6_canonical_insert_conflict_is_raised Scenarios.lost_race
           Scenarios.scanned "user-b" Scenarios.fresh unique_violation).
  - reflexivity.
  - reflexivity.
  - reflexivity.
  - left. reflexivity.
Defined.

(** C6 (as stated) fails: the call that loses the race for the canonical
    row does not proceed as a canonical match, it throws. *)
Lemma C6_lost_race_is_a_hard_failure :
  ~ exists r,
      fst (Persist.saveToSupabase Scenarios.lost_race Scenarios.scanned
             "user-b" Scenarios.fresh) = inr r
      /\ Persist.method r = "canonical_menu_reuse".
Proof.
  intros [r [H _]]. vm_compute in H. discriminate.
Qed.

(** C9 (as stated) fails: the result of a repeated scan has no canonical
    id, no dish count and no [newDishes] flag. *)
Lemma C9_duplicate_result_lacks_fields :
  exists r,
    fst (Persist.saveToSupabase Scenarios.quiet Scenarios.scanned "user-a"
           Scenarios.after_first_scan) = inr r
    /\ Persist.method r = "duplicate_image_hash"
    /\ Persist.canonicalId r = None
    /\ Persist.dishCount r = None
    /\ Persist.newDishes r = None.
Proof.
  eexists. split; [vm_compute; reflexivity |]. simpl. auto.
Qed.

(** C9 (as amended), at the result of a concrete canonical match. *)
Lemma C9_result_shape_by_method_witness :
  let r := {| Persist.scanId := "scan-2";
              Persist.method := "canonical_menu_reuse";
              Persist.existingScan := None;
              Persist.canonicalId := Some "menu-1";
              Persist.existingCanonicalMenuFirstScanId := None;
              Persist.dishCount := Some 25;
              Persist.newDishes := Some false |} in
  (Persist.method r = "duplicate_image_hash"
   /\ Persist.existingScan r = Some true
   /\ Persist.canonicalId r = None /\ Persist.dishCount r = None
   /\ Persist.newDishes r = None)
  \/ (Persist.method r = "canonical_menu_reuse"
      /\ Persist.existingScan r = None
      /\ (exists c, Persist.canonicalId r = Some c)
      /\ (exists n, Persist.dishCount r = Some n)
      /\ Persist.newDishes r = Some false)
  \/ (Persist.method r = "new_canonical_menu"
      /\ Persist.existingScan r = None
      /\ (exists c, Persist.canonicalId r = Some c)
      /\ (exists n, Persist.dishCount r = Some n)
      /\ Persist.newDishes r = Some true).
Proof.
  intros r.
  apply (C9_result_shape_by_method Scenarios.quiet Scenarios.scanned_by_b
           "user-b" Scenarios.after_first_scan r).
  reflexivity.
Defined.


(** ** [ensureUserExists] *)

Lemma filter_nil_existsb {A} (f : A -> bool) (l : list A) :
  filter f l = [] -> existsb f l = false.
Proof.
  induction l as [| a l IH]; simpl; [reflexivity |].
  destruct (f a); [discriminate | exact IH].
Qed.

(** The two steps of a caller, taken without interruption, are the call. *)
Lemma steps_are_ensureUserExists env userId w :
  let (p, w1) := Persist.step env userId Persist.NotStarted w in
  Persist.step env userId p w1 =
    (Persist.Finished (fst (Persist.ensureUserExists env userId w)),
     snd (Persist.ensureUserExists env userId w)).
Proof.
  unfold Persist.step, Persist.ensureUserExists, Persist.try_catch,
    Persist.bind, Persist.rethrow.
  destruct (Persist.ensureUserExists_check env userId w) as [[e | x] w1];
    [reflexivity |].
  destruct (Persist.ensureUserExists_create env userId x w1) as [[e | b] w2];
    reflexivity.
Qed.

(** C7 (as amended). Called one after the other with no failing request,
    on a store with at most one profile of the user, two calls of
    [ensureUserExists] both return, leave exactly one profile, and the
    second call changes nothing.  An insert that meets a profile created in
    the meantime is refused by the store, and that conflict is thrown as
    "User creation failed: ...". *)
Theorem C7_ensure_user_sequentially_idempotent_conflict_raised :
  (forall env1 env2 userId w,
      Persist.on_userSelect env1 = None -> Persist.on_userInsert env1 = None ->
      Persist.on_userSelect env2 = None -> Persist.on_userInsert env2 = None ->
      List.length (profiles_of userId (db w)) <= 1 ->
      let first := Persist.ensureUserExists env1 userId w in
      let second := Persist.ensureUserExists env2 userId (snd first) in
      fst first = inr true
      /\ fst second = inr true
      /\ List.length (profiles_of userId (db (snd second))) = 1
      /\ db (snd second) = db (snd first))
  /\ (forall env userId w,
      Persist.on_userInsert env = None ->
      (exists row, In row (user_profile (db w)) /\ up_id row = userId) ->
      Persist.ensureUserExists_create env userId None w =
        (inl {| Ocr.error_message :=
                  "User creation failed: " ++ message unique_violation |},
         Persist.after w (db w) [InsertUser userId])).
Proof.
  split.
  - intros env1 env2 userId w S1 I1 S2 I2 Hle first second.
    subst first second.
    unfold Persist.ensureUserExists, Persist.ensureUserExists_check,
      Persist.ensureUserExists_create, Persist.try_catch, Persist.bind,
      Persist.request, Persist.rethrow, Persist.throw, Persist.ret,
      select_user, insert_user.
    rewrite S1. simpl.
    destruct (profiles_of userId (db w)) as [| r [| r' l]] eqn:E;
      [| | simpl in Hle; lia]; simpl.
    + rewrite I1. simpl. rewrite (filter_nil_existsb _ _ E). simpl.
      rewrite S2. unfold profiles_of in *. simpl. rewrite filter_app, E. simpl.
      rewrite String.eqb_refl. simpl. repeat split; auto.
      rewrite filter_app, E. simpl. rewrite String.eqb_refl. reflexivity.
    + rewrite S2. simpl. rewrite E. simpl. rewrite E. auto.
  - intros env userId w I [row [Hin Hid]].
    unfold Persist.ensureUserExists_create, Persist.bind, Persist.request,
      Persist.throw, insert_user.
    rewrite I. simpl.
    assert (existsb (fun r => String.eqb (up_id r) userId) (user_profile (db w))
            = true) as ->.
    { apply existsb_exists. exists row. split; [exact Hin |].
      apply String.eqb_eq. exact Hid. }
    reflexivity.
Qed.

(** C7 (as amended), at a concrete run: two calls in a row for a new user. *)
Lemma C7_ensure_user_sequentially_idempotent_conflict_raised_witness :
  let first := Persist.ensureUserExists Scenarios.quiet "user-n" Scenarios.fresh in
  let second := Persist.ensureUserExists Scenarios.quiet "user-n" (snd first) in
  fst first = inr true
  /\ fst second = inr true
  /\ List.length (profiles_of "user-n" (db (snd second))) = 1
  /\ db (snd second) = db (snd first).
Proof.
  apply (proj1 C7_ensure_user_sequentially_idempotent_conflict_raised
           Scenarios.quiet Scenarios.quiet "user-n" Scenarios.fresh);
    try reflexivity.
  simpl. lia.
Defined.

(** C7 (as stated) fails: when both callers look the user up before either
    creates it, the second insert is refused and that caller gets the
    error. *)
Lemma C7_concurrent_callers_one_fails :
  ~ forall schedule,
      Persist.complete schedule = true ->
      let '(a, b, w') :=
        Persist.run_schedule Scenarios.quiet Scenarios.quiet "user-n" schedule
          Persist.NotStarted Persist.NotStarted Scenarios.fresh in
      a = Persist.Finished (inr true)
      /\ b = Persist.Finished (inr true)
      /\ List.length (profiles_of "user-n" (db w')) = 1.
Proof.
  intros H.
  specialize (H [Persist.CallerA; Persist.CallerB; Persist.CallerA;
                 Persist.CallerB] eq_refl).
  vm_compute in H. destruct H as [_ [H _]]. discriminate.
Qed.

(** ** Dish batches *)



(** ** The content hash *)

Section Whitespace.

Import ContentHash.

Lemma trimEnd_blank s : forallb is_space s = true -> trimEnd s = [].
Proof.
  induction s as [| c r IH]; simpl; [reflexivity |].
  intros H. apply andb_true_iff in H. destruct H as [Hc Hr].
  rewrite (IH Hr), Hc. reflexivity.
Qed.

Lemma trimEnd_nil_blank s : trimEnd s = [] -> forallb is_space s = true.
Proof.
  induction s as [| c r IH]; simpl; [reflexivity |].
  destruct (trimEnd r) as [| x xs]; [| discriminate].
  destruct (is_space c); [| discriminate]. intros _. simpl. auto.
Qed.

Lemma trimStart_blank s : forallb is_space s = true -> trimStart s = [].
Proof.
  induction s as [| c r IH]; simpl; [reflexivity |].
  intros H. apply andb_true_iff in H. destruct H as [Hc Hr].
  rewrite Hc. auto.
Qed.

Lemma trimEnd_cons_word c r :
  is_space c = false -> trimEnd (c :: r) = c :: trimEnd r.
Proof. intros H. simpl. destruct (trimEnd r); [rewrite H |]; reflexivity. Qed.

Lemma trimEnd_app_blank x r :
  forallb is_space r = true -> trimEnd (x ++ r) = trimEnd x.
Proof.
  intros H. induction x as [| c x IH]; simpl.
  - apply trimEnd_blank. exact H.
  - rewrite IH. reflexivity.
Qed.

Lemma trimStart_blank_app l x :
  forallb is_space l = true -> trimStart (l ++ x) = trimStart x.
Proof.
  induction l as [| c l IH]; simpl; [reflexivity |].
  intros H. apply andb_true_iff in H. destruct H as [Hc Hl].
  rewrite Hc. auto.
Qed.

Lemma trim_app_blank x r :
  forallb is_space r = true -> trim (x ++ r) = trim x.
Proof.
  intros H. unfold trim. induction x as [| c x IH]; simpl.
  - rewrite (trimStart_blank _ H). reflexivity.
  - destruct (is_space c); [exact IH |].
    change (c :: x ++ r) with ((c :: x) ++ r).
    apply trimEnd_app_blank. exact H.
Qed.

(** Whitespace around a text does not survive [trim]. *)
Lemma trim_padding a b : same_but_padding a b -> trim a = trim b.
Proof.
  intros [core l1 r1 l2 r2 Hl1 Hr1 Hl2 Hr2].
  transitivity (trim core); [| symmetry]; unfold trim;
    rewrite trimStart_blank_app by assumption;
    apply trim_app_blank; assumption.
Qed.

Lemma words_blank s : forallb is_space s = true -> words s = [].
Proof.
  induction s as [| c r IH]; simpl; [reflexivity |].
  intros H. apply andb_true_iff in H. destruct H as [Hc Hr].
  rewrite Hc. auto.
Qed.

Lemma words_starts_with_word d r :
  is_space d = false -> exists w ws, words (d :: r) = w :: ws.
Proof.
  intros H. simpl. rewrite H. destruct r as [| e r']; [eauto |].
  destruct (is_space e); [eauto |].
  destruct (words (e :: r')); eauto.
Qed.

Lemma words_nil_blank s : words s = [] -> forallb is_space s = true.
Proof.
  induction s as [| c r IH]; [reflexivity |].
  intros H. destruct (is_space c) eqn:Hc.
  - simpl in H. rewrite Hc in H. simpl. rewrite Hc. auto.
  - destruct (words_starts_with_word c r Hc) as [w [ws E]]. congruence.
Qed.

(** Inside a run of whitespace, leading whitespace is skipped as [trim]
    skips it. *)
Lemma collapse_in_run r :
  collapse_from true (trimEnd r) = collapse (trim r).
Proof.
  unfold collapse, trim.
  induction r as [| e r IH]; [reflexivity |].
  destruct (is_space e) eqn:He.
  - simpl trimStart. rewrite He. rewrite <- IH.
    simpl trimEnd. destruct (trimEnd r) as [| x xs] eqn:E.
    + rewrite He. reflexivity.
    + simpl. rewrite He. reflexivity.
  - simpl trimStart. rewrite He.
    rewrite (trimEnd_cons_word e r He). simpl. rewrite He. reflexivity.
Qed.

Lemma collapse_from_space d t :
  is_space d = true ->
  collapse_from false (d :: t) = 32%N :: collapse_from true t.
Proof. intros H. simpl. rewrite H. reflexivity. Qed.

(** [trim] followed by the collapse of whitespace runs leaves the words,
    separated by single spaces. *)
Lemma collapse_trim_words s :
  collapse (trim s) = join (js " ") (words s).
Proof.
  induction s as [| c r IH]; [reflexivity |].
  destruct (is_space c) eqn:Hc.
  - unfold trim in *. simpl. rewrite Hc. exact IH.
  - assert (trim (c :: r) = c :: trimEnd r) as Ht.
    { unfold trim. simpl trimStart. rewrite Hc. apply trimEnd_cons_word, Hc. }
    rewrite Ht. unfold collapse. simpl collapse_from. rewrite Hc.
    destruct r as [| d r']; [simpl; rewrite Hc; reflexivity |].
    destruct (is_space d) eqn:Hd.
    + assert (words (c :: d :: r') = [c] :: words (d :: r')) as Hw
        by (simpl; rewrite Hc, Hd; reflexivity).
      rewrite Hw.
      assert (trim (d :: r') = trim r') as Htd
        by (unfold trim; simpl; rewrite Hd; reflexivity).
      simpl trimEnd. destruct (trimEnd r') as [| x xs] eqn:E.
      * rewrite Hd. simpl collapse_from.
        rewrite (words_blank (d :: r')); [reflexivity |].
        simpl. rewrite Hd. apply trimEnd_nil_blank. exact E.
      * rewrite (collapse_from_space d _ Hd).
        rewrite <- E, collapse_in_run, <- Htd, IH.
        destruct (words (d :: r')) as [| w ws] eqn:Ew.
        -- pose proof (words_nil_blank _ Ew) as B. simpl in B.
           rewrite Hd in B. simpl in B.
           rewrite (trimEnd_blank _ B) in E. discriminate.
        -- reflexivity.
    + assert (trim (d :: r') = trimEnd (d :: r')) as Htd
        by (unfold trim; simpl trimStart; rewrite Hd; reflexivity).
      fold (collapse (trimEnd (d :: r'))). rewrite <- Htd, IH.
      destruct (words_starts_with_word d r' Hd) as [w [ws Ew]].
      assert (words (c :: d :: r') = (c :: w) :: ws) as Hw.
      { change (words (c :: d :: r'))
          with (if is_space c then words (d :: r')
                else if is_space d then [c] :: words (d :: r')
                     else match words (d :: r') with
                          | w0 :: ws0 => (c :: w0) :: ws0
                          | [] => [[c]]
                          end).
        rewrite Hc, Hd, Ew. reflexivity. }
      rewrite Hw, Ew. destruct ws; reflexivity.
Qed.

Lemma same_text_normalized key a b :
  same_text key a b -> normalizeString key a = normalizeString key b.
Proof.
  intros [s | a' b' Hk Hp | a' b' Hk Hw].
  - reflexivity.
  - unfold normalizeString.
    destruct Hk as [-> | ->]; simpl; apply trim_padding; exact Hp.
  - unfold normalizeString. subst key. simpl.
    rewrite !collapse_trim_words, Hw. reflexivity.
Qed.

End Whitespace.

Section KeyOrder.

Import ContentHash.

Lemma ltb_irrefl a : JsStr.ltb a a = false.
Proof.
  induction a as [| x a IH]; simpl; [reflexivity |].
  rewrite N.ltb_irrefl. exact IH.
Qed.

Lemma ltb_trans a : forall b c,
  JsStr.ltb a b = true -> JsStr.ltb b c = true -> JsStr.ltb a c = true.
Proof.
  induction a as [| x a IH]; intros [| y b] [| z c]; simpl; try congruence.
  destruct (N.ltb_spec x y), (N.ltb_spec y x), (N.ltb_spec y z),
    (N.ltb_spec z y), (N.ltb_spec x z), (N.ltb_spec z x);
    try congruence; try lia.
  apply IH.
Qed.

Lemma ltb_total a : forall b,
  a <> b -> JsStr.ltb a b = false -> JsStr.ltb b a = true.
Proof.
  induction a as [| x a IH]; intros [| y b]; simpl; try congruence.
  intros Hne.
  destruct (N.ltb_spec x y), (N.ltb_spec y x); try congruence; try lia.
  assert (x = y) by lia. subst y.
  apply IH. congruence.
Qed.

Lemma ltb_asym a b : JsStr.ltb a b = true -> JsStr.ltb b a = false.
Proof.
  intros H. destruct (JsStr.ltb b a) eqn:E; [| reflexivity].
  pose proof (ltb_trans _ _ _ H E) as T. rewrite ltb_irrefl in T. discriminate.
Qed.

(** Two members with different keys can be inserted in either order. *)
Lemma insert_insert x y l :
  fst x <> fst y -> insert x (insert y l) = insert y (insert x l).
Proof.
  intros Hne. induction l as [| e l IH]; simpl.
  - destruct (JsStr.ltb (fst y) (fst x)) eqn:Eyx.
    + rewrite (ltb_asym _ _ Eyx). reflexivity.
    + rewrite (ltb_total (fst y) (fst x)); [reflexivity | congruence | exact Eyx].
  - destruct (JsStr.ltb (fst e) (fst x)) eqn:Eex,
             (JsStr.ltb (fst e) (fst y)) eqn:Eey; simpl;
      rewrite ?Eex, ?Eey.
    + rewrite IH. reflexivity.
    + assert (JsStr.ltb (fst y) (fst x) = true) as ->; [| reflexivity].
      destruct (list_eq_dec N.eq_dec (fst y) (fst e)) as [E | E].
      * rewrite E. exact Eex.
      * apply ltb_trans with (fst e); [| exact Eex].
        apply ltb_total; [congruence | exact Eey].
    + assert (JsStr.ltb (fst x) (fst y) = true) as ->; [| reflexivity].
      destruct (list_eq_dec N.eq_dec (fst x) (fst e)) as [E | E].
      * rewrite E. exact Eey.
      * apply ltb_trans with (fst e); [| exact Eey].
        apply ltb_total; [congruence | exact Eex].
    + destruct (JsStr.ltb (fst y) (fst x)) eqn:Eyx.
      * rewrite (ltb_asym _ _ Eyx). simpl. rewrite ?Eex. reflexivity.
      * rewrite (ltb_total (fst y) (fst x)); [| congruence | exact Eyx].
        simpl. rewrite ?Eey. reflexivity.
Qed.

(** The sorted members do not depend on the order in which an object
    enumerates its keys. *)
Lemma sortMembers_permutation l l' :
  Permutation l l' -> NoDup (map fst l) -> sortMembers l = sortMembers l'.
Proof.
  induction 1 as [| x l l' Hp IH | x y l | l l' l'' Hp1 IH1 Hp2 IH2];
    intros Hnd; simpl.
  - reflexivity.
  - inversion Hnd; subst. rewrite IH by assumption. reflexivity.
  - apply insert_insert.
    inversion Hnd as [| ? ? Hin _]; subst. intros E. apply Hin. left.
    symmetry. exact E.
  - rewrite IH1 by assumption. apply IH2.
    apply (Permutation_NoDup (Permutation_map fst Hp1) Hnd).
Qed.

Lemma distinct_NoDup keys : distinct keys = true -> NoDup keys.
Proof.
  induction keys as [| k keys IH]; simpl; intros H; [constructor |].
  apply andb_true_iff in H. destruct H as [Hk Hrest].
  constructor; [| auto].
  intros Hin. apply negb_true_iff in Hk.
  assert (existsb (JsStr.eqb k) keys = true) as E.
  { apply existsb_exists. exists k. split; [exact Hin |].
    unfold JsStr.eqb. destruct (list_eq_dec N.eq_dec k k); congruence. }
  congruence.
Qed.

End KeyOrder.

Section StableString.

Import ContentHash.

Lemma stableString_object members :
  stableString (JObject members) =
    js "{"
    ++ join (js ",")
         (map (fun kv => quote (fst kv) ++ js ":" ++ snd kv)
            (sortMembers (map rendered members)))
    ++ js "}".
Proof.
  unfold stableString. cbn [normalizeTextValues stableStringify].
  rewrite map_map. do 5 f_equal.
  apply map_ext. intros [k v]. reflexivity.
Qed.

Lemma stableString_array items :
  stableString (JArray items) =
    js "[" ++ join (js ",") (map stableString items) ++ js "]".
Proof.
  unfold stableString. cbn [normalizeTextValues stableStringify].
  rewrite map_map. reflexivity.
Qed.

Lemma rendered_similar m n :
  fst m = fst n ->
  (similar (snd m) (snd n) -> stableString (snd m) = stableString (snd n)) ->
  similar (snd m) (snd n)
  \/ (exists a b, snd m = JString a /\ snd n = JString b
                  /\ same_text (fst m) a b) ->
  rendered m = rendered n.
Proof.
  destruct m as [k x], n as [k' y]. simpl. intros <- IH [Hs | (a & b & -> & -> & Ht)].
  - unfold rendered. simpl. f_equal.
    destruct x as [| bx | nx | sx | xs | ms].
    all: try (inversion Hs; subst; reflexivity).
    + specialize (IH Hs). inversion Hs; subst. exact IH.
    + specialize (IH Hs). inversion Hs; subst. exact IH.
  - unfold rendered. simpl. rewrite (same_text_normalized k a b Ht). reflexivity.
Qed.

(** Values that the specification regards as the same are serialized to
    the same string. *)
Lemma similar_stableString a :
  wf a = true -> forall b, similar a b -> stableString a = stableString b.
Proof.
  induction a as [| bx | nx | sx | items IH | members IH] using json_induction;
    intros Hwf b Hsim.
  - inversion Hsim. reflexivity.
  - inversion Hsim. reflexivity.
  - inversion Hsim. reflexivity.
  - inversion Hsim. reflexivity.
  - inversion Hsim as [| | | | xs ys Hall |]; subst.
    rewrite !stableString_array. do 3 f_equal.
    simpl in Hwf. clear Hsim.
    induction Hall as [| x y xs ys Hxy Hall IHall]; [reflexivity |].
    simpl in Hwf. apply andb_true_iff in Hwf. destruct Hwf as [Hx Hxs].
    inversion IH; subst. simpl. f_equal; auto.
  - inversion Hsim as [| | | | | ms ns ns' Hperm Hall]; subst.
    rewrite !stableString_object. do 4 f_equal.
    simpl in Hwf. apply andb_true_iff in Hwf. destruct Hwf as [Hkeys Hvals].
    assert (map rendered members = map rendered ns') as Hsame.
    { clear Hperm Hkeys Hsim.
      induction Hall as [| m n ms ns0 [Hk Hmn] Hall IHall]; [reflexivity |].
      simpl in Hvals. apply andb_true_iff in Hvals. destruct Hvals as [Hm Hms].
      inversion IH; subst. simpl. f_equal; [| auto].
      apply rendered_similar; auto. }
    rewrite Hsame. apply sortMembers_permutation.
    + apply Permutation_map. exact Hperm.
    + rewrite <- Hsame. rewrite map_map. simpl.
      apply distinct_NoDup. exact Hkeys.
Qed.

End StableString.

(** C3. Two JSON values (objects with distinct keys, as JavaScript objects
    have) that are the same up to the order of object members, whitespace
    around names and categories, and the whitespace of descriptions have
    the same content hash; and there are menus that differ only in the
    order of the dishes of a category, and menus that differ only in the
    order of their categories, whose content hashes differ. *)
Theorem C3_content_hash_ignores_key_order_and_whitespace_not_array_order :
  (forall a b,
      ContentHash.wf a = true -> ContentHash.similar a b ->
      ContentHash.calculateContentHash a = ContentHash.calculateContentHash b)
  /\ (exists m1 m2,
      ContentHash.same_dishes_reordered m1 m2
      /\ ContentHash.calculateContentHash (ContentHash.menu_json m1)
         <> ContentHash.calculateContentHash (ContentHash.menu_json m2))
  /\ (exists m1 m2,
      ContentHash.same_categories_reordered m1 m2
      /\ ContentHash.calculateContentHash (ContentHash.menu_json m1)
         <> ContentHash.calculateContentHash (ContentHash.menu_json m2)).
Proof.
  split; [| split].
  - intros a b Hwf Hsim. unfold ContentHash.calculateContentHash.
    rewrite (similar_stableString a Hwf b Hsim). reflexivity.
  - exists (Scenarios.menu_of [Scenarios.starters [Scenarios.soup; Scenarios.bread]]),
      (Scenarios.menu_of [Scenarios.starters [Scenarios.bread; Scenarios.soup]]).
    split.
    + split; [reflexivity |]. constructor; [| constructor].
      split; [reflexivity |]. simpl. apply perm_swap.
    + intros H. vm_compute in H. discriminate H.
  - exists (Scenarios.menu_of [Scenarios.starters [Scenarios.soup]; Scenarios.desserts]),
      (Scenarios.menu_of [Scenarios.desserts; Scenarios.starters [Scenarios.soup]]).
    split.
    + split; [reflexivity |]. simpl. apply perm_swap.
    + intros H. vm_compute in H. discriminate H.
Qed.

(** The members of the second value are those of the first in reverse
    order. *)
Ltac reversed_members :=
  match goal with
  | |- ContentHash.similar (ContentHash.JObject _) (ContentHash.JObject ?ns) =>
      apply ContentHash.similar_object with (ns' := rev ns);
      [ apply Permutation_sym, Permutation_rev | cbn [rev app] ]
  end.

Ltac same_member := split; [reflexivity | left; cbn [fst snd]].
Ltac text_member :=
  split; [reflexivity |];
  right; do 2 eexists; split; [reflexivity |]; split; [reflexivity |].

(** C3, at a concrete pair: the same menu read twice. *)
Lemma C3_content_hash_ignores_key_order_and_whitespace_not_array_order_witness :
  ContentHash.calculateContentHash Scenarios.menu_as_read_first =
  ContentHash.calculateContentHash Scenarios.menu_as_read_second.
Proof.
  apply (proj1 C3_content_hash_ignores_key_order_and_whitespace_not_array_order).
  - reflexivity.
  - unfold Scenarios.menu_as_read_first, Scenarios.menu_as_read_second.
    reversed_members.
    constructor; [| constructor; [| constructor]].
    + same_member. reversed_members.
      constructor; [| constructor; [| constructor]].
      * text_member. apply ContentHash.text_name; [left; reflexivity |].
        exact (ContentHash.padded (js "Soho House Toronto") (js " ") [] [] []
                 eq_refl eq_refl eq_refl eq_refl).
      * text_member. apply ContentHash.text_equal.
    + same_member. apply ContentHash.similar_array.
      constructor; [| constructor].
      reversed_members.
      constructor; [| constructor; [| constructor]].
      * text_member. apply ContentHash.text_name; [left; reflexivity |].
        exact (ContentHash.padded (js "STARTERS") [] (js "  ") [] []
                 eq_refl eq_refl eq_refl eq_refl).
      * same_member. apply ContentHash.similar_array.
        constructor; [| constructor].
        reversed_members.
        constructor; [| constructor; [| constructor; [| constructor; [| constructor]]]].
        -- text_member. apply ContentHash.text_name; [left; reflexivity |].
           exact (ContentHash.padded (js "Soup") (js " ") (js " ") [] []
                    eq_refl eq_refl eq_refl eq_refl).
        -- text_member. apply ContentHash.text_description; reflexivity.
        -- same_member. constructor.
        -- same_member. apply ContentHash.similar_array.
           constructor; [constructor | constructor].
Defined.

(** ** Checks of the model on concrete inputs *)

Example trim_keeps_inner_whitespace :
  trim (js "  of   the day ") = js "of   the day".
Proof. reflexivity. Qed.

Example collapse_replaces_runs :
  collapse [9; 97; 32; 10; 98; 32; 32]%N = [32; 97; 32; 98; 32]%N.
Proof. reflexivity. Qed.

Example quote_escapes :
  ContentHash.quote [34; 92; 10; 1; 233]%N =
    [34; 92; 34; 92; 92; 92; 110; 92; 117; 48; 48; 48; 49; 233; 34]%N.
Proof. reflexivity. Qed.

Example utf8_of_pair :
  ContentHash.utf8 [233; 8364; 55357; 56832]%N =
    [195; 169; 226; 130; 172; 240; 159; 152; 128]%N.
Proof. reflexivity. Qed.

Example members_are_sorted_by_key :
  ContentHash.stableString
    (ContentHash.JObject
       [ (js "name", ContentHash.JString (js " Soup "));
         (js "b", ContentHash.JNumber (js "1"));
         (js "a", ContentHash.JArray [ContentHash.JNull;
                                      ContentHash.JBool true]) ]) =
    [123; 34; 97; 34; 58; 91; 110; 117; 108; 108; 44; 116; 114; 117; 101; 93;
     44; 34; 98; 34; 58; 49; 44; 34; 110; 97; 109; 101; 34; 58; 34; 83; 111;
     117; 112; 34; 125]%N.
Proof. vm_compute. reflexivity. Qed.

Example content_hash_of_burger_menu :
  ContentHash.calculateContentHash
    (ContentHash.menu_json Scenarios.burger_menu) =
    "43fb1a14708599ef769020d04e65010eb3d34885d79f1b50a83da8ea646427ee".
Proof. vm_compute. reflexivity. Qed.

Example new_menu_of_25_dishes :
  fst (Persist.saveToSupabase Scenarios.quiet Scenarios.scanned "user-c"
         Scenarios.fresh) =
    inr {| Persist.scanId := "scan-2";
           Persist.method := "new_canonical_menu";
           Persist.existingScan := None;
           Persist.canonicalId := Some "menu-2";
           Persist.existingCanonicalMenuFirstScanId := None;
           Persist.dishCount := Some 25;
           Persist.newDishes := Some true |}.
Proof. vm_compute. reflexivity. Qed.

(** ** Checks of the SHA-256 model against known digests *)

Example sha256_of_empty :
  Sha256.sha256_hex [] =
    "e3b0c44298fc1c149afbf4c8996fb92427ae41e4649b934ca495991b7852b855".
Proof. vm_compute. reflexivity. Qed.

Example sha256_of_abc :
  Sha256.sha256_hex (js "abc") =
    "ba7816bf8f01cfea414140de5dae2223b00361a396177a9cb410ff61f20015ad".
Proof. vm_compute. reflexivity. Qed.

Example sha256_of_two_blocks :
  Sha256.sha256_hex
    (js "abcdbcdecdefdefgefghfghighijhijkijkljklmklmnlmnomnopnopq") =
    "248d6a61d20638b8e5c026930c3e6039a33ce45964ff2167f6ecedd419db06c1".
Proof. vm_compute. reflexivity. Qed.

(** * Further properties of the script *)

(** ** [runOcrWithFallbackChain]: what a result or an error tells *)

Lemma attempt_succeeds_inv a t :
  Ocr.attempt_succeeds a = Some t ->
  exists rt at_,
    a = Ocr.OkResponse (Ocr.CString t) rt at_ true
    /\ Ocr.insufficient (Ocr.CString t) = false.
Proof.
  unfold Ocr.attempt_succeeds.
  destruct a as [| msg | st body | c rt at_ saved]; try discriminate.
  destruct c as [| | t']; try discriminate.
  destruct saved; try discriminate.
  destruct (Ocr.insufficient (Ocr.CString t')) eqn:E; try discriminate.
  intros [= <-]. eauto.
Qed.

Lemma sufficient_text_is_long t :
  Ocr.insufficient (Ocr.CString t) = false -> 20 <= List.length (trim t).
Proof.
  unfold Ocr.insufficient. intros H.
  apply orb_false_iff in H. destruct H as [_ H].
  apply Nat.ltb_ge in H. exact H.
Qed.

(** Either some pass is the first accepted one, or every pass fails. *)
Lemma cascade_cases (world : nat -> Ocr.Attempt) (rest : list Ocr.Model) :
  forall i,
    (exists k m t rt at_,
        nth_error rest k = Some m
        /\ world (i + k) = Ocr.OkResponse (Ocr.CString t) rt at_ true
        /\ Ocr.insufficient (Ocr.CString t) = false
        /\ forall j, j < k -> Ocr.attempt_fails (world (i + j)) = true)
    \/ (forall j, j < List.length rest ->
                  Ocr.attempt_fails (world (i + j)) = true).
Proof.
  induction rest as [| m rest IH]; intros i.
  - right. intros j Hj. simpl in Hj. lia.
  - destruct (Ocr.attempt_succeeds (world i)) as [t |] eqn:E.
    + left. destruct (attempt_succeeds_inv _ _ E) as (rt & at_ & Hw & Hs).
      exists 0, m, t, rt, at_. rewrite Nat.add_0_r.
      repeat split; auto. intros j Hj. lia.
    + assert (Ocr.attempt_fails (world i) = true) as Hf
        by (unfold Ocr.attempt_fails; rewrite E; reflexivity).
      destruct (IH (S i)) as [(k & m' & t & rt & at_ & Hn & Hw & Hs & Hb) | Hall].
      * left. exists (S k), m', t, rt, at_.
        replace (i + S k) with (S i + k) by lia.
        repeat split; auto.
        intros [| j] Hj; [rewrite Nat.add_0_r; exact Hf |].
        replace (i + S j) with (S i + j) by lia. apply Hb. lia.
      * right. intros [| j] Hj; [rewrite Nat.add_0_r; exact Hf |].
        replace (i + S j) with (S i + j) by lia. apply Hall.
        simpl in Hj. lia.
Qed.

(** X1. Whatever the providers answer and whether or not the API key is
    set, the requests that [runOcrWithFallbackChain] sends are those of an
    initial segment of the chain, in the order of the chain: no provider
    is asked twice, none is skipped, and at most one request per provider
    is sent. *)
Theorem ocr_requests_follow_the_chain
    (chain : list Ocr.Model) (apiKey : option string)
    (world : nat -> Ocr.Attempt) (imageBase64 : string) :
  exists n,
    n <= List.length chain
    /\ snd (Ocr.runOcrWithFallbackChainOn chain apiKey world imageBase64) =
         map (Ocr.request_for imageBase64) (firstn n chain).
Proof.
  unfold Ocr.runOcrWithFallbackChainOn.
  destruct (Ocr.key_present apiKey).
  - destruct (cascade_cases world chain 0)
      as [(k & m & t & rt & at_ & Hn & Hw & Hs & Hb) | Hall].
    + exists (S k). split.
      * apply Nat.le_succ_l. apply nth_error_Some. congruence.
      * rewrite (cascade_first_success world imageBase64 chain 0 k m t rt at_);
          auto.
    + exists (List.length chain). split; [lia |].
      rewrite (cascade_all_fail world imageBase64 chain 0 Hall).
      rewrite firstn_all. reflexivity.
  - exists 0. split; [lia | reflexivity].
Qed.

(** X2. A result of [runOcrWithFallbackChain] is always the answer of the
    first accepted pass: the API key was set, the returned model is the one
    at some position [k] of the chain, its answer is the returned text, of
    at least 20 code units after trimming and saved to the result file,
    every earlier pass failed, and exactly [k + 1] requests were sent. *)
Theorem ocr_result_is_first_accepted_answer
    (chain : list Ocr.Model) (apiKey : option string)
    (world : nat -> Ocr.Attempt) (imageBase64 : string) (r : Ocr.OcrResult) :
  fst (Ocr.runOcrWithFallbackChainOn chain apiKey world imageBase64) = inr r ->
  Ocr.key_present apiKey = true
  /\ Ocr.success r = true
  /\ Ocr.textLength (Ocr.metadata r) = List.length (Ocr.text r)
  /\ 20 <= List.length (trim (Ocr.text r))
  /\ exists k rt at_,
       nth_error chain k = Some (Ocr.model r)
       /\ world k = Ocr.OkResponse (Ocr.CString (Ocr.text r)) rt at_ true
       /\ (forall j, j < k -> Ocr.attempt_fails (world j) = true)
       /\ snd (Ocr.runOcrWithFallbackChainOn chain apiKey world imageBase64) =
            map (Ocr.request_for imageBase64) (firstn (S k) chain).
Proof.
  unfold Ocr.runOcrWithFallbackChainOn.
  destruct (Ocr.key_present apiKey); [| discriminate].
  destruct (cascade_cases world chain 0)
    as [(k & m & t & rt & at_ & Hn & Hw & Hs & Hb) | Hall].
  - rewrite (cascade_first_success world imageBase64 chain 0 k m t rt at_);
      auto.
    simpl. intros [= <-]. simpl.
    repeat split; auto using sufficient_text_is_long.
    exists k, rt, at_. auto.
  - rewrite (cascade_all_fail world imageBase64 chain 0 Hall). discriminate.
Qed.

(** X2, at a concrete cascade. *)
Lemma ocr_result_is_first_accepted_answer_witness :
  Ocr.key_present (Some "sk-or-1") = true
  /\ true = true
  /\ 29 = 29
  /\ 20 <= List.length (trim (js "STARTERS Soup 5.00 Bread 3.50"))
  /\ exists k rt at_,
       nth_error Ocr.OCR_MODEL_CHAIN k =
         Some {| Ocr.model_id := "openai/gpt-4o-mini";
                 Ocr.model_name := "GPT-4o Mini" |}
       /\ Scenarios.c1_world k =
            Ocr.OkResponse (Ocr.CString (js "STARTERS Soup 5.00 Bread 3.50"))
              rt at_ true
       /\ (forall j, j < k -> Ocr.attempt_fails (Scenarios.c1_world j) = true)
       /\ snd (Ocr.runOcrWithFallbackChain (Some "sk-or-1") Scenarios.c1_world
                 "aGVsbG8=") =
            map (Ocr.request_for "aGVsbG8=") (firstn (S k) Ocr.OCR_MODEL_CHAIN).
Proof.
  exact (ocr_result_is_first_accepted_answer Ocr.OCR_MODEL_CHAIN
           (Some "sk-or-1") Scenarios.c1_world "aGVsbG8="
           {| Ocr.success := true;
              Ocr.text := js "STARTERS Soup 5.00 Bread 3.50";
              Ocr.model := {| Ocr.model_id := "openai/gpt-4o-mini";
                              Ocr.model_name := "GPT-4o Mini" |};
              Ocr.metadata := {| Ocr.responseTime_ := "1.20";
                                 Ocr.extractedAt_ := "t3";
                                 Ocr.textLength := 29 |} |}
           eq_refl).
Defined.

(** X3. [runOcrWithFallbackChain] throws one of two errors only: the
    missing-key error, exactly when the API key is absent or empty and then
    without any request; or the all-models-failed error, after every
    provider of the chain was asked and every pass failed. *)
Theorem ocr_error_is_missing_key_or_exhaustion
    (chain : list Ocr.Model) (apiKey : option string)
    (world : nat -> Ocr.Attempt) (imageBase64 : string) (e : Ocr.JsError) :
  fst (Ocr.runOcrWithFallbackChainOn chain apiKey world imageBase64) = inl e ->
  (Ocr.key_present apiKey = false
   /\ Ocr.error_message e = Ocr.missing_key_message
   /\ snd (Ocr.runOcrWithFallbackChainOn chain apiKey world imageBase64) = [])
  \/ (Ocr.key_present apiKey = true
      /\ Ocr.error_message e = Ocr.all_failed_message
      /\ (forall j, j < List.length chain ->
                    Ocr.attempt_fails (world j) = true)
      /\ snd (Ocr.runOcrWithFallbackChainOn chain apiKey world imageBase64) =
           map (Ocr.request_for imageBase64) chain).
Proof.
  unfold Ocr.runOcrWithFallbackChainOn.
  destruct (Ocr.key_present apiKey).
  - destruct (cascade_cases world chain 0)
      as [(k & m & t & rt & at_ & Hn & Hw & Hs & Hb) | Hall].
    + rewrite (cascade_first_success world imageBase64 chain 0 k m t rt at_);
        auto.
      discriminate.
    + rewrite (cascade_all_fail world imageBase64 chain 0 Hall).
      simpl. intros [= <-]. right. auto.
  - simpl. intros [= <-]. left. auto.
Qed.

(** X3, at a concrete call: the key is the empty string. *)
Lemma ocr_error_is_missing_key_or_exhaustion_witness :
  (Ocr.key_present (Some "") = false
   /\ Ocr.missing_key_message = Ocr.missing_key_message
   /\ snd (Ocr.runOcrWithFallbackChain (Some "") Scenarios.c1_world "aGVsbG8=")
      = [])
  \/ (Ocr.key_present (Some "") = true
      /\ Ocr.missing_key_message = Ocr.all_failed_message
      /\ (forall j, j < List.length Ocr.OCR_MODEL_CHAIN ->
                    Ocr.attempt_fails (Scenarios.c1_world j) = true)
      /\ snd (Ocr.runOcrWithFallbackChain (Some "") Scenarios.c1_world "aGVsbG8=")
         = map (Ocr.request_for "aGVsbG8=") Ocr.OCR_MODEL_CHAIN).
Proof.
  exact (ocr_error_is_missing_key_or_exhaustion Ocr.OCR_MODEL_CHAIN (Some "")
           Scenarios.c1_world "aGVsbG8="
           {| Ocr.error_message := Ocr.missing_key_message |} eq_refl).
Defined.

(** ** [structureOcrData] *)

Section StructureFacts.

Import ContentHash Structure.

Lemma first_error_none {A} (f : A -> option string) (l : list A) :
  first_error (map f l) = None <-> Forall (fun x => f x = None) l.
Proof.
  induction l as [| a l IH]; simpl.
  - split; [constructor | reflexivity].
  - destruct (f a) eqn:E.
    + split; [discriminate |]. intros H. inversion H; subst. congruence.
    + rewrite IH. split.
      * intros H. constructor; assumption.
      * intros H. inversion H; assumption.
Qed.

Lemma unreadable_none base property :
  unreadable base property = None <-> exists v, base = Value v /\ v <> JNull.
Proof.
  split.
  - destruct base as [| v]; [discriminate |].
    destruct v; try discriminate; intros _; eexists; split;
      try reflexivity; discriminate.
  - intros [v [-> Hv]]. destruct v; try reflexivity. congruence.
Qed.

Lemma dishes_readable cat :
  match member (Value cat) "dishes" with
  | inl message => Some message
  | inr dishes => unreadable dishes "length"
  end = None <-> has_dishes cat.
Proof.
  unfold has_dishes, member. split.
  - destruct cat as [| b | n | s | items | members]; simpl; try discriminate.
    intros H. apply unreadable_none in H. destruct H as [d [Hd Hn]].
    exists members, d. auto.
  - intros (members & d & -> & Hl & Hn). simpl. rewrite Hl.
    apply unreadable_none. eauto.
Qed.

(** The summary is computed without an error exactly for the values of
    the shape [well_shaped]. *)
Lemma summary_error_none v : summary_error v = None <-> well_shaped v.
Proof.
  unfold summary_error, well_shaped. split.
  - destruct v as [| b | n | s | items | members]; simpl; try discriminate.
    destruct (lookup (js "categories") members) as [| c] eqn:El;
      [discriminate |].
    destruct c as [| b | n | s | items | ms]; simpl; try discriminate.
    + destruct s; simpl; discriminate.
    + destruct items as [| cat cats]; [discriminate |].
      destruct (unreadable (Value cat) "name") eqn:Eu; [discriminate |].
      intros H. apply first_error_none in H.
      exists members, cat, cats. repeat split; auto.
      apply Forall_impl with (2 := H). intros x. apply dishes_readable.
    + destruct (unreadable (lookup (js "0") ms) "name"); discriminate.
  - intros (members & cat & cats & -> & Hl & Hall).
    assert (exists cm, cat = JObject cm) as [cm Ec]
      by (inversion Hall as [| ? ? (cm & d & E & _) _]; eauto).
    simpl. rewrite Hl. subst cat. cbn [unreadable first].
    apply first_error_none.
    apply Forall_impl with (2 := Hall). intros x. apply dishes_readable.
Qed.

Variable JSON_parse : jsstring -> string + json.

(** X4. [structureOcrData] returns exactly when the API key is set, the
    response is ok with a truthy content that [JSON.parse] accepts, the
    parsed value is an object whose [categories] is a non-empty array of
    objects that each have a non-null [dishes], and the debug file is
    written; the result is then the OCR result, unchanged, with the parsed
    value as [structuredData]. *)
Theorem structureOcrData_returns_iff
    (apiKey : option string) (reply : Reply) (write_error : option string)
    (ocrResult : Ocr.OcrResult) (r : StructuredOcr) :
  fst (structureOcrData JSON_parse apiKey reply write_error ocrResult) = inr r
  <->
  (Ocr.key_present apiKey = true
   /\ (exists structuredText,
          reply = Ok (Truthy structuredText)
          /\ JSON_parse structuredText = inr (structuredData r))
   /\ well_shaped (structuredData r)
   /\ write_error = None
   /\ ocr r = ocrResult).
Proof.
  unfold structureOcrData. split.
  - destruct (Ocr.key_present apiKey); [| discriminate].
    destruct reply as [e | st stt [e | body] | [| t]]; try discriminate.
    destruct (JSON_parse t) as [msg | v] eqn:Ep; [discriminate |].
    destruct (summary_error v) eqn:Es; [discriminate |].
    destruct write_error; [discriminate |].
    simpl. intros [= <-]. simpl.
    repeat split; eauto. apply summary_error_none. exact Es.
  - intros (Hk & (t & -> & Hp) & Hs & -> & Ho).
    rewrite Hk, Hp. apply summary_error_none in Hs. rewrite Hs.
    simpl. destruct r. simpl in *. congruence.
Qed.

(** X5. A parsed value that is not of that shape (no [categories], an
    empty [categories] array, a category without [dishes], ...) makes
    [structureOcrData] throw an error whose message starts with
    "Failed to parse structured data: ", after its single request. *)
Theorem structureOcrData_rejects_other_shapes
    (apiKey : option string) (structuredText : jsstring) (v : json)
    (write_error : option string) (ocrResult : Ocr.OcrResult) :
  Ocr.key_present apiKey = true ->
  JSON_parse structuredText = inr v ->
  ~ well_shaped v ->
  exists message,
    structureOcrData JSON_parse apiKey (Ok (Truthy structuredText))
      write_error ocrResult =
      (inl (parse_failure message),
       [ {| sreq_model := STRUCTURING_MODEL;
            sreq_text := Ocr.text ocrResult |} ]).
Proof.
  intros Hk Hp Hs. unfold structureOcrData. rewrite Hk, Hp.
  destruct (summary_error v) as [msg |] eqn:Es.
  - exists msg. reflexivity.
  - exfalso. apply Hs. apply summary_error_none. exact Es.
Qed.

End StructureFacts.

(** X5, at a concrete reply: a menu without categories. *)
Lemma structureOcrData_rejects_other_shapes_witness :
  exists message,
    Structure.structureOcrData MoreScenarios.parse_two (Some "sk-or-1")
      (Structure.Ok (Structure.Truthy (js "none"))) None
      MoreScenarios.extracted =
      (inl (Structure.parse_failure message),
       [ {| Structure.sreq_model := Structure.STRUCTURING_MODEL;
            Structure.sreq_text := js "STARTERS Soup 5.00 Bread 3.50" |} ]).
Proof.
  apply (structureOcrData_rejects_other_shapes MoreScenarios.parse_two
           (Some "sk-or-1") (js "none") MoreScenarios.no_categories None
           MoreScenarios.extracted).
  - reflexivity.
  - reflexivity.
  - intros (members & cat & cats & E & Hl & _).
    injection E as <-. vm_compute in Hl. discriminate Hl.
Defined.

Example empty_categories_are_rejected :
  fst (Structure.structureOcrData MoreScenarios.parse_two (Some "sk-or-1")
         (Structure.Ok (Structure.Truthy (js "none"))) None
         MoreScenarios.extracted) =
    inl {| Ocr.error_message :=
             "Failed to parse structured data: Cannot read properties of undefined (reading 'name')" |}.
Proof. vm_compute. reflexivity. Qed.

Example one_category_is_accepted :
  fst (Structure.structureOcrData MoreScenarios.parse_two (Some "sk-or-1")
         (Structure.Ok (Structure.Truthy (js "one"))) None
         MoreScenarios.extracted) =
    inr {| Structure.ocr := MoreScenarios.extracted;
           Structure.structuredData := MoreScenarios.one_category |}.
Proof. vm_compute. reflexivity. Qed.

(** ** The two hashes *)

Section HashFacts.

Import ContentHash Shapes.

Lemma string_length_append (a b : string) :
  String.length (a ++ b) = String.length a + String.length b.
Proof. induction a as [| c a IH]; simpl; [| rewrite IH]; reflexivity. Qed.

Lemma hex_of_length digits x : String.length (Sha256.hex_of digits x) = digits.
Proof. induction digits as [| d IH]; simpl; [| rewrite IH]; reflexivity. Qed.

Lemma hex_digit_is_hex (d : nat) :
  d < 16 -> is_hex (Sha256.hex_digit (N.of_nat d)) = true.
Proof.
  intros H. do 16 (destruct d as [| d]; [reflexivity |]). lia.
Qed.

Lemma hex_of_is_hex digits x :
  Forall (fun c => is_hex c = true)
    (list_ascii_of_string (Sha256.hex_of digits x)).
Proof.
  induction digits as [| d IH]; [constructor |].
  cbn [Sha256.hex_of list_ascii_of_string]. constructor; [| exact IH].
  set (n := N.land (N.shiftr x (4 * N.of_nat d)) 15).
  assert (n < 16)%N as Hn.
  { subst n. change 15%N with (N.ones 4). rewrite N.land_ones.
    apply N.mod_lt. discriminate. }
  rewrite <- (N2Nat.id n). apply hex_digit_is_hex. lia.
Qed.

Lemma list_ascii_of_append (a b : string) :
  list_ascii_of_string (a ++ b) =
    (list_ascii_of_string a ++ list_ascii_of_string b)%list.
Proof. induction a as [| c a IH]; simpl; [| rewrite IH]; reflexivity. Qed.

(** X6. [calculateSHA256] always returns 64 lowercase hexadecimal digits.
    In particular the hash is a truthy string, so the look-up of an earlier
    scan of an image hashed by it is never skipped: it always sends its
    query. *)
Theorem sha256_is_64_hex_digits_and_always_looked_up :
  (forall buffer,
      String.length (calculateSHA256 buffer) = 64
      /\ Forall (fun c => is_hex c = true)
           (list_ascii_of_string (calculateSHA256 buffer)))
  /\ (forall env userId buffer w,
      calls (snd (Persist.checkForExistingUserScan env userId
                    (calculateSHA256 buffer) w)) =
        calls w ++ [SelectUserScan userId (calculateSHA256 buffer)]).
Proof.
  assert (forall buffer,
             String.length (calculateSHA256 buffer) = 64
             /\ Forall (fun c => is_hex c = true)
                  (list_ascii_of_string (calculateSHA256 buffer))) as H.
  { intros buffer. unfold calculateSHA256, Sha256.sha256_hex. split.
    - rewrite !string_length_append, !hex_of_length. reflexivity.
    - rewrite !list_ascii_of_append.
      repeat (apply Forall_app; split); apply hex_of_is_hex. }
  split; [exact H |].
  intros env userId buffer w.
  destruct (H buffer) as [Hlen _].
  assert (Persist.truthy (calculateSHA256 buffer) = true) as Ht.
  { unfold Persist.truthy. destruct (calculateSHA256 buffer); [discriminate |].
    reflexivity. }
  destruct (checkForExistingUserScan_frame env userId (calculateSHA256 buffer) w)
    as [v E].
  rewrite E, Ht. reflexivity.
Qed.

Lemma trimStart_decompose s :
  exists l, forallb is_space l = true /\ s = l ++ trimStart s.
Proof.
  induction s as [| c s IH]; simpl.
  - exists []. auto.
  - destruct (is_space c) eqn:Hc.
    + destruct IH as [l [Hl E]]. exists (c :: l). simpl. rewrite Hc, Hl.
      split; [reflexivity |]. congruence.
    + exists []. auto.
Qed.

Lemma trimEnd_decompose s :
  exists r, forallb is_space r = true /\ s = trimEnd s ++ r.
Proof.
  induction s as [| c s IH]; simpl.
  - exists []. auto.
  - destruct IH as [r [Hr E]].
    destruct (trimEnd s) as [| x xs] eqn:Et.
    + destruct (is_space c) eqn:Hc.
      * exists (c :: r). simpl. rewrite Hc, Hr. split; [reflexivity |].
        simpl in E. congruence.
      * exists r. split; [exact Hr |]. simpl in *. congruence.
    + exists r. split; [exact Hr |]. simpl in *. congruence.
Qed.

(** [trim] removes whitespace on both sides and nothing else. *)
Lemma trim_decompose s :
  exists l r,
    forallb is_space l = true /\ forallb is_space r = true
    /\ s = l ++ trim s ++ r.
Proof.
  destruct (trimStart_decompose s) as [l [Hl El]].
  destruct (trimEnd_decompose (trimStart s)) as [r [Hr Er]].
  exists l, r. repeat split; auto. unfold trim. congruence.
Qed.

Lemma trim_idempotent s : trim (trim s) = trim s.
Proof.
  destruct (trim_decompose s) as (l & r & Hl & Hr & E).
  apply trim_padding.
  rewrite E at 2.
  rewrite <- (app_nil_r (trim s)) at 1.
  exact (padded (trim s) [] [] l r eq_refl eq_refl Hl Hr).
Qed.

Lemma trimStart_head s c t :
  trimStart s = c :: t -> is_space c = false.
Proof.
  induction s as [| d s IH]; simpl; [discriminate |].
  destruct (is_space d) eqn:Hd; [exact IH |]. intros [= -> _]. exact Hd.
Qed.

Lemma trimEnd_last x d :
  trimEnd x <> [] -> is_space (last (trimEnd x) d) = false.
Proof.
  induction x as [| c x IH]; simpl; [congruence |].
  destruct (trimEnd x) as [| y ys] eqn:Et.
  - destruct (is_space c) eqn:Hc; [congruence | intros _; exact Hc].
  - intros _. change (last (c :: y :: ys) d) with (last (y :: ys) d).
    apply IH. discriminate.
Qed.

Lemma words_cons c r :
  words (c :: r) =
    if is_space c then words r
    else match r with
         | [] => [[c]]
         | d :: _ =>
             if is_space d then [c] :: words r
             else match words r with
                  | w :: ws => (c :: w) :: ws
                  | [] => [[c]]
                  end
         end.
Proof. reflexivity. Qed.

Lemma words_are_words s : Forall is_word (words s).
Proof.
  induction s as [| c r IH]; [constructor |].
  rewrite words_cons.
  destruct (is_space c) eqn:Hc; [exact IH |].
  assert (is_word [c]) as Hw1.
  { split; [discriminate |]. simpl. rewrite Hc. reflexivity. }
  destruct r as [| d r']; [constructor; [exact Hw1 | constructor] |].
  destruct (is_space d) eqn:Hd; [constructor; assumption |].
  destruct (words (d :: r')) as [| w ws];
    [constructor; [exact Hw1 | constructor] |].
  inversion IH as [| ? ? [Hne Hall] Hrest]; subst.
  constructor; [| exact Hrest].
  split; [discriminate |]. simpl. rewrite Hc, Hall. reflexivity.
Qed.

(** A word in front of the end of the text, or of whitespace, is the first
    word. *)
Lemma words_app_word w :
  is_word w ->
  forall t,
    (t = [] \/ exists d t', t = d :: t' /\ is_space d = true) ->
    words (w ++ t) = w :: words t.
Proof.
  induction w as [| c w IH]; intros [Hne Hall] t Ht; [congruence |].
  simpl in Hall. apply andb_true_iff in Hall. destruct Hall as [Hc Hw].
  apply negb_true_iff in Hc.
  change ((c :: w) ++ t) with (c :: (w ++ t)). rewrite words_cons, Hc.
  destruct w as [| c' w'].
  - simpl. destruct Ht as [-> | (d & t' & -> & Hd)]; [reflexivity |].
    rewrite Hd. reflexivity.
  - assert (is_word (c' :: w')) as Hw' by (split; [discriminate | exact Hw]).
    pose proof (IH Hw' t Ht) as E.
    simpl in Hw. apply andb_true_iff in Hw. destruct Hw as [Hc' _].
    apply negb_true_iff in Hc'.
    cbn [app] in E |- *. rewrite Hc', E. reflexivity.
Qed.

Lemma words_join ws :
  Forall is_word ws -> words (join (js " ") ws) = ws.
Proof.
  induction ws as [| w rest IH]; intros H; [reflexivity |].
  inversion H as [| ? ? Hw Hrest]; subst.
  destruct rest as [| w2 rest'].
  - simpl. rewrite <- (app_nil_r w) at 1.
    rewrite (words_app_word w Hw []); auto.
  - change (join (js " ") (w :: w2 :: rest'))
      with (w ++ 32%N :: join (js " ") (w2 :: rest')).
    rewrite (words_app_word w Hw).
    + rewrite words_cons. simpl is_space. rewrite (IH Hrest). reflexivity.
    + right. eexists. eexists. split; reflexivity.
Qed.

Lemma normalizeString_idempotent key s :
  normalizeString key (normalizeString key s) = normalizeString key s.
Proof.
  unfold normalizeString.
  destruct (JsStr.eqb key (js "name") || JsStr.eqb key (js "category")).
  - apply trim_idempotent.
  - destruct (JsStr.eqb key (js "description")); [| reflexivity].
    rewrite (collapse_trim_words (collapse (trim s))).
    rewrite (collapse_trim_words s).
    rewrite words_join by apply words_are_words. reflexivity.
Qed.

Lemma normalizeTextValues_idempotent v :
  normalizeTextValues (normalizeTextValues v) = normalizeTextValues v.
Proof.
  induction v as [| b | n | s | items IH | members IH] using json_induction;
    try reflexivity.
  - cbn [normalizeTextValues]. f_equal. rewrite map_map.
    induction IH as [| x l Hx Hl IHl]; [reflexivity |].
    simpl. f_equal; assumption.
  - cbn [normalizeTextValues]. f_equal. rewrite map_map.
    induction IH as [| [k x] l Hx Hl IHl]; [reflexivity |].
    cbn [map]. f_equal; [| exact IHl].
    f_equal. simpl in Hx.
    destruct x as [| b | n | s | items | ms]; try reflexivity.
    + rewrite normalizeString_idempotent. reflexivity.
    + exact Hx.
    + exact Hx.
Qed.

(** X7. A description is normalized to its words joined by single spaces:
    the normalized text has no whitespace before, after or inside the
    words, and only one U+0020 between two words. *)
Theorem description_is_normalized_to_its_words (s : jsstring) :
  normalizeString (js "description") s = join (js " ") (words s)
  /\ Forall is_word (words s)
  /\ words (normalizeString (js "description") s) = words s.
Proof.
  assert (normalizeString (js "description") s = join (js " ") (words s)) as E
    by apply collapse_trim_words.
  split; [exact E |]. split; [apply words_are_words |].
  rewrite E. apply words_join, words_are_words.
Qed.

(** X8. A name or a category is normalized by removing the whitespace
    around it and nothing else: the text is the normalized text between
    two runs of whitespace, and the normalized text neither starts nor
    ends with whitespace. *)
Theorem name_is_normalized_by_trimming (key s : jsstring) :
  key = js "name" \/ key = js "category" ->
  (exists l r,
      forallb is_space l = true /\ forallb is_space r = true
      /\ s = l ++ normalizeString key s ++ r)
  /\ (normalizeString key s = []
      \/ (is_space (hd 0%N (normalizeString key s)) = false
          /\ is_space (last (normalizeString key s) 0%N) = false)).
Proof.
  intros Hk.
  assert (normalizeString key s = trim s) as ->
    by (destruct Hk as [-> | ->]; reflexivity).
  split; [apply trim_decompose |].
  destruct (trim s) as [| c t] eqn:E; [left; reflexivity | right].
  split.
  - unfold trim in E.
    destruct (trimStart s) as [| c0 t0] eqn:Es; [discriminate |].
    pose proof (trimStart_head s c0 t0 Es) as Hc0.
    rewrite (trimEnd_cons_word c0 t0 Hc0) in E. injection E as <- _.
    exact Hc0.
  - rewrite <- E. unfold trim. apply trimEnd_last.
    unfold trim in E. rewrite E. discriminate.
Qed.

(** X9. Normalizing twice is normalizing once, so a menu that is already
    normalized has the content hash of the menu it came from. *)
Theorem normalization_is_idempotent (v : json) :
  normalizeTextValues (normalizeTextValues v) = normalizeTextValues v
  /\ calculateContentHash (normalizeTextValues v) = calculateContentHash v.
Proof.
  split; [apply normalizeTextValues_idempotent |].
  unfold calculateContentHash, stableString.
  rewrite normalizeTextValues_idempotent. reflexivity.
Qed.

End HashFacts.

(** X8, at a concrete name. *)
Lemma name_is_normalized_by_trimming_witness :
  (exists l r,
      forallb is_space l = true /\ forallb is_space r = true
      /\ js " Soup  " =
           l ++ ContentHash.normalizeString (js "name") (js " Soup  ") ++ r)
  /\ (ContentHash.normalizeString (js "name") (js " Soup  ") = []
      \/ (is_space (hd 0%N (ContentHash.normalizeString (js "name")
                              (js " Soup  "))) = false
          /\ is_space (last (ContentHash.normalizeString (js "name")
                               (js " Soup  ")) 0%N) = false)).
Proof.
  apply (name_is_normalized_by_trimming (js "name") (js " Soup  ")).
  left. reflexivity.
Defined.

(** ** [saveToSupabase]: what every call does to the store *)

Section StoreFacts.

Import Persist Paths Shapes.

Variable env : Env.

Lemma saveToSupabase_paths structuredResult userId :
  saveToSupabase env structuredResult userId =
    (existing <- checkForExistingUserScan env userId
                   (sr_imageHash structuredResult) ;;
     match existing with
     | Some existingScan_ => ret (duplicate_result existingScan_)
     | None =>
         _ <- ensureUserExists env userId ;;
         ecm <- checkForExistingCanonicalMenu env
                  (sr_contentHash structuredResult) ;;
         try_catch
           match ecm with
           | Some found => scenarioA env structuredResult userId found
           | None => scenarioB env structuredResult userId
           end
           rethrow
     end).
Proof. reflexivity. Qed.

Lemma db_eta d :
  with_tables (user_profile d) (canonical_menus d) (menu_scan d)
    (menu_dishes d) = d.
Proof. destruct d; reflexivity. Qed.

Lemma world_eta w : {| db := db w; calls := calls w |} = w.
Proof. destruct w; reflexivity. Qed.

Lemma dish_rows_canonical canonicalId (l : list (nat * (Dish * jsstring))) :
  Forall (fun r => md_canonical_menu_id r = canonicalId)
    (map (fun d => dish_row env canonicalId (fst d) (snd d)) l).
Proof. induction l; simpl; constructor; auto. Qed.

(** The batch loop, whatever the fate of its requests: it only adds rows to
    [menu_dishes], all of them rows of [canonicalId]; when it returns, the
    count has grown by the number of rows added. *)
Lemma insertBatches_effect canonicalId allDishes :
  forall fuel i acc w,
  exists outcome rows sent,
    insertBatches env canonicalId allDishes fuel i acc w =
      (outcome,
       {| db := with_tables (user_profile (db w)) (canonical_menus (db w))
                  (menu_scan (db w)) (menu_dishes (db w) ++ rows);
          calls := calls w ++ sent |})
    /\ Forall (fun r => md_canonical_menu_id r = canonicalId) rows
    /\ Forall (fun c => is_dish_insert c = true) sent
    /\ (forall acc', outcome = inr acc' ->
                     fst acc' = fst acc + List.length rows).
Proof.
  induction fuel as [| fuel IH]; intros i acc w.
  - exists (inr acc), [], [].
    cbn [insertBatches]. destruct (i <? List.length allDishes)%nat;
      unfold ret; rewrite !app_nil_r, db_eta, world_eta;
      (repeat split; auto; intros acc' [= <-]; simpl; lia).
  - cbn [insertBatches].
    destruct (i <? List.length allDishes)%nat.
    + set (batch := map (fun d => dish_row env canonicalId (fst d) (snd d))
                      (number_from i (slice i (i + BATCH_SIZE) allDishes))).
      set (c := InsertDishes (i / BATCH_SIZE) (List.length batch)).
      unfold bind, request.
      destruct (on_dishInsert env (i / BATCH_SIZE)) as [[e | msg] |].
      * cbn [error error_response data fst snd].
        destruct (IH (i + BATCH_SIZE) (fst acc, snd acc ++ [e])
                    {| db := db w; calls := calls w ++ [c] |})
          as (outcome & rows & sent & E & Hr & Hs & Hacc).
        cbn [db calls fst] in *.
        exists outcome, rows, (c :: sent). rewrite E, <- app_assoc.
        repeat split; auto.
      * exists (inl {| Ocr.error_message := msg |}), [], [c].
        rewrite app_nil_r, db_eta. repeat split; auto; discriminate.
      * unfold insert_dishes.
        cbn [error ok_response data fst snd].
        destruct (IH (i + BATCH_SIZE)
                    (fst acc + List.length (map md_id batch), snd acc)
                    {| db := {| user_profile := user_profile (db w);
                                canonical_menus := canonical_menus (db w);
                                menu_scan := menu_scan (db w);
                                menu_dishes := menu_dishes (db w) ++ batch |};
                       calls := calls w ++ [c] |})
          as (outcome & rows & sent & E & Hr & Hs & Hacc).
        cbn [db calls fst user_profile canonical_menus menu_scan menu_dishes]
          in *.
        exists outcome, (batch ++ rows), (c :: sent).
        rewrite E, <- !app_assoc. repeat split; auto.
        -- apply Forall_app. split; [apply dish_rows_canonical | exact Hr].
        -- intros acc' Ho. rewrite (Hacc acc' Ho), length_app, length_map. lia.
    + exists (inr acc), [], [].
      unfold ret. rewrite !app_nil_r, db_eta, world_eta.
      repeat split; auto. intros acc' [= <-]. simpl. lia.
Qed.

Lemma grown_nothing w : grown w [] (canonical_menus (db w)) [] [] [] = w.
Proof.
  unfold grown. rewrite !app_nil_r, db_eta. apply world_eta.
Qed.

Lemma grown_grown w u1 c1 s1 d1 t1 u2 c2 s2 d2 t2 :
  grown (grown w u1 c1 s1 d1 t1) u2 c2 s2 d2 t2 =
  grown w (u1 ++ u2) c2 (s1 ++ s2) (d1 ++ d2) (t1 ++ t2).
Proof.
  unfold grown, with_tables; cbn. now rewrite !app_assoc.
Qed.

Lemma try_catch_rethrow {A} (c : M A) w : try_catch c rethrow w = c w.
Proof.
  unfold try_catch, rethrow. destruct (c w) as [[e | a] w']; reflexivity.
Qed.

Lemma update_keeps_created canonicalId scanId_ (l : list CanonicalMenuRow) :
  map created_as
    (map (fun r => if String.eqb (cm_id r) canonicalId
                   then {| cm_id := cm_id r;
                           cm_content_hash := cm_content_hash r;
                           cm_dish_count := cm_dish_count r;
                           cm_created_at := cm_created_at r;
                           cm_first_scan_id := Some scanId_ |}
                   else r) l) = map created_as l.
Proof.
  rewrite map_map. apply map_ext. intros r.
  destruct (String.eqb (cm_id r) canonicalId); reflexivity.
Qed.

(** Rows with the same creation columns have the same identifiers and
    content hashes. *)
Lemma created_as_In (l l' : list CanonicalMenuRow) row :
  map created_as l' = map created_as l ->
  In row l ->
  exists row', In row' l' /\ cm_id row' = cm_id row
               /\ cm_content_hash row' = cm_content_hash row
               /\ cm_dish_count row' = cm_dish_count row.
Proof.
  intros E Hin.
  assert (H : In (created_as row) (map created_as l')).
  { rewrite E. now apply in_map. }
  apply in_map_iff in H. destruct H as (row' & Ec & Hin').
  exists row'. unfold created_as in Ec. injection Ec as -> -> -> _.
  repeat split; auto.
Qed.


Lemma canonical_grown w u c s d t : canonical_menus (db (grown w u c s d t)) = c.
Proof. reflexivity. Qed.

Lemma users_grown w u c s d t :
  user_profile (db (grown w u c s d t)) = user_profile (db w) ++ u.
Proof. reflexivity. Qed.

Lemma scans_grown w u c s d t :
  menu_scan (db (grown w u c s d t)) = menu_scan (db w) ++ s.
Proof. reflexivity. Qed.

Lemma dishes_grown w u c s d t :
  menu_dishes (db (grown w u c s d t)) = menu_dishes (db w) ++ d.
Proof. reflexivity. Qed.

Lemma calls_grown w u c s d t : calls (grown w u c s d t) = calls w ++ t.
Proof. reflexivity. Qed.


(** One request, in terms of [grown]. *)
Lemma request_faulted {A} c (exec : Db -> Response A * Db) fault w :
  request c (Some fault) exec w =
    (match fault with
     | Rejects msg => inl {| Ocr.error_message := msg |}
     | Reports e => inr (error_response e)
     end, grown w [] (canonical_menus (db w)) [] [] [c]).
Proof.
  unfold request, grown. rewrite !app_nil_r, db_eta.
  destruct fault; reflexivity.
Qed.

Lemma request_read {A} c (exec : Db -> Response A * Db) w :
  snd (exec (db w)) = db w ->
  request c None exec w =
    (inr (fst (exec (db w))), grown w [] (canonical_menus (db w)) [] [] [c]).
Proof.
  unfold request, grown. rewrite !app_nil_r, db_eta.
  destruct (exec (db w)) as [r d']. cbn. now intros ->.
Qed.

Lemma request_insert_scan c row w :
  request c None (insert_scan row) w =
    (inr (ok_response (ms_id row)),
     grown w [] (canonical_menus (db w)) [row] [] [c]).
Proof. unfold request, grown. cbn. now rewrite !app_nil_r. Qed.

Lemma request_update c canonicalId scanId_ w :
  exists cans,
    map created_as cans = map created_as (canonical_menus (db w))
    /\ request c None (update_first_scan canonicalId scanId_) w =
         (inr {| data := None; error := None |}, grown w [] cans [] [] [c]).
Proof.
  eexists. split; [apply (update_keeps_created canonicalId scanId_) |].
  unfold request, grown. cbn. now rewrite !app_nil_r.
Qed.

Lemma request_insert_user c row w :
  request c None (insert_user row) w =
    if existsb (fun r => String.eqb (up_id r) (up_id row)) (user_profile (db w))
    then (inr (error_response unique_violation),
          grown w [] (canonical_menus (db w)) [] [] [c])
    else (inr (ok_response (up_id row)),
          grown w [row] (canonical_menus (db w)) [] [] [c]).
Proof.
  unfold request, grown, insert_user.
  destruct (existsb _ _); cbn; now rewrite !app_nil_r, ?db_eta.
Qed.

Lemma request_insert_canonical c row w :
  request c None (insert_canonical row) w =
    if existsb (has_content_hash (cm_content_hash row)) (canonical_menus (db w))
    then (inr (error_response unique_violation),
          grown w [] (canonical_menus (db w)) [] [] [c])
    else (inr (ok_response (cm_id row)),
          grown w [] (canonical_menus (db w) ++ [row]) [] [] [c]).
Proof.
  unfold request, grown, insert_canonical.
  destruct (existsb _ _); cbn; now rewrite !app_nil_r, ?db_eta.
Qed.


(** The look-up by image hash: it changes nothing, and a scan that it
    returns is the latest stored scan of that user and image. *)
Lemma checkForExistingUserScan_cases userId imageHash w :
  exists sent,
    (checkForExistingUserScan env userId imageHash w =
       (inr None, grown w [] (canonical_menus (db w)) [] [] sent)
     /\ (truthy imageHash = true -> on_userScanSelect env = None ->
         filter (scan_matches userId imageHash) (menu_scan (db w)) = []))
    \/ exists row,
         In row (menu_scan (db w))
         /\ scan_matches userId imageHash row = true
         /\ latest (filter (scan_matches userId imageHash) (menu_scan (db w)))
            = Some row
         /\ truthy imageHash = true
         /\ on_userScanSelect env = None
         /\ checkForExistingUserScan env userId imageHash w =
              (inr (Some (scan_summary row)),
               grown w [] (canonical_menus (db w)) [] [] sent).
Proof.
  assert (G : forall sent, after w (db w) sent
                = grown w [] (canonical_menus (db w)) [] [] sent).
  { intros sent. unfold after, grown. now rewrite !app_nil_r, db_eta. }
  destruct (checkForExistingUserScan_frame env userId imageHash w) as [v E].
  rewrite G in E.
  exists (if truthy imageHash then [SelectUserScan userId imageHash] else []).
  destruct (truthy imageHash) eqn:T.
  - destruct (on_userScanSelect env) as [fault |] eqn:F.
    + left. destruct (checkForExistingUserScan_failed env userId imageHash
                        fault w F) as [Hv _].
      rewrite E in Hv. cbn in Hv. injection Hv as ->.
      split; [exact E | discriminate].
    + rewrite (checkForExistingUserScan_answered env userId imageHash w T F), G
        in *.
      destruct (latest (filter (scan_matches userId imageHash)
                          (menu_scan (db w)))) as [row |] eqn:L.
      * right. exists row. apply latest_some in L as L'.
        destruct L' as [Hin _]. apply filter_In in Hin.
        destruct Hin as [Hin Hm]. repeat split; auto.
      * left. split; [reflexivity |]. intros _ _.
        destruct (filter (scan_matches userId imageHash) (menu_scan (db w)))
          as [| x rest] eqn:Fl; [reflexivity |].
        destruct (latest_nonempty (x :: rest)) as [r Hr]; [discriminate |].
        congruence.
  - left. split; [| discriminate]. rewrite E. f_equal.
    unfold checkForExistingUserScan in E. rewrite T in E. cbn in E.
    now injection E as <- _.
Qed.

Lemma checkForExistingCanonicalMenu_answered contentHash w :
  truthy contentHash = true ->
  on_canonicalSelect env = None ->
  checkForExistingCanonicalMenu env contentHash w =
    (inr (option_map canonical_summary
            (hd_error (filter (has_content_hash contentHash)
                         (canonical_menus (db w))))),
     grown w [] (canonical_menus (db w)) [] [] [SelectCanonical contentHash]).
Proof.
  intros T F. unfold checkForExistingCanonicalMenu.
  rewrite T. cbn [negb]. unfold try_catch, bind.
  rewrite F, request_read by reflexivity.
  unfold select_canonical. cbn [fst error ok_response data]. unfold ret.
  destruct (filter (has_content_hash contentHash) (canonical_menus (db w)));
    reflexivity.
Qed.

(** The look-up by content hash: it changes nothing, and a menu that it
    returns is the first stored menu with that content hash. *)
Lemma checkForExistingCanonicalMenu_cases contentHash w :
  exists sent,
    checkForExistingCanonicalMenu env contentHash w =
      (inr None, grown w [] (canonical_menus (db w)) [] [] sent)
    \/ exists row,
         In row (canonical_menus (db w))
         /\ cm_content_hash row = contentHash
         /\ hd_error (filter (has_content_hash contentHash)
                        (canonical_menus (db w))) = Some row
         /\ truthy contentHash = true
         /\ checkForExistingCanonicalMenu env contentHash w =
              (inr (Some (canonical_summary row)),
               grown w [] (canonical_menus (db w)) [] [] sent).
Proof.
  assert (G : forall sent, after w (db w) sent
                = grown w [] (canonical_menus (db w)) [] [] sent).
  { intros sent. unfold after, grown. now rewrite !app_nil_r, db_eta. }
  destruct (checkForExistingCanonicalMenu_frame env contentHash w) as [v E].
  rewrite G in E.
  exists (if truthy contentHash then [SelectCanonical contentHash] else []).
  destruct (truthy contentHash) eqn:T.
  - destruct (on_canonicalSelect env) as [fault |] eqn:F.
    + left. destruct (checkForExistingCanonicalMenu_failed env contentHash
                        fault w F) as [Hv _].
      rewrite E in Hv. cbn in Hv. injection Hv as ->. exact E.
    + rewrite (checkForExistingCanonicalMenu_answered contentHash w T F).
      destruct (hd_error (filter (has_content_hash contentHash)
                            (canonical_menus (db w)))) as [row |] eqn:Hd.
      * right. exists row.
        assert (Hin : In row (filter (has_content_hash contentHash)
                                (canonical_menus (db w)))).
        { destruct (filter _ _) as [| x rest]; [discriminate |].
          injection Hd as ->. now left. }
        apply filter_In in Hin. destruct Hin as [Hin Hh].
        apply String.eqb_eq in Hh. repeat split; auto.
      * left. reflexivity.
  - left. rewrite E. f_equal.
    unfold checkForExistingCanonicalMenu in E. rewrite T in E. cbn in E.
    now injection E as <- _.
Qed.

Lemma db_grown_nothing w sent :
  db (grown w [] (canonical_menus (db w)) [] [] sent) = db w.
Proof. unfold grown. cbn [db]. now rewrite !app_nil_r, db_eta. Qed.

(** [ensureUserExists], whatever the fate of its requests: it adds at most
    the profile of [userId], and none when it throws; when it returns, the
    store holds a profile of [userId]. *)
Lemma ensureUserExists_effect userId w :
  exists outcome users sent,
    ensureUserExists env userId w =
      (outcome, grown w users (canonical_menus (db w)) [] [] sent)
    /\ (users = [] \/ users = [new_profile env userId])
    /\ (outcome = inr true \/ exists e, outcome = inl e /\ users = [])
    /\ (outcome = inr true ->
        exists p, In p (user_profile (db w) ++ users) /\ up_id p = userId).
Proof.
  unfold ensureUserExists. rewrite try_catch_rethrow.
  unfold ensureUserExists_check, bind.
  assert (Create : forall found w1 sent1,
    w1 = grown w [] (canonical_menus (db w)) [] [] sent1 ->
    (forall id, found = Some id ->
                exists p, In p (user_profile (db w)) /\ up_id p = userId) ->
    exists outcome users sent,
      ensureUserExists_create env userId found w1 =
        (outcome, grown w users (canonical_menus (db w)) [] [] sent)
      /\ (users = [] \/ users = [new_profile env userId])
      /\ (outcome = inr true \/ exists e, outcome = inl e /\ users = [])
      /\ (outcome = inr true ->
          exists p, In p (user_profile (db w) ++ users) /\ up_id p = userId)).
  { intros found w1 sent1 -> Hfound.
    pose proof (db_grown_nothing w sent1) as Hdb.
    destruct found as [id |]; cbn [ensureUserExists_create].
    - exists (inr true), [], sent1. unfold ret. repeat split; auto.
      intros _. rewrite app_nil_r. eauto.
    - unfold bind.
      destruct (on_userInsert env) as [[e | msg] |].
      + rewrite request_faulted, grown_grown. cbn.
        eexists _, [], _. unfold throw. split; [reflexivity |].
        repeat split; eauto. discriminate.
      + rewrite request_faulted, grown_grown. cbn.
        eexists _, [], _. split; [reflexivity |].
        repeat split; eauto. discriminate.
      + rewrite request_insert_user, Hdb.
        destruct (existsb _ _).
        * rewrite grown_grown. cbn.
          eexists _, [], _. unfold throw. split; [reflexivity |].
          repeat split; eauto. discriminate.
        * rewrite grown_grown. cbn.
          eexists _, [new_profile env userId], _. unfold ret.
          split; [reflexivity |]. repeat split; auto.
          intros _. exists (new_profile env userId). split; [| reflexivity].
          apply in_or_app. right. now left. }
  destruct (on_userSelect env) as [[e | msg] |].
  - rewrite request_faulted. cbn [error error_response data].
    destruct (String.eqb (code e) "PGRST116"); cbn [negb];
      unfold ret, throw; cbv beta iota.
    + apply (Create None _ [SelectUser userId]);
        [reflexivity | discriminate].
    + eexists _, [], _. split; [reflexivity |].
      repeat split; eauto. discriminate.
  - rewrite request_faulted.
    eexists _, [], _. split; [reflexivity |].
    repeat split; eauto. discriminate.
  - rewrite request_read by reflexivity.
    unfold select_user. cbn [fst].
    destruct (profiles_of userId (db w)) as [| r [| r' rest]] eqn:P;
      cbn [error error_response ok_response data];
      try (destruct (String.eqb (code no_single_row) "PGRST116"); cbn [negb]);
      unfold ret, throw; cbv beta iota;
      first [ solve [ apply (Create None _ [SelectUser userId]);
                      [reflexivity | discriminate] ]
            | solve [ eexists _, [], _; split; [reflexivity |];
                      repeat split; eauto; discriminate ]
            | idtac ].
    all: apply (Create (Some (up_id r)) _ [SelectUser userId]);
      [reflexivity |].
    all: intros id _; exists r.
    all: assert (Hin : In r (profiles_of userId (db w)))
      by (rewrite P; now left).
    all: apply filter_In in Hin; destruct Hin as [Hin Hid].
    all: apply String.eqb_eq in Hid; auto.
Qed.

Lemma insertBatches_grown canonicalId allDishes fuel i acc w :
  exists outcome rows sent,
    insertBatches env canonicalId allDishes fuel i acc w =
      (outcome, grown w [] (canonical_menus (db w)) [] rows sent)
    /\ Forall (fun r => md_canonical_menu_id r = canonicalId) rows
    /\ Forall (fun c => is_dish_insert c = true) sent
    /\ (forall acc', outcome = inr acc' ->
                     fst acc' = fst acc + List.length rows).
Proof.
  destruct (insertBatches_effect canonicalId allDishes fuel i acc w)
    as (outcome & rows & sent & E & H).
  exists outcome, rows, sent. split; [| exact H].
  rewrite E. unfold grown. now rewrite !app_nil_r.
Qed.

Lemma number_from_app {A} (a b : list A) : forall i,
  number_from i (a ++ b) =
  number_from i a ++ number_from (i + List.length a) b.
Proof.
  induction a as [| x a IH]; intros i; cbn [app number_from List.length].
  - now rewrite Nat.add_0_r.
  - rewrite IH. now rewrite Nat.add_succ_comm.
Qed.

(** The batches of the loop, put together, are the list it was given. *)
Lemma batches_cover {A} (l : list A) i :
  number_from i (skipn i l) =
  number_from i (slice i (i + BATCH_SIZE) l)
  ++ number_from (i + BATCH_SIZE) (skipn (i + BATCH_SIZE) l).
Proof.
  unfold slice. replace (i + BATCH_SIZE - i) with BATCH_SIZE by lia.
  rewrite <- (firstn_skipn BATCH_SIZE (skipn i l)) at 1.
  rewrite number_from_app, skipn_skipn, (Nat.add_comm BATCH_SIZE i).
  f_equal.
  destruct (Nat.le_gt_cases (i + BATCH_SIZE) (List.length l)) as [Hle | Hgt].
  - rewrite firstn_length_le; [reflexivity |]. rewrite length_skipn. lia.
  - rewrite (@skipn_all2 _ (i + BATCH_SIZE) l) by lia. reflexivity.
Qed.

(** When no dish insert fails, the loop stores every dish, in the order of
    the list, numbered from the position it had there. *)
Lemma insertBatches_quiet canonicalId allDishes :
  (forall b, on_dishInsert env b = None) ->
  forall fuel i acc w,
    List.length allDishes <= i + fuel ->
    exists sent,
      insertBatches env canonicalId allDishes fuel i acc w =
        (inr (fst acc + (List.length allDishes - i), snd acc),
         grown w [] (canonical_menus (db w)) []
           (map (fun d => dish_row env canonicalId (fst d) (snd d))
              (number_from i (skipn i allDishes)))
           sent).
Proof.
  intros Quiet.
  assert (Done : forall i acc w,
            (i <? List.length allDishes)%nat = false ->
            exists sent,
              @ret (nat * list PgError) acc w =
                (inr (fst acc + (List.length allDishes - i), snd acc),
                 grown w [] (canonical_menus (db w)) []
                   (map (fun d => dish_row env canonicalId (fst d) (snd d))
                      (number_from i (skipn i allDishes)))
                   sent)).
  { intros i acc w Hi. apply Nat.ltb_ge in Hi. exists [].
    rewrite (skipn_all2 allDishes) by lia. cbn [number_from map].
    rewrite grown_nothing. unfold ret. destruct acc as [n errs]. cbn [fst snd].
    repeat f_equal. lia. }
  induction fuel as [| fuel IH]; intros i acc w Hfuel; cbn [insertBatches].
  - destruct (i <? List.length allDishes)%nat eqn:Hi.
    + apply Nat.ltb_lt in Hi. lia.
    + now apply Done.
  - destruct (i <? List.length allDishes)%nat eqn:Hi; [| now apply Done].
    apply Nat.ltb_lt in Hi.
    unfold bind, request. rewrite Quiet. unfold insert_dishes.
    cbn [error ok_response data].
    match goal with
    | |- context [insertBatches _ _ _ _ _ ?acc1 ?w1] =>
        destruct (IH (i + BATCH_SIZE) acc1 w1) as [sent E];
          [unfold BATCH_SIZE; lia | rewrite E]
    end.
    eexists (_ :: sent). cbn [fst snd db calls canonical_menus].
    rewrite (batches_cover allDishes i), map_app.
    f_equal.
    + do 2 f_equal.
      rewrite !length_map, number_from_length. unfold slice.
      rewrite length_firstn, length_skipn. unfold BATCH_SIZE. lia.
    + unfold grown, with_tables.
      cbn [db calls user_profile canonical_menus menu_scan menu_dishes].
      rewrite !app_nil_r, <- !app_assoc. reflexivity.
Qed.

(** Scenario A, whatever the fate of its request: it adds at most one scan,
    which refers to the menu found, and exactly that one when it returns. *)
Lemma scenarioA_effect structuredResult userId ecm w :
  exists outcome scans sent,
    scenarioA env structuredResult userId ecm w =
      (outcome, grown w [] (canonical_menus (db w)) scans [] sent)
    /\ (scans = [] /\ (exists e, outcome = inl e)
        \/ scans = [scan_row env structuredResult userId (uuidv4 env)
                      (cs_id ecm)]
           /\ outcome = inr (reuse_result env ecm)).
Proof.
  unfold scenarioA, bind.
  destruct (on_scanInsert env) as [[e | msg] |].
  - rewrite request_faulted. cbn [error error_response]. unfold throw.
    eexists _, [], _. split; [reflexivity |]. left. eauto.
  - rewrite request_faulted.
    eexists _, [], _. split; [reflexivity |]. left. eauto.
  - rewrite request_insert_scan. cbn [error ok_response]. unfold ret.
    eexists _, [_], _. split; [reflexivity |]. right. auto.
Qed.

(** Scenario B, whatever the fate of its requests; its first request is
    the insert into [canonical_menus]. *)
Lemma scenarioB_effect structuredResult userId w :
  exists outcome cans' cans scans dishes sent,
    scenarioB env structuredResult userId w =
      (outcome, grown w [] cans' scans dishes sent)
    /\ (exists rest,
          sent = InsertCanonical (sr_contentHash structuredResult) :: rest)
    /\ map created_as cans' = map created_as (canonical_menus (db w) ++ cans)
    /\ (cans = [] /\ scans = [] /\ dishes = [] /\ (exists e, outcome = inl e)
        \/ cans = [new_canonical_row env structuredResult]
           /\ existsb (has_content_hash (sr_contentHash structuredResult))
                (canonical_menus (db w)) = false
           /\ (scans = [] /\ dishes = [] /\ (exists e, outcome = inl e)
               \/ scans = [scan_row env structuredResult userId (uuidv4 env)
                             (canonical_uuid env)]
                  /\ Forall (fun r => md_canonical_menu_id r
                                      = canonical_uuid env) dishes
                  /\ (forall r, outcome = inr r ->
                        r = new_result env (canonical_uuid env)
                              (List.length dishes))
                  /\ (forall r, outcome = inr r ->
                      (forall b, on_dishInsert env b = None) ->
                      dishes = all_dish_rows env (canonical_uuid env)
                                 (sr_structuredData structuredResult)))).
Proof.
  unfold scenarioB, bind.
  destruct (on_canonicalInsert env) as [[e | msg] |].
  { rewrite request_faulted. cbn [error error_response]. unfold throw.
    eexists _, _, [], [], [], _. split; [reflexivity |].
    split; [eexists; reflexivity |].
    rewrite app_nil_r. split; [reflexivity |]. left. eauto 6. }
  { rewrite request_faulted.
    eexists _, _, [], [], [], _. split; [reflexivity |].
    split; [eexists; reflexivity |].
    rewrite app_nil_r. split; [reflexivity |]. left. eauto 6. }
  rewrite request_insert_canonical.
  cbn [cm_content_hash new_canonical_row].
  destruct (existsb _ _) eqn:Fresh.
  { cbn [error error_response]. unfold throw.
    eexists _, _, [], [], [], _. split; [reflexivity |].
    split; [eexists; reflexivity |].
    rewrite app_nil_r. split; [reflexivity |]. left. eauto 6. }
  cbn [error ok_response data cm_id new_canonical_row].
  set (w1 := grown w [] _ [] [] _).
  assert (C1 : canonical_menus (db w1)
               = canonical_menus (db w) ++ [new_canonical_row env structuredResult])
    by reflexivity.
  destruct (on_scanInsert env) as [[e | msg] |].
  { rewrite request_faulted, C1. cbn [error error_response]. unfold throw.
    subst w1. rewrite grown_grown.
    eexists _, _, [_], [], [], _. split; [reflexivity |].
    split; [eexists; reflexivity |].
    split; [reflexivity |]. right. repeat split; auto. left. eauto. }
  { rewrite request_faulted, C1. subst w1. rewrite grown_grown.
    eexists _, _, [_], [], [], _. split; [reflexivity |].
    split; [eexists; reflexivity |].
    split; [reflexivity |]. right. repeat split; auto. left. eauto. }
  rewrite request_insert_scan, C1. cbn [error ok_response].
  subst w1. rewrite grown_grown. cbn [app].
  set (w2 := grown w _ _ _ _ _).
  assert (C2 : canonical_menus (db w2)
               = canonical_menus (db w) ++ [new_canonical_row env structuredResult])
    by reflexivity.
  assert (Batches : forall cans' sent,
    map created_as cans' = map created_as (canonical_menus (db w2)) ->
    exists outcome dishes sent',
      (let (s, w') :=
         insertBatches env (canonical_uuid env)
           (collectDishes (sr_structuredData structuredResult))
           (List.length (collectDishes (sr_structuredData structuredResult)))
           0 (0, []) (grown w2 [] cans' [] [] sent) in
       match s with
       | inl e => (inl e, w')
       | inr acc => ret (new_result env (canonical_uuid env) (fst acc)) w'
       end) =
        (outcome,
         grown w [] cans'
           [scan_row env structuredResult userId (uuidv4 env)
              (canonical_uuid env)] dishes sent')
      /\ Forall (fun r => md_canonical_menu_id r = canonical_uuid env) dishes
      /\ (forall r, outcome = inr r ->
            r = new_result env (canonical_uuid env) (List.length dishes))
      /\ (forall r, outcome = inr r ->
          (forall b, on_dishInsert env b = None) ->
          dishes = all_dish_rows env (canonical_uuid env)
                     (sr_structuredData structuredResult))
      /\ (exists rest,
            sent' = InsertCanonical (sr_contentHash structuredResult) :: rest)).
  { intros cans' sent _.
    assert (Q : (forall b, on_dishInsert env b = None) ->
                forall rows w' o sent',
                  insertBatches env (canonical_uuid env)
                    (collectDishes (sr_structuredData structuredResult))
                    (List.length
                       (collectDishes (sr_structuredData structuredResult)))
                    0 (0, []) w' =
                    (o, grown w' [] (canonical_menus (db w')) [] rows sent') ->
                  rows = all_dish_rows env (canonical_uuid env)
                           (sr_structuredData structuredResult)).
    { intros Quiet rows w' o sent' E.
      destruct (insertBatches_quiet (canonical_uuid env)
                  (collectDishes (sr_structuredData structuredResult)) Quiet
                  (List.length
                     (collectDishes (sr_structuredData structuredResult)))
                  0 (0, []) w') as [sentq Eq]; [lia |].
      rewrite Eq in E.
      apply (f_equal (fun p => menu_dishes (db (snd p)))) in E.
      cbn [snd] in E. rewrite !dishes_grown in E.
      apply app_inv_head in E. now rewrite <- E. }
    destruct (insertBatches_grown (canonical_uuid env)
                (collectDishes (sr_structuredData structuredResult))
                (List.length (collectDishes (sr_structuredData structuredResult)))
                0 (0, []) (grown w2 [] cans' [] [] sent))
      as (outcome & rows & sent' & E & Hrows & _ & Hacc).
    rewrite E. subst w2. rewrite !grown_grown. cbn [app].
    destruct outcome as [e | acc].
    - eexists _, rows, _. split; [reflexivity |]. split; [exact Hrows |].
      split; [discriminate |]. split; [discriminate |].
      eexists; reflexivity.
    - eexists _, rows, _. unfold ret. split; [reflexivity |].
      split; [exact Hrows |]. split; [| split].
      + intros r [= <-]. now rewrite (Hacc acc eq_refl).
      + intros r _ Quiet. exact (Q Quiet _ _ _ _ E).
      + eexists; reflexivity. }
  destruct (on_firstScanUpdate env) as [[e | msg] |].
  - rewrite request_faulted.
    destruct (Batches (canonical_menus (db w2))
                [UpdateFirstScan (canonical_uuid env) (uuidv4 env)] eq_refl)
      as (outcome & dishes & sent' & E & Hd & Hr & Hq & Hsent).
    rewrite E. exists outcome. eexists _, [_], [_], dishes, sent'.
    split; [reflexivity |]. split; [exact Hsent |].
    split; [now rewrite C2 |].
    right. repeat split; auto.
  - rewrite request_faulted. subst w2. rewrite grown_grown. cbn [app].
    eexists _, _, [_], [_], [], _. split; [reflexivity |].
    split; [eexists; reflexivity |].
    split; [reflexivity |]. right. repeat split; auto. right.
    repeat split; auto; discriminate.
  - destruct (request_update
                (UpdateFirstScan (canonical_uuid env) (uuidv4 env))
                (canonical_uuid env) (uuidv4 env) w2) as (cans' & Hc & E0).
    rewrite E0.
    destruct (Batches cans'
                [UpdateFirstScan (canonical_uuid env) (uuidv4 env)] Hc)
      as (outcome & dishes & sent' & E & Hd & Hr & Hq & Hsent).
    rewrite E. exists outcome. eexists cans', [_], [_], dishes, sent'.
    split; [reflexivity |]. split; [exact Hsent |].
    split; [now rewrite Hc, C2 |].
    right. repeat split; auto.
Qed.

(** What one call of [saveToSupabase] does, whatever the store and whatever
    the fate of its requests. *)
Lemma saveToSupabase_effect structuredResult userId w :
  exists outcome users cans' cans scans dishes sent,
    saveToSupabase env structuredResult userId w =
      (outcome, grown w users cans' scans dishes sent)
    /\ map created_as cans' = map created_as (canonical_menus (db w) ++ cans)
    /\ (users = [] \/ users = [new_profile env userId])
    /\ (cans = []
        \/ cans = [new_canonical_row env structuredResult]
           /\ existsb (has_content_hash (sr_contentHash structuredResult))
                (canonical_menus (db w)) = false)
    /\ (scans = []
        \/ exists row,
             In row (canonical_menus (db w) ++ cans)
             /\ cm_content_hash row = sr_contentHash structuredResult
             /\ scans = [scan_row env structuredResult userId (uuidv4 env)
                           (cm_id row)])
    /\ Forall (fun r => md_canonical_menu_id r = canonical_uuid env) dishes
    /\ (dishes <> [] ->
        cans = [new_canonical_row env structuredResult]
        /\ scans = [scan_row env structuredResult userId (uuidv4 env)
                      (canonical_uuid env)])
    /\ (forall r, outcome = inr r ->
          (exists prior,
              latest (filter (scan_matches userId
                                (sr_imageHash structuredResult))
                        (menu_scan (db w))) = Some prior
              /\ truthy (sr_imageHash structuredResult) = true
              /\ on_userScanSelect env = None
              /\ r = duplicate_result (scan_summary prior)
              /\ users = [] /\ cans = [] /\ scans = [] /\ dishes = [])
          \/ (exists p, In p (user_profile (db w) ++ users)
                        /\ up_id p = userId)
             /\ (truthy (sr_imageHash structuredResult) = true ->
                 on_userScanSelect env = None ->
                 filter (scan_matches userId (sr_imageHash structuredResult))
                   (menu_scan (db w)) = [])
             /\ ((exists row,
                     In row (canonical_menus (db w))
                     /\ cm_content_hash row = sr_contentHash structuredResult
                     /\ hd_error
                          (filter (has_content_hash
                                     (sr_contentHash structuredResult))
                             (canonical_menus (db w))) = Some row
                     /\ r = reuse_result env (canonical_summary row)
                     /\ cans = []
                     /\ scans = [scan_row env structuredResult userId
                                   (uuidv4 env) (cm_id row)]
                     /\ dishes = [])
                 \/ (r = new_result env (canonical_uuid env)
                           (List.length dishes)
                     /\ cans = [new_canonical_row env structuredResult]
                     /\ scans = [scan_row env structuredResult userId
                                   (uuidv4 env) (canonical_uuid env)]
                     /\ ((forall b, on_dishInsert env b = None) ->
                         dishes = all_dish_rows env (canonical_uuid env)
                                    (sr_structuredData structuredResult))))).
Proof.
  rewrite saveToSupabase_paths. unfold bind at 1.
  destruct (checkForExistingUserScan_cases userId
              (sr_imageHash structuredResult) w)
    as [sent0 [[E0 Hnone] | (prior & Hin & Hm & Hl & Ht & Hans & E0)]];
    rewrite E0.
  2:{ unfold ret.
      eexists _, [], _, [], [], [], _. split; [reflexivity |].
      rewrite app_nil_r. repeat split; auto; try congruence.
      intros r [= <-]. left. exists prior. repeat split; auto. }
  unfold bind at 1.
  destruct (ensureUserExists_effect userId
              (grown w [] (canonical_menus (db w)) [] [] sent0))
    as (o1 & users & sent1 & E1 & Husers & Ho1 & Hp).
  rewrite E1. clear E1.
  rewrite canonical_grown, grown_grown in *.
  rewrite users_grown, app_nil_r in Hp. cbn [app].
  destruct Ho1 as [-> | (e & -> & ->)].
  2:{ eexists _, [], _, [], [], [], _. split; [reflexivity |].
      rewrite app_nil_r. repeat split; auto; congruence. }
  specialize (Hp eq_refl).
  unfold bind.
  destruct (checkForExistingCanonicalMenu_cases
              (sr_contentHash structuredResult)
              (grown w users (canonical_menus (db w)) [] [] (sent0 ++ sent1)))
    as [sent2 [E2 | (row & Hrow & Hh & Hhd & Htc & E2)]]; rewrite E2; clear E2;
    rewrite canonical_grown in *; rewrite grown_grown;
    rewrite try_catch_rethrow, !app_nil_r.
  - match goal with
    | |- context [scenarioB _ _ _ ?w2] =>
        destruct (scenarioB_effect structuredResult userId w2)
          as (o & cans' & cans & scans & dishes & sent3 & E3 & _ & Hc
              & Hcases)
    end.
    rewrite E3. clear E3. rewrite canonical_grown in *. rewrite grown_grown.
    rewrite !app_nil_r. cbn [app].
    exists o, users, cans', cans, scans, dishes. eexists.
    split; [reflexivity |]. split; [exact Hc |]. split; [exact Husers |].
    destruct Hcases as [(-> & -> & -> & e & ->)
                       | (-> & Fresh
                          & [(-> & -> & e & ->) | (-> & Hd & Hr & Hq)])].
    + repeat split; auto; congruence.
    + repeat split; auto; congruence.
    + split; [auto |]. split.
      { right. exists (new_canonical_row env structuredResult).
        split; [apply in_or_app; right; now left |]. split; reflexivity. }
      split; [exact Hd |]. split; [auto |].
      intros r Hr'. right. split; [exact Hp |]. split; [exact Hnone |].
      right. rewrite (Hr r Hr'). repeat split; auto. exact (Hq r Hr').
  - match goal with
    | |- context [scenarioA _ _ _ _ ?w2] =>
        destruct (scenarioA_effect structuredResult userId
                    (canonical_summary row) w2)
          as (o & scans & sent3 & E3 & Hcases)
    end.
    rewrite E3. clear E3. rewrite canonical_grown in *. rewrite grown_grown.
    rewrite !app_nil_r. cbn [app].
    exists o, users. eexists _, [], scans, [], _.
    split; [reflexivity |]. rewrite app_nil_r. split; [reflexivity |].
    split; [exact Husers |].
    destruct Hcases as [(-> & e & ->) | (-> & ->)].
    + repeat split; auto; congruence.
    + split; [auto |]. split.
      { right. exists row. repeat split; auto. }
      split; [constructor |]. split; [congruence |].
      intros r [= <-]. right. split; [exact Hp |]. split; [exact Hnone |].
      left. exists row. repeat split; auto.
Qed.

Lemma ids_of_created (l l' : list CanonicalMenuRow) :
  map created_as l' = map created_as l -> map cm_id l' = map cm_id l.
Proof.
  intros E.
  assert (H : forall k : list CanonicalMenuRow,
            map cm_id k = map (fun t => fst (fst (fst t))) (map created_as k)).
  { intros k. rewrite map_map. reflexivity. }
  now rewrite (H l), (H l'), E.
Qed.

(** The look-up by content hash reads the creation columns only. *)
Lemma lookup_by_created_as contentHash : forall (l l' : list CanonicalMenuRow),
  map created_as l' = map created_as l ->
  option_map canonical_summary (hd_error (filter (has_content_hash contentHash) l'))
  = option_map canonical_summary (hd_error (filter (has_content_hash contentHash) l)).
Proof.
  induction l as [| r l IH]; intros [| r' l'] E; try discriminate E;
    [reflexivity |].
  cbn [map] in E. injection E as Eid Eh Ec Et El.
  cbn [filter].
  assert (Hh : has_content_hash contentHash r' = has_content_hash contentHash r)
    by (unfold has_content_hash; now rewrite Eh).
  rewrite Hh. destruct (has_content_hash contentHash r).
  - cbn [hd_error option_map]. unfold canonical_summary.
    now rewrite Eid, Ec, Et.
  - exact (IH l' El).
Qed.

Lemma existsb_false_filter {A} (f : A -> bool) (l : list A) :
  existsb f l = false -> filter f l = [].
Proof.
  induction l as [| a l IH]; cbn [existsb filter]; [reflexivity |].
  destruct (f a); cbn [orb]; [discriminate | exact IH].
Qed.

(** X10. [ensureUserExists] touches no table but [user_profile]; when it
    returns, it returns [true] and the store holds a profile of the user;
    when it throws, the profiles are as before. *)
Theorem ensureUserExists_returns_only_with_a_profile userId w :
  let run := ensureUserExists env userId w in
  canonical_menus (db (snd run)) = canonical_menus (db w)
  /\ menu_scan (db (snd run)) = menu_scan (db w)
  /\ menu_dishes (db (snd run)) = menu_dishes (db w)
  /\ match fst run with
     | inr answer =>
         answer = true
         /\ (exists p, In p (user_profile (db (snd run))) /\ up_id p = userId)
         /\ (user_profile (db (snd run)) = user_profile (db w)
             \/ user_profile (db (snd run))
                = user_profile (db w) ++ [new_profile env userId])
     | inl _ => user_profile (db (snd run)) = user_profile (db w)
     end.
Proof.
  destruct (ensureUserExists_effect userId w)
    as (outcome & users & sent & E & Husers & Ho & Hp).
  intros run. subst run. rewrite E. cbn [fst snd].
  rewrite canonical_grown, scans_grown, dishes_grown, users_grown, !app_nil_r.
  repeat split.
  destruct Ho as [-> | (e & -> & ->)].
  - split; [reflexivity |]. split; [exact (Hp eq_refl) |].
    destruct Husers as [-> | ->]; [left; apply app_nil_r | now right].
  - apply app_nil_r.
Qed.

(** X11. A look-up that is answered finds a row exactly when one is
    stored: the look-up by image hash reports no scan if and only if the
    user has no stored scan of that image, and the look-up by content hash
    reports no menu if and only if no stored menu has that content hash. *)
Theorem answered_lookups_find_what_is_stored
    userId imageHash contentHash w :
  truthy imageHash = true ->
  truthy contentHash = true ->
  on_userScanSelect env = None ->
  on_canonicalSelect env = None ->
  (fst (checkForExistingUserScan env userId imageHash w) = inr None
   <-> forall s, In s (menu_scan (db w)) ->
                 ~ (ms_user_id s = userId /\ ms_image_hash s = imageHash))
  /\ (fst (checkForExistingCanonicalMenu env contentHash w) = inr None
      <-> forall r, In r (canonical_menus (db w)) ->
                    cm_content_hash r <> contentHash).
Proof.
  intros Ti Tc Fi Fc. split.
  - rewrite (checkForExistingUserScan_answered env userId imageHash w Ti Fi).
    cbn [fst]. split.
    + intros H s Hin Hm. apply scan_matches_spec in Hm.
      destruct (latest_nonempty
                  (filter (scan_matches userId imageHash) (menu_scan (db w))))
        as [r Hr].
      { intros Hnil.
        assert (Hf : In s (filter (scan_matches userId imageHash)
                             (menu_scan (db w))))
          by (apply filter_In; auto).
        rewrite Hnil in Hf. exact Hf. }
      rewrite Hr in H. discriminate H.
    + intros H.
      destruct (latest (filter (scan_matches userId imageHash)
                          (menu_scan (db w)))) as [r |] eqn:L;
        [| reflexivity].
      apply latest_some in L. destruct L as [Hin _].
      apply filter_In in Hin. destruct Hin as [Hin Hm].
      apply scan_matches_spec in Hm. now destruct (H r Hin).
  - rewrite (checkForExistingCanonicalMenu_answered contentHash w Tc Fc).
    cbn [fst]. split.
    + intros H r Hin Hh.
      assert (Hf : In r (filter (has_content_hash contentHash)
                           (canonical_menus (db w)))).
      { apply filter_In. split; [exact Hin |]. now apply String.eqb_eq. }
      destruct (filter (has_content_hash contentHash) (canonical_menus (db w)));
        [exact Hf | discriminate H].
    + intros H.
      destruct (filter (has_content_hash contentHash) (canonical_menus (db w)))
        as [| r rest] eqn:Fl; [reflexivity |].
      assert (Hf : In r (filter (has_content_hash contentHash)
                           (canonical_menus (db w))))
        by (rewrite Fl; now left).
      apply filter_In in Hf. destruct Hf as [Hin Hh].
      apply String.eqb_eq in Hh. now destruct (H r Hin).
Qed.

(** X12. Whatever the store and whatever the fate of its requests, a call
    of [saveToSupabase] deletes nothing and reorders nothing: each table
    keeps its rows and gets new rows at its end, at most one profile, one
    canonical menu and one scan; a stored canonical menu keeps its id, its
    content hash, its dish count and its creation time. *)
Theorem saveToSupabase_only_adds_rows structuredResult userId w :
  exists users cans scans dishes,
    let after_run := db (snd (saveToSupabase env structuredResult userId w)) in
    user_profile after_run = user_profile (db w) ++ users
    /\ map created_as (canonical_menus after_run)
       = map created_as (canonical_menus (db w) ++ cans)
    /\ menu_scan after_run = menu_scan (db w) ++ scans
    /\ menu_dishes after_run = menu_dishes (db w) ++ dishes
    /\ List.length users <= 1
    /\ List.length cans <= 1
    /\ List.length scans <= 1.
Proof.
  destruct (saveToSupabase_effect structuredResult userId w)
    as (outcome & users & cans' & cans & scans & dishes & sent
        & E & Hc & Hu & Hcn & Hs & _).
  exists users, cans, scans, dishes. rewrite E. cbn [snd].
  rewrite users_grown, canonical_grown, scans_grown, dishes_grown.
  repeat split; auto.
  - destruct Hu as [-> | ->]; cbn; lia.
  - destruct Hcn as [-> | [-> _]]; cbn; lia.
  - destruct Hs as [-> | (row & _ & _ & ->)]; cbn; lia.
Qed.

(** X13. References stay valid: if every stored scan and every stored dish
    refers to a stored canonical menu, the same holds after a call of
    [saveToSupabase], whether it returns or throws and whatever requests
    fail on the way. *)
Theorem saveToSupabase_keeps_references_valid structuredResult userId w :
  linked (db w) ->
  linked (db (snd (saveToSupabase env structuredResult userId w))).
Proof.
  intros [Ls Ld].
  destruct (saveToSupabase_effect structuredResult userId w)
    as (outcome & users & cans' & cans & scans & dishes & sent
        & E & Hc & _ & _ & Hs & Hd & Hdn & _).
  rewrite E. cbn [snd]. unfold linked.
  rewrite canonical_grown, scans_grown, dishes_grown.
  rewrite (ids_of_created _ _ Hc), map_app.
  split.
  - intros s Hin. apply in_app_or in Hin. destruct Hin as [Hin | Hin].
    + apply in_or_app. left. now apply Ls.
    + destruct Hs as [-> | (row & Hrow & _ & ->)]; [destruct Hin |].
      destruct Hin as [<- | []]. cbn [ms_canonical_menu_id scan_row].
      rewrite <- map_app. now apply in_map.
  - intros r Hin. apply in_app_or in Hin. destruct Hin as [Hin | Hin].
    + apply in_or_app. left. now apply Ld.
    + destruct Hdn as [-> _].
      { intros ->. destruct Hin. }
      rewrite Forall_forall in Hd. rewrite (Hd r Hin).
      apply in_or_app. right. now left.
Qed.

(** X14. Whenever [saveToSupabase] returns, its [scanId] is the id of a
    stored scan of this user and this image hash.  Unless the result
    reports a duplicate, that scan refers to the canonical menu named by
    [canonicalId], which is stored with the content hash of the call, and
    the user has a stored profile. *)
Theorem saveToSupabase_result_names_a_stored_scan
    structuredResult userId w r w' :
  saveToSupabase env structuredResult userId w = (inr r, w') ->
  exists s,
    In s (menu_scan (db w'))
    /\ ms_id s = scanId r
    /\ ms_user_id s = userId
    /\ ms_image_hash s = sr_imageHash structuredResult
    /\ (method r = "duplicate_image_hash" /\ canonicalId r = None
        \/ exists row p,
             In row (canonical_menus (db w'))
             /\ canonicalId r = Some (cm_id row)
             /\ ms_canonical_menu_id s = cm_id row
             /\ cm_content_hash row = sr_contentHash structuredResult
             /\ In p (user_profile (db w'))
             /\ up_id p = userId).
Proof.
  intros Hrun.
  destruct (saveToSupabase_effect structuredResult userId w)
    as (outcome & users & cans' & cans & scans & dishes & sent
        & E & Hc & _ & _ & _ & _ & _ & Hr).
  rewrite E in Hrun. injection Hrun as -> <-.
  rewrite canonical_grown, scans_grown, users_grown.
  destruct (Hr r eq_refl)
    as [(prior & Hl & _ & _ & -> & _ & _ & -> & _)
       | ((p & Hp & Hpid) & _
          & [(row & Hrow & Hh & _ & -> & -> & -> & _)
            | (-> & -> & -> & _)])].
  - apply latest_some in Hl. destruct Hl as [Hin _].
    apply filter_In in Hin. destruct Hin as [Hin Hm].
    apply scan_matches_spec in Hm. destruct Hm as [Hu Hi].
    exists prior. rewrite app_nil_r. repeat split; auto.
  - destruct (created_as_In _ cans' row Hc) as (row' & Hin' & Hid & Hh' & _).
    { rewrite app_nil_r. exact Hrow. }
    eexists. split; [apply in_or_app; right; now left |].
    repeat split. right. exists row', p.
    cbn [canonicalId reuse_result cs_id canonical_summary
         ms_canonical_menu_id scan_row].
    rewrite Hid, Hh'. repeat split; auto.
  - destruct (created_as_In _ cans' (new_canonical_row env structuredResult) Hc)
      as (row' & Hin' & Hid & Hh' & _).
    { apply in_or_app. right. now left. }
    eexists. split; [apply in_or_app; right; now left |].
    repeat split. right. exists row', p.
    cbn [canonicalId new_result ms_canonical_menu_id scan_row].
    rewrite Hid, Hh'. repeat split; auto.
Qed.

(** X15. Dishes are stored only by a call that also creates their menu:
    every dish row that a call adds carries the id of the canonical menu
    which that call has inserted, for a content hash that no stored menu
    had, and the call has stored its scan too.  A result
    [new_canonical_menu] reports as [dishCount] the number of rows added,
    and a call that returns any other result adds none. *)
Theorem dishes_are_added_only_with_a_new_menu structuredResult userId w :
  exists dishes,
    let run := saveToSupabase env structuredResult userId w in
    menu_dishes (db (snd run)) = menu_dishes (db w) ++ dishes
    /\ Forall (fun d => md_canonical_menu_id d = canonical_uuid env) dishes
    /\ (dishes = []
        \/ existsb (has_content_hash (sr_contentHash structuredResult))
             (canonical_menus (db w)) = false
           /\ (exists row, In row (canonical_menus (db (snd run)))
                           /\ cm_id row = canonical_uuid env
                           /\ cm_content_hash row
                              = sr_contentHash structuredResult)
           /\ In (scan_row env structuredResult userId (uuidv4 env)
                    (canonical_uuid env))
                (menu_scan (db (snd run))))
    /\ match fst run with
       | inr r => if String.eqb (method r) "new_canonical_menu"
                  then dishCount r = Some (List.length dishes)
                  else dishes = []
       | inl _ => True
       end.
Proof.
  destruct (saveToSupabase_effect structuredResult userId w)
    as (outcome & users & cans' & cans & scans & dishes & sent
        & E & Hc & _ & Hcn & _ & Hd & Hdn & Hr).
  exists dishes. rewrite E. cbn [fst snd].
  rewrite canonical_grown, scans_grown, dishes_grown.
  split; [reflexivity |]. split; [exact Hd |]. split.
  - destruct dishes as [| d rest]; [now left |]. right.
    destruct Hdn as [-> ->]; [discriminate |].
    destruct Hcn as [Hnil | [_ Fresh]]; [discriminate Hnil |].
    split; [exact Fresh |]. split.
    + destruct (created_as_In _ cans'
                  (new_canonical_row env structuredResult) Hc)
        as (row' & Hin' & Hid & Hh' & _).
      { apply in_or_app. right. now left. }
      exists row'. auto.
    + apply in_or_app. right. now left.
  - destruct outcome as [e | r]; [exact I |].
    destruct (Hr r eq_refl)
      as [(prior & _ & _ & _ & -> & _ & _ & _ & ->)
         | (_ & _ & [(row & _ & _ & _ & -> & _ & _ & ->) | (-> & _)])];
      reflexivity.
Qed.

Lemma collectDishes_menu_order menu :
  collectDishes menu = menu_order (categories menu).
Proof.
  unfold collectDishes.
  induction (categories menu) as [| category rest IH];
    cbn [flat_map menu_order]; [reflexivity |].
  rewrite IH. f_equal.
  destruct (cat_dishes category) as [dishes |]; [| reflexivity].
  induction dishes as [| dish dishes IHd]; cbn [map labelled];
    [reflexivity | now rewrite IHd].
Qed.

Lemma dish_rows_stored_as canonicalId (l : list (Dish * jsstring)) :
  forall i,
    Forall2 (stored_as canonicalId) l
      (map (fun d => dish_row env canonicalId (fst d) (snd d))
         (number_from i l)).
Proof.
  induction l as [| [dish category] l IH]; intros i;
    cbn [number_from map]; constructor; [| apply IH].
  unfold stored_as, dish_row.
  cbn [fst snd md_canonical_menu_id md_dish_name md_category md_price
       md_description md_tags].
  repeat split.
  destruct (dish_description dish) as [[| c text] |]; reflexivity.
Qed.

(** X18. Batching loses no dish and keeps the order of the menu: when no
    dish insert fails, a call that returns [new_canonical_menu] has
    appended to [menu_dishes] exactly one row for every dish of the menu,
    the dishes of the first category first and in their order, then those
    of the next category, whatever the number of batches; each row holds
    the name, category, price, description and tags of its dish and the id
    of the new canonical menu; and [dishCount] is the number of dishes of
    the menu. *)
Theorem all_dishes_are_stored_in_menu_order structuredResult userId w r w' :
  (forall b, on_dishInsert env b = None) ->
  saveToSupabase env structuredResult userId w = (inr r, w') ->
  method r = "new_canonical_menu" ->
  (exists added,
      menu_dishes (db w') = menu_dishes (db w) ++ added
      /\ Forall2 (stored_as (canonical_uuid env))
           (menu_order (categories (sr_structuredData structuredResult)))
           added)
  /\ dishCount r =
       Some (List.length
               (menu_order (categories (sr_structuredData structuredResult))))
  /\ menu_dishes (db w') =
       menu_dishes (db w)
       ++ all_dish_rows env (canonical_uuid env)
            (sr_structuredData structuredResult)
  /\ dishCount r = Some (countDishes (sr_structuredData structuredResult)).
Proof.
  intros Quiet Hrun Hm.
  destruct (saveToSupabase_effect structuredResult userId w)
    as (outcome & users & cans' & cans & scans & dishes & sent
        & E & _ & _ & _ & _ & _ & _ & Hr).
  rewrite E in Hrun. injection Hrun as -> <-.
  rewrite dishes_grown.
  destruct (Hr r eq_refl)
    as [(prior & _ & _ & _ & -> & _)
       | (_ & _ & [(row & _ & _ & _ & -> & _) | (-> & _ & _ & Hq)])];
    try discriminate Hm.
  rewrite (Hq Quiet).
  assert (Hlen : List.length
                   (all_dish_rows env (canonical_uuid env)
                      (sr_structuredData structuredResult))
                 = countDishes (sr_structuredData structuredResult)).
  { unfold all_dish_rows.
    now rewrite length_map, number_from_length, collectDishes_length. }
  split; [| split; [| split]].
  - eexists. split; [reflexivity |]. unfold all_dish_rows.
    rewrite <- collectDishes_menu_order. apply dish_rows_stored_as.
  - cbn [dishCount new_result].
    now rewrite Hlen, <- collectDishes_menu_order, collectDishes_length.
  - reflexivity.
  - cbn [dishCount new_result]. now rewrite Hlen.
Qed.

End StoreFacts.

(** ** [saveToSupabase]: one call after another *)

Section StoreRoundTrips.

Import Persist Paths Shapes.

(** X16. Scanning the same image again gives back the scan of the first
    call: after a call has returned, with an image hash that is not empty
    and its look-up by image hash answered, a second call by the same user
    with the same image hash, its look-up answered too, returns
    [duplicate_image_hash] with the [scanId] of the first call, sends that
    one look-up and leaves the store as it is. *)
Theorem rescan_returns_the_first_scan
    (env env2 : Env) structuredResult structuredResult2 userId w r w' :
  truthy (sr_imageHash structuredResult) = true ->
  on_userScanSelect env = None ->
  on_userScanSelect env2 = None ->
  sr_imageHash structuredResult2 = sr_imageHash structuredResult ->
  saveToSupabase env structuredResult userId w = (inr r, w') ->
  saveToSupabase env2 structuredResult2 userId w' =
    (inr {| scanId := scanId r;
            method := "duplicate_image_hash";
            existingScan := Some true;
            canonicalId := None;
            existingCanonicalMenuFirstScanId := None;
            dishCount := None;
            newDishes := None |},
     {| db := db w';
        calls := calls w'
                 ++ [SelectUserScan userId (sr_imageHash structuredResult)] |}).
Proof.
  intros T F F2 Eh Hrun.
  destruct (saveToSupabase_effect env structuredResult userId w)
    as (outcome & users & cans' & cans & scans & dishes & sent
        & E & _ & _ & _ & _ & _ & _ & Hr).
  rewrite E in Hrun. injection Hrun as -> <-.
  assert (L : exists s,
             latest (filter (scan_matches userId (sr_imageHash structuredResult))
                       (menu_scan (db w) ++ scans)) = Some s
             /\ ms_id s = scanId r).
  { assert (New : forall canonicalId_,
              Some (scan_row env structuredResult userId (uuidv4 env)
                      canonicalId_) =
              latest (filter (scan_matches userId
                                (sr_imageHash structuredResult))
                        [scan_row env structuredResult userId (uuidv4 env)
                           canonicalId_])).
    { intros c. cbn [filter]. unfold scan_matches at 1.
      cbn [ms_user_id ms_image_hash scan_row].
      now rewrite !String.eqb_refl. }
    destruct (Hr r eq_refl)
      as [(prior & Hl & _ & _ & -> & _ & _ & -> & _)
         | (_ & Hnone
            & [(row & _ & _ & _ & -> & _ & -> & _) | (-> & _ & -> & _)])].
    - exists prior. rewrite app_nil_r. auto.
    - rewrite filter_app, (Hnone T F). cbn [app]. rewrite <- New.
      eexists. split; reflexivity.
    - rewrite filter_app, (Hnone T F). cbn [app]. rewrite <- New.
      eexists. split; reflexivity. }
  destruct L as (s & Hs & Hid).
  rewrite saveToSupabase_paths. unfold bind. rewrite Eh.
  rewrite (checkForExistingUserScan_answered env2 userId _ _ T F2).
  rewrite scans_grown, Hs. cbn [option_map]. unfold ret, duplicate_result.
  cbn [ss_id scan_summary]. now rewrite Hid.
Qed.

(** X17. A menu that has been saved is found by its content hash: after a
    call has returned a result with a [canonicalId], for a content hash
    that is not empty, an answered look-up by that content hash finds the
    canonical menu of that id. *)
Theorem saved_menu_is_found_by_its_content_hash
    (env env2 : Env) structuredResult userId w r w' canonicalId_ :
  truthy (sr_contentHash structuredResult) = true ->
  on_canonicalSelect env2 = None ->
  saveToSupabase env structuredResult userId w = (inr r, w') ->
  canonicalId r = Some canonicalId_ ->
  exists found,
    fst (checkForExistingCanonicalMenu env2
           (sr_contentHash structuredResult) w') = inr (Some found)
    /\ cs_id found = canonicalId_.
Proof.
  intros T F2 Hrun Hcid.
  destruct (saveToSupabase_effect env structuredResult userId w)
    as (outcome & users & cans' & cans & scans & dishes & sent
        & E & Hc & _ & Hcn & _ & _ & _ & Hr).
  rewrite E in Hrun. injection Hrun as -> <-.
  rewrite (checkForExistingCanonicalMenu_answered env2 _ _ T F2).
  rewrite canonical_grown. cbn [fst].
  rewrite (lookup_by_created_as _ _ _ Hc).
  destruct (Hr r eq_refl)
    as [(prior & _ & _ & _ & -> & _)
       | (_ & _ & [(row & _ & _ & Hhd & -> & -> & _) | (-> & -> & _)])].
  - discriminate Hcid.
  - rewrite app_nil_r, Hhd. cbn [option_map].
    eexists. split; [reflexivity |].
    cbn [canonicalId reuse_result] in Hcid. now injection Hcid.
  - destruct Hcn as [Hnil | [_ Fresh]]; [discriminate Hnil |].
    rewrite filter_app, (existsb_false_filter _ _ Fresh). cbn [app filter].
    unfold has_content_hash at 1. cbn [cm_content_hash new_canonical_row].
    rewrite String.eqb_refl. cbn [hd_error option_map].
    eexists. split; [reflexivity |].
    cbn [canonicalId new_result] in Hcid. now injection Hcid.
Qed.

(** X19. A failed scan insert is not rolled back.  When a call has found
    neither a scan of the image nor a menu of the content, and has inserted
    the canonical menu, an error reported for the scan insert makes it throw
    [Scan insert failed: ...]; the new canonical menu stays in the store,
    without a scan and without dishes, and an answered look-up by that
    content hash finds it from then on. *)
Theorem failed_scan_insert_leaves_the_new_menu
    (env env2 : Env) structuredResult userId w e :
  fst (checkForExistingUserScan env userId (sr_imageHash structuredResult) w)
    = inr None ->
  fst (ensureUserExists env userId w) = inr true ->
  fst (checkForExistingCanonicalMenu env (sr_contentHash structuredResult) w)
    = inr None ->
  on_canonicalInsert env = None ->
  existsb (has_content_hash (sr_contentHash structuredResult))
    (canonical_menus (db w)) = false ->
  on_scanInsert env = Some (Reports e) ->
  truthy (sr_contentHash structuredResult) = true ->
  on_canonicalSelect env2 = None ->
  let run := saveToSupabase env structuredResult userId w in
  fst run = inl {| Ocr.error_message := "Scan insert failed: " ++ message e |}
  /\ canonical_menus (db (snd run)) =
       canonical_menus (db w) ++ [new_canonical_row env structuredResult]
  /\ menu_scan (db (snd run)) = menu_scan (db w)
  /\ menu_dishes (db (snd run)) = menu_dishes (db w)
  /\ fst (checkForExistingCanonicalMenu env2
            (sr_contentHash structuredResult) (snd run)) =
       inr (Some (canonical_summary (new_canonical_row env structuredResult))).
Proof.
  intros Hdup Hens Hcan Hci Fresh Hsi T F2 run. subst run.
  assert (Run : exists users sent,
            saveToSupabase env structuredResult userId w =
              (inl {| Ocr.error_message :=
                        "Scan insert failed: " ++ message e |},
               grown w users
                 (canonical_menus (db w)
                  ++ [new_canonical_row env structuredResult]) [] [] sent)).
  2:{ destruct Run as (users & sent & ->). cbn [fst snd].
      rewrite canonical_grown, scans_grown, dishes_grown, !app_nil_r.
      repeat split.
      rewrite (checkForExistingCanonicalMenu_answered env2 _ _ T F2).
      rewrite canonical_grown, filter_app, (existsb_false_filter _ _ Fresh).
      cbn [app filter fst]. unfold has_content_hash at 1.
      cbn [cm_content_hash new_canonical_row].
      now rewrite String.eqb_refl. }
  rewrite saveToSupabase_paths. unfold bind at 1.
  destruct (checkForExistingUserScan_cases env userId
              (sr_imageHash structuredResult) w)
    as [sent0 [[E0 _] | (prior & _ & _ & _ & _ & _ & E0)]];
    rewrite E0 in Hdup |- *; [clear Hdup | discriminate Hdup].
  unfold bind at 1.
  destruct (ensureUserExists_effect env userId
              (grown w [] (canonical_menus (db w)) [] [] sent0))
    as (o1 & users & sent1 & E1 & _ & _ & _).
  rewrite (ensureUserExists_value env userId w
             (grown w [] (canonical_menus (db w)) [] [] sent0)) in Hens
    by (symmetry; apply db_grown_nothing).
  rewrite E1 in Hens |- *. cbn [fst] in Hens. subst o1.
  rewrite canonical_grown, grown_grown. cbn [app].
  unfold bind at 1.
  destruct (checkForExistingCanonicalMenu_cases env
              (sr_contentHash structuredResult)
              (grown w users (canonical_menus (db w)) [] [] (sent0 ++ sent1)))
    as [sent2 [E2 | (row & _ & _ & _ & _ & E2)]];
    rewrite (checkForExistingCanonicalMenu_value env
               (sr_contentHash structuredResult) w
               (grown w users (canonical_menus (db w)) [] []
                  (sent0 ++ sent1))) in Hcan by reflexivity;
    rewrite E2 in Hcan |- *; [clear Hcan | discriminate Hcan].
  rewrite canonical_grown, grown_grown, try_catch_rethrow, !app_nil_r.
  unfold scenarioB, bind.
  rewrite Hci, request_insert_canonical, canonical_grown.
  cbn [cm_content_hash new_canonical_row]. rewrite Fresh.
  cbn [error ok_response data]. rewrite Hsi, request_faulted.
  cbn [error error_response]. unfold throw.
  rewrite !grown_grown, !app_nil_r. eexists _, _. reflexivity.
Qed.

End StoreRoundTrips.

(** ** The further properties of the store, at concrete runs *)

Section StoreRuns.

Import Persist Paths Shapes Scenarios MoreScenarios.

(** X11, at a concrete store: the store after user A scanned image X. *)
Lemma answered_lookups_find_what_is_stored_witness :
  (fst (checkForExistingUserScan quiet "user-b" "img-x" after_first_scan)
     = inr None
   <-> forall s, In s (menu_scan (db after_first_scan)) ->
                 ~ (ms_user_id s = "user-b" /\ ms_image_hash s = "img-x"))
  /\ (fst (checkForExistingCanonicalMenu quiet "hash-x" after_first_scan)
        = inr None
      <-> forall r, In r (canonical_menus (db after_first_scan)) ->
                    cm_content_hash r <> "hash-x").
Proof.
  exact (answered_lookups_find_what_is_stored quiet "user-b" "img-x" "hash-x"
           after_first_scan eq_refl eq_refl eq_refl eq_refl).
Defined.

(** X13, at a concrete run: user B scans the menu that user A scanned. *)
Lemma saveToSupabase_keeps_references_valid_witness :
  linked (db (snd (saveToSupabase quiet scanned_by_b "user-b"
                     after_first_scan))).
Proof.
  apply (saveToSupabase_keeps_references_valid quiet scanned_by_b "user-b"
           after_first_scan).
  split.
  - intros s [<- | []]. simpl. auto.
  - intros r [].
Defined.

(** X14, at the same run. *)
Lemma saveToSupabase_result_names_a_stored_scan_witness :
  exists s,
    In s (menu_scan (db (snd (saveToSupabase quiet scanned_by_b "user-b"
                                after_first_scan))))
    /\ ms_id s = "scan-2"
    /\ ms_user_id s = "user-b"
    /\ ms_image_hash s = "img-y"
    /\ (method reused_by_b = "duplicate_image_hash"
        /\ canonicalId reused_by_b = None
        \/ exists row p,
             In row (canonical_menus
                       (db (snd (saveToSupabase quiet scanned_by_b "user-b"
                                   after_first_scan))))
             /\ canonicalId reused_by_b = Some (cm_id row)
             /\ ms_canonical_menu_id s = cm_id row
             /\ cm_content_hash row = "hash-x"
             /\ In p (user_profile
                        (db (snd (saveToSupabase quiet scanned_by_b "user-b"
                                    after_first_scan))))
             /\ up_id p = "user-b").
Proof.
  exact (saveToSupabase_result_names_a_stored_scan quiet scanned_by_b
           "user-b" after_first_scan reused_by_b
           (snd (saveToSupabase quiet scanned_by_b "user-b" after_first_scan))
           eq_refl).
Defined.

(** X16, at a concrete run: user C scans a new menu twice. *)
Lemma rescan_returns_the_first_scan_witness :
  saveToSupabase quiet scanned "user-c"
    (snd (saveToSupabase quiet scanned "user-c" fresh)) =
    (inr {| scanId := "scan-2";
            method := "duplicate_image_hash";
            existingScan := Some true;
            canonicalId := None;
            existingCanonicalMenuFirstScanId := None;
            dishCount := None;
            newDishes := None |},
     {| db := db (snd (saveToSupabase quiet scanned "user-c" fresh));
        calls := calls (snd (saveToSupabase quiet scanned "user-c" fresh))
                 ++ [SelectUserScan "user-c" "img-x"] |}).
Proof.
  exact (rescan_returns_the_first_scan quiet quiet scanned scanned "user-c"
           fresh created_by_c
           (snd (saveToSupabase quiet scanned "user-c" fresh))
           eq_refl eq_refl eq_refl eq_refl eq_refl).
Defined.

(** X17, at the same run. *)
Lemma saved_menu_is_found_by_its_content_hash_witness :
  exists found,
    fst (checkForExistingCanonicalMenu quiet "hash-x"
           (snd (saveToSupabase quiet scanned "user-c" fresh)))
      = inr (Some found)
    /\ cs_id found = "menu-2".
Proof.
  exact (saved_menu_is_found_by_its_content_hash quiet quiet scanned "user-c"
           fresh created_by_c
           (snd (saveToSupabase quiet scanned "user-c" fresh)) "menu-2"
           eq_refl eq_refl eq_refl eq_refl).
Defined.

(** X18, at a concrete run: two starters and a dessert. *)
Lemma all_dishes_are_stored_in_menu_order_witness :
  (exists added,
      menu_dishes (db (snd (saveToSupabase quiet scanned_small "user-c"
                              fresh))) = menu_dishes (db fresh) ++ added
      /\ Forall2 (stored_as "menu-2")
           [ (soup, js "STARTERS"); (bread, js "STARTERS");
             (cake, js "DESSERTS") ]
           added)
  /\ dishCount created_small = Some 3
  /\ menu_dishes (db (snd (saveToSupabase quiet scanned_small "user-c"
                             fresh))) =
       menu_dishes (db fresh) ++ all_dish_rows quiet "menu-2"
                                   (sr_structuredData scanned_small)
  /\ dishCount created_small = Some 3.
Proof.
  exact (all_dishes_are_stored_in_menu_order quiet scanned_small "user-c"
           fresh created_small
           (snd (saveToSupabase quiet scanned_small "user-c" fresh))
           (fun _ => eq_refl) eq_refl eq_refl).
Defined.

(** X19, at a concrete run: the scan insert of user C times out. *)
Lemma failed_scan_insert_leaves_the_new_menu_witness :
  let run := saveToSupabase scan_insert_down scanned "user-c" fresh in
  fst run =
    inl {| Ocr.error_message :=
             "Scan insert failed: canceling statement due to statement timeout" |}
  /\ canonical_menus (db (snd run)) =
       [new_canonical_row scan_insert_down scanned]
  /\ menu_scan (db (snd run)) = []
  /\ menu_dishes (db (snd run)) = []
  /\ fst (checkForExistingCanonicalMenu quiet "hash-x" (snd run)) =
       inr (Some (canonical_summary
                    (new_canonical_row scan_insert_down scanned))).
Proof.
  exact (failed_scan_insert_leaves_the_new_menu scan_insert_down quiet
           scanned "user-c" fresh transient
           eq_refl eq_refl eq_refl eq_refl eq_refl eq_refl eq_refl eq_refl).
Defined.

End StoreRuns.

(** ** The duplicate look-ups under errors *)

(** C10. Each of the two duplicate look-ups always returns: when its query
    is answered by an error or rejects, the value is "not found" and the
    store is untouched.  So the call goes on without the duplicate.  When
    the look-up by image hash fails, the call never reports a duplicate,
    and whenever it returns it has stored a new scan of this user and image
    hash; when the look-up by content hash fails, in a call that has found
    no scan of the image and has ensured the user, the call sends the
    insert into [canonical_menus] for this content hash and can only
    return [new_canonical_menu].  Both happen for content that is already
    stored: there is a run in which a transient error of the look-up by
    image hash adds a second scan of a stored user and image, where the
    answered look-up reports the duplicate and adds nothing; and a run in
    which a transient error of the look-up by content hash makes the call
    send the insert for a stored content hash, where the answered look-up
    sends none. *)
Theorem C10_lookup_errors_are_read_as_not_found :
  (forall env userId imageHash w,
      exists v, fst (Persist.checkForExistingUserScan env userId imageHash w) = inr v)
  /\ (forall env contentHash w,
      exists v, fst (Persist.checkForExistingCanonicalMenu env contentHash w) = inr v)
  /\ (forall env userId imageHash fault w,
      Persist.on_userScanSelect env = Some fault ->
      fst (Persist.checkForExistingUserScan env userId imageHash w) = inr None
      /\ db (snd (Persist.checkForExistingUserScan env userId imageHash w)) = db w)
  /\ (forall env contentHash fault w,
      Persist.on_canonicalSelect env = Some fault ->
      fst (Persist.checkForExistingCanonicalMenu env contentHash w) = inr None
      /\ db (snd (Persist.checkForExistingCanonicalMenu env contentHash w)) = db w)
  /\ (forall env structuredResult userId w fault,
      Persist.on_userScanSelect env = Some fault ->
      let run := Persist.saveToSupabase env structuredResult userId w in
      forall r,
        fst run = inr r ->
        Persist.method r <> "duplicate_image_hash"
        /\ exists s,
             menu_scan (db (snd run)) = menu_scan (db w) ++ [s]
             /\ ms_id s = Persist.scanId r
             /\ ms_user_id s = userId
             /\ ms_image_hash s = Persist.sr_imageHash structuredResult)
  /\ (forall env structuredResult userId w fault,
      Persist.on_canonicalSelect env = Some fault ->
      fst (Persist.checkForExistingUserScan env userId
             (Persist.sr_imageHash structuredResult) w) = inr None ->
      fst (Persist.ensureUserExists env userId w) = inr true ->
      let run := Persist.saveToSupabase env structuredResult userId w in
      (exists before rest,
          calls (snd run) =
            calls w ++ before
            ++ InsertCanonical (Persist.sr_contentHash structuredResult) :: rest)
      /\ forall r, fst run = inr r ->
                   Persist.method r = "new_canonical_menu")
  /\ (exists env quiet_env structuredResult userId w e prior second r dup,
      Persist.on_userScanSelect env = Some (Reports e)
      /\ Persist.on_userScanSelect quiet_env = None
      /\ menu_scan (db w) = [prior]
      /\ ms_user_id prior = userId
      /\ ms_image_hash prior = Persist.sr_imageHash structuredResult
      /\ fst (Persist.saveToSupabase env structuredResult userId w) = inr r
      /\ Persist.method r = "canonical_menu_reuse"
      /\ menu_scan (db (snd (Persist.saveToSupabase env structuredResult
                               userId w))) = [prior; second]
      /\ ms_user_id second = userId
      /\ ms_image_hash second = Persist.sr_imageHash structuredResult
      /\ ms_id second <> ms_id prior
      /\ fst (Persist.saveToSupabase quiet_env structuredResult userId w)
         = inr dup
      /\ Persist.method dup = "duplicate_image_hash"
      /\ Persist.scanId dup = ms_id prior
      /\ db (snd (Persist.saveToSupabase quiet_env structuredResult userId w))
         = db w)
  /\ (exists env quiet_env structuredResult userId w e row,
      Persist.on_canonicalSelect env = Some (Reports e)
      /\ Persist.on_canonicalSelect quiet_env = None
      /\ In row (canonical_menus (db w))
      /\ cm_content_hash row = Persist.sr_contentHash structuredResult
      /\ calls w = []
      /\ calls (snd (Persist.saveToSupabase env structuredResult userId w)) =
           [ SelectUserScan userId (Persist.sr_imageHash structuredResult);
             SelectUser userId;
             InsertUser userId;
             SelectCanonical (Persist.sr_contentHash structuredResult);
             InsertCanonical (Persist.sr_contentHash structuredResult) ]
      /\ fst (Persist.saveToSupabase env structuredResult userId w) =
           inl {| Ocr.error_message :=
                    "Canonical menu insert failed: " ++ message unique_violation |}
      /\ ~ In (InsertCanonical (Persist.sr_contentHash structuredResult))
             (calls (snd (Persist.saveToSupabase quiet_env structuredResult
                            userId w)))).
Proof.
  split; [| split; [| split; [| split; [| split; [| split; [| split]]]]]].
  - intros env userId imageHash w.
    destruct (checkForExistingUserScan_frame env userId imageHash w) as [v E].
    exists v. rewrite E. reflexivity.
  - intros env contentHash w.
    destruct (checkForExistingCanonicalMenu_frame env contentHash w) as [v E].
    exists v. rewrite E. reflexivity.
  - intros env userId imageHash fault w.
    apply checkForExistingUserScan_failed.
  - intros env contentHash fault w.
    apply checkForExistingCanonicalMenu_failed.
  - intros env structuredResult userId w fault Hf run r Hrun. subst run.
    destruct (saveToSupabase_effect env structuredResult userId w)
      as (outcome & users & cans' & cans & scans & dishes & sent
          & E & _ & _ & _ & _ & _ & _ & Hr).
    rewrite E in Hrun |- *. cbn [fst snd] in Hrun |- *. subst outcome.
    rewrite scans_grown.
    destruct (Hr r eq_refl)
      as [(prior & _ & _ & Hans & _)
         | (_ & _
            & [(row & _ & _ & _ & -> & _ & -> & _) | (-> & _ & -> & _)])].
    + congruence.
    + split; [discriminate |].
      eexists. split; [reflexivity |]. repeat split.
    + split; [discriminate |].
      eexists. split; [reflexivity |]. repeat split.
  - intros env structuredResult userId w fault Hf Hdup Hens run. subst run.
    assert (Run : exists o before rest w',
              Persist.saveToSupabase env structuredResult userId w = (o, w')
              /\ calls w' =
                   calls w ++ before
                   ++ InsertCanonical (Persist.sr_contentHash structuredResult)
                      :: rest
              /\ forall r, o = inr r ->
                           Persist.method r = "new_canonical_menu").
    2:{ destruct Run as (o & before & rest & w' & -> & Hc & Hm).
        cbn [fst snd]. split; [eauto | exact Hm]. }
    rewrite saveToSupabase_paths. unfold Persist.bind at 1.
    destruct (checkForExistingUserScan_cases env userId
                (Persist.sr_imageHash structuredResult) w)
      as [sent0 [[E0 _] | (prior & _ & _ & _ & _ & _ & E0)]];
      rewrite E0 in Hdup |- *; [clear Hdup | discriminate Hdup].
    unfold Persist.bind at 1.
    destruct (ensureUserExists_effect env userId
                (Paths.grown w [] (canonical_menus (db w)) [] [] sent0))
      as (o1 & users & sent1 & E1 & _ & _ & _).
    rewrite (ensureUserExists_value env userId w
               (Paths.grown w [] (canonical_menus (db w)) [] [] sent0)) in Hens
      by (symmetry; apply db_grown_nothing).
    rewrite E1 in Hens |- *. cbn [fst] in Hens. subst o1.
    rewrite canonical_grown, grown_grown. cbn [app].
    unfold Persist.bind at 1.
    destruct (checkForExistingCanonicalMenu_failed env
                (Persist.sr_contentHash structuredResult) fault
                (Paths.grown w users (canonical_menus (db w)) [] []
                   (sent0 ++ sent1)) Hf) as [Hnone _].
    destruct (checkForExistingCanonicalMenu_cases env
                (Persist.sr_contentHash structuredResult)
                (Paths.grown w users (canonical_menus (db w)) [] []
                   (sent0 ++ sent1)))
      as [sent2 [E2 | (row & _ & _ & _ & _ & E2)]];
      rewrite E2 in Hnone |- *; [clear Hnone | discriminate Hnone].
    rewrite canonical_grown, grown_grown, try_catch_rethrow, !app_nil_r.
    match goal with
    | |- context [Paths.scenarioB _ _ _ ?w2] =>
        destruct (scenarioB_effect env structuredResult userId w2)
          as (o & cans' & cans & scans & dishes & sent3 & E3 & [rest Hsent]
              & _ & Hcases)
    end.
    rewrite E3. clear E3. rewrite grown_grown. subst sent3.
    exists o, ((sent0 ++ sent1) ++ sent2), rest. eexists.
    split; [reflexivity |]. rewrite calls_grown. split.
    + now rewrite <- !app_assoc.
    + intros r ->.
      destruct Hcases as [(_ & _ & _ & e & He)
                         | (_ & _ & [(_ & _ & e & He) | (_ & _ & Hr & _)])];
        try discriminate He.
      now rewrite (Hr r eq_refl).
  - exists Scenarios.scan_lookup_down, Scenarios.quiet, Scenarios.scanned,
      "user-a", Scenarios.after_first_scan, Scenarios.transient.
    eexists. eexists. eexists. eexists.
    split; [reflexivity |]. split; [reflexivity |]. split; [reflexivity |].
    split; [reflexivity |]. split; [reflexivity |].
    split; [vm_compute; reflexivity |]. split; [reflexivity |].
    split; [vm_compute; reflexivity |]. split; [reflexivity |].
    split; [reflexivity |]. split; [discriminate |].
    split; [vm_compute; reflexivity |]. split; [reflexivity |].
    split; [reflexivity |]. vm_compute; reflexivity.
  - exists Scenarios.canonical_lookup_down, Scenarios.quiet,
      Scenarios.scanned_by_b, "user-b", Scenarios.after_first_scan,
      Scenarios.transient.
    eexists.
    split; [reflexivity |]. split; [reflexivity |].
    split; [left; reflexivity |]. split; [reflexivity |].
    split; [reflexivity |]. split; [vm_compute; reflexivity |].
    split; [vm_compute; reflexivity |].
    vm_compute. intros H.
    repeat (destruct H as [H | H]; [discriminate H |]). exact H.
Qed.

(** C10, at a concrete run: the look-up by image hash fails although the
    scan is stored. *)
Lemma C10_lookup_errors_are_read_as_not_found_witness :
  fst (Persist.checkForExistingUserScan Scenarios.scan_lookup_down "user-a"
         "img-x" Scenarios.after_first_scan) = inr None
  /\ db (snd (Persist.checkForExistingUserScan Scenarios.scan_lookup_down
                "user-a" "img-x" Scenarios.after_first_scan))
     = db Scenarios.after_first_scan.
Proof.
  exact (proj1 (proj2 (proj2 C10_lookup_errors_are_read_as_not_found))
           Scenarios.scan_lookup_down "user-a" "img-x"
           (Reports Scenarios.transient) Scenarios.after_first_scan eq_refl).
Defined.
